(** * Deep Research skill: the data extraction module

    A shallow embedding of [deep-research/scripts/data_extractor.py]
    (class [DataExtractor]) and the properties its specification states.

    Python strings are sequences of Unicode code points: a text is a
    [list N] of code points, and every index, window and repetition
    count below counts code points, as the Python code does. *)

From Stdlib Require Import List NArith ZArith QArith Bool Arith Lia String Ascii.
From Stdlib Require Import Sorted.
Import ListNotations.

Close Scope Q_scope.

Set Implicit Arguments.

(* ================================================================= *)
(** ** Text: code points *)

Definition char := N.
Definition str := list char.

(** Source literals are written as UTF-8 string literals and decoded to
    code points. *)
Fixpoint bytes_of (s : string) : list N :=
  match s with
  | EmptyString => []
  | String a t => N_of_ascii a :: bytes_of t
  end.

Fixpoint utf8_decode (bs : list N) : str :=
  match bs with
  | [] => []
  | b :: t =>
    if (b <? 128)%N then b :: utf8_decode t
    else if (b <? 224)%N then
      match t with
      | b1 :: t1 => ((b - 192) * 64 + (b1 - 128))%N :: utf8_decode t1
      | _ => []
      end
    else if (b <? 240)%N then
      match t with
      | b1 :: b2 :: t2 =>
        ((b - 224) * 4096 + (b1 - 128) * 64 + (b2 - 128))%N :: utf8_decode t2
      | _ => []
      end
    else
      match t with
      | b1 :: b2 :: b3 :: t3 =>
        ((b - 240) * 262144 + (b1 - 128) * 4096 + (b2 - 128) * 64
         + (b3 - 128))%N :: utf8_decode t3
      | _ => []
      end
  end.

Definition py (s : string) : str := utf8_decode (bytes_of s).

Definition ch (s : string) : char := hd 0%N (py s).

Definition str_eqb (a b : str) : bool :=
  if list_eq_dec N.eq_dec a b then true else false.

(** [str.isspace] for one character, which is also the regular
    expression class [\s] on [str] patterns. *)
Definition is_space (c : char) : bool :=
  ((9 <=? c) && (c <=? 13) || (28 <=? c) && (c <=? 32)
   || (c =? 133) || (c =? 160) || (c =? 5760)
   || (8192 <=? c) && (c <=? 8202)
   || (c =? 8232) || (c =? 8233) || (c =? 8239) || (c =? 8287)
   || (c =? 12288))%N.

(* ----------------------------------------------------------------- *)
(** *** Python string operations *)

(** [s.split(sep)] for a one-character separator. *)
Fixpoint split (sep : char) (s : str) : list str :=
  match s with
  | [] => [[]]
  | c :: t =>
    if (c =? sep)%N then [] :: split sep t
    else match split sep t with
         | h :: r => (c :: h) :: r
         | [] => [[c]]
         end
  end.

(** [sep.join(parts)] *)
Fixpoint join (sep : str) (parts : list str) : str :=
  match parts with
  | [] => []
  | [p] => p
  | p :: rest => p ++ sep ++ join sep rest
  end.

Fixpoint lstrip (s : str) : str :=
  match s with
  | c :: t => if is_space c then lstrip t else s
  | [] => []
  end.

Definition rstrip (s : str) : str := rev (lstrip (rev s)).

(** [s.strip()] *)
Definition strip (s : str) : str := rstrip (lstrip s).

(** [c in s] for a single character *)
Definition has_char (c : char) (s : str) : bool := existsb (N.eqb c) s.

Fixpoint starts_with (p s : str) : bool :=
  match p, s with
  | [], _ => true
  | a :: p', b :: s' => (a =? b)%N && starts_with p' s'
  | _ :: _, [] => false
  end.

(** [sub in s] *)
Fixpoint contains (sub s : str) : bool :=
  starts_with sub s ||
  match s with
  | [] => false
  | _ :: t => contains sub t
  end.

(** [s[a:b]] for non-negative [a] and [b] *)
Definition slice (s : str) (a b : nat) : str := firstn (b - a) (skipn a s).

(** [s.replace(c, '')] for a single character *)
Definition remove_char (c : char) (s : str) : str :=
  filter (fun x => negb (x =? c)%N) s.


(* ================================================================= *)
(** ** Regular expressions: the fragment of Python's [re] the module uses

    The extractor builds several of its patterns at run time by
    interpolating input text into a pattern string, so the pattern
    compiler is part of the model.  [re_compile] follows the parser of
    the [re] module on the syntax used here: literals, [.], character
    sets with ranges and the classes [\d \D \s \S], capturing and
    non-capturing groups, alternation, and the greedy and lazy
    repetitions [* + ? {m,n}].  A pattern that uses anything else
    compiles to [Unmodelled]. *)

Inductive exn :=
| re_error (msg : string)
| OverflowError.

Inductive result (A : Type) :=
| Ok (a : A)
| Raise (e : exn)
| Unmodelled.
Arguments Raise {A} e.
Arguments Unmodelled {A}.

Definition bind {A B} (x : result A) (f : A -> result B) : result B :=
  match x with
  | Ok a => f a
  | Raise e => Raise e
  | Unmodelled => Unmodelled
  end.

Notation "'do' x <- e1 ; e2" := (bind e1 (fun x => e2))
  (at level 10, x pattern, e1 at level 100, e2 at level 200).

Inductive category := Digit | NotDigit | Space | NotSpace.

Inductive set_item :=
| SChar (c : char)
| SRange (lo hi : char)
| SCat (k : category).

Inductive regex :=
| REps
| RLit (c : char)
| RAny
| RSet (negate : bool) (items : list set_item)
| RSeq (r1 r2 : regex)
| RAlt (r1 r2 : regex)
| RRep (lo : nat) (hi : option nat) (greedy : bool) (r : regex)
| RGroup (n : nat) (r : regex).

Definition is_ascii_digit (c : char) : bool := ((48 <=? c) && (c <=? 57))%N.

Definition is_ascii_alnum (c : char) : bool :=
  (is_ascii_digit c || (65 <=? c) && (c <=? 90) || (97 <=? c) && (c <=? 122))%N.

(** The character after a backslash, inside or outside a set. *)
Definition escape_item (e : char) : result set_item :=
  if (e =? ch "d")%N then Ok (SCat Digit)
  else if (e =? ch "D")%N then Ok (SCat NotDigit)
  else if (e =? ch "s")%N then Ok (SCat Space)
  else if (e =? ch "S")%N then Ok (SCat NotSpace)
  else if (e =? ch "n")%N then Ok (SChar 10%N)
  else if (e =? ch "t")%N then Ok (SChar 9%N)
  else if (e =? ch "r")%N then Ok (SChar 13%N)
  else if (e =? ch "f")%N then Ok (SChar 12%N)
  else if (e =? ch "v")%N then Ok (SChar 11%N)
  else if (e =? ch "a")%N then Ok (SChar 7%N)
  else if is_ascii_alnum e then Unmodelled
  else Ok (SChar e).

(** One member of a character set: a plain character or an escape. *)
Definition set_member (this : char) (p : str) : result (set_item * str) :=
  if (this =? ch "\")%N then
    match p with
    | [] => Raise (re_error "bad escape (end of pattern)")
    | e :: p' => do i <- escape_item e; Ok (i, p')
    end
  else Ok (SChar this, p).

(** The body of a character set, after [[] and an optional [^]. *)
Fixpoint parse_set (fuel : nat) (p : str) (acc : list set_item)
  : result (list set_item * str) :=
  match fuel with
  | O => Unmodelled
  | S f =>
    match p with
    | [] => Raise (re_error "unterminated character set")
    | this :: p1 =>
      if (this =? ch "]")%N && negb (Nat.eqb (List.length acc) 0)
      then Ok (rev acc, p1)
      else
        do (code1, p2) <- set_member this p1;
        match p2 with
        | dash :: p3 =>
          if (dash =? ch "-")%N then
            match p3 with
            | [] => Raise (re_error "unterminated character set")
            | that :: p4 =>
              if (that =? ch "]")%N
              then Ok (rev (SChar (ch "-") :: code1 :: acc), p4)
              else
                do (code2, p5) <- set_member that p4;
                match code1, code2 with
                | SChar lo, SChar hi =>
                  if (hi <? lo)%N
                  then Raise (re_error "bad character range")
                  else parse_set f p5 (SRange lo hi :: acc)
                | _, _ => Raise (re_error "bad character range")
                end
            end
          else parse_set f p2 (code1 :: acc)
        | [] => parse_set f p2 (code1 :: acc)
        end
    end
  end.

(** Repetition operators.  [MAXREPEAT] is the engine's bound on counts. *)
Definition MAXREPEAT : N := 4294967295.

Fixpoint take_digits (p : str) (acc : option N) : option N * str :=
  match p with
  | c :: t =>
    if is_ascii_digit c
    then take_digits t (Some (10 * match acc with Some a => a | None => 0 end
                              + (c - 48))%N)
    else (acc, p)
  | [] => (acc, p)
  end.

Inductive repeat_op :=
| NoRepeat
| Repeat (lo : nat) (hi : option nat) (rest : str).

Definition parse_repeat (p : str) : result repeat_op :=
  match p with
  | [] => Ok NoRepeat
  | c :: p1 =>
    if (c =? ch "*")%N then Ok (Repeat 0 None p1)
    else if (c =? ch "+")%N then Ok (Repeat 1 None p1)
    else if (c =? ch "?")%N then Ok (Repeat 0 (Some 1) p1)
    else if (c =? ch "{")%N then
      match p1 with
      | [] => Ok NoRepeat
      | c1 :: _ =>
        if (c1 =? ch "}")%N then Ok NoRepeat
        else
          let (lo, p2) := take_digits p1 None in
          let (hi, p3) :=
            match p2 with
            | c2 :: p2' =>
              if (c2 =? ch ",")%N then take_digits p2' None else (lo, p2)
            | [] => (lo, p2)
            end in
          match p3 with
          | c3 :: p4 =>
            if (c3 =? ch "}")%N then
              let mn := match lo with Some n => n | None => 0%N end in
              if (MAXREPEAT <=? mn)%N then Raise OverflowError
              else match hi with
                   | None => Ok (Repeat (N.to_nat mn) None p4)
                   | Some mx =>
                     if (MAXREPEAT <=? mx)%N then Raise OverflowError
                     else if (mx <? mn)%N
                     then Raise (re_error "min repeat greater than max repeat")
                     else Ok (Repeat (N.to_nat mn) (Some (N.to_nat mx)) p4)
                   end
            else Ok NoRepeat
          | [] => Ok NoRepeat
          end
      end
    else Ok NoRepeat
  end.

(** An atom followed by its optional repetition and laziness mark. *)
Definition with_repeat (atom : regex) (p : str) : result (regex * str) :=
  do op <- parse_repeat p;
  match op with
  | NoRepeat => Ok (atom, p)
  | Repeat lo hi p1 =>
    do (greedy, p2) <-
      match p1 with
      | c :: p1' =>
        if (c =? ch "?")%N then Ok (false, p1')
        else if (c =? ch "+")%N then Unmodelled
        else Ok (true, p1)
      | [] => Ok (true, p1)
      end;
    do again <- parse_repeat p2;
    match again with
    | NoRepeat => Ok (RRep lo hi greedy atom, p2)
    | Repeat _ _ _ => Raise (re_error "multiple repeat")
    end
  end.

Definition expect_close (p : str) : result str :=
  match p with
  | c :: p' =>
    if (c =? ch ")")%N then Ok p'
    else Raise (re_error "missing ), unterminated subpattern")
  | [] => Raise (re_error "missing ), unterminated subpattern")
  end.

(** [parse_alt] reads alternatives separated by [|]; [parse_seq] reads
    one alternative, up to [|], [)] or the end.  [g] counts the
    capturing groups opened so far. *)
Fixpoint parse_alt (fuel : nat) (p : str) (g : nat)
  : result (regex * str * nat) :=
  match fuel with
  | O => Unmodelled
  | S f =>
    do (r1, p1, g1) <- parse_seq f p g;
    match p1 with
    | c :: p2 =>
      if (c =? ch "|")%N
      then do (r2, p3, g2) <- parse_alt f p2 g1; Ok (RAlt r1 r2, p3, g2)
      else Ok (r1, p1, g1)
    | [] => Ok (r1, p1, g1)
    end
  end
with parse_seq (fuel : nat) (p : str) (g : nat)
  : result (regex * str * nat) :=
  match fuel with
  | O => Unmodelled
  | S f =>
    match p with
    | [] => Ok (REps, p, g)
    | c :: p1 =>
      if (c =? ch "|")%N || (c =? ch ")")%N then Ok (REps, p, g)
      else
        do (atom, p2, g2) <-
          (if (c =? ch "(")%N then
             match p1 with
             | q :: p1' =>
               if (q =? ch "?")%N then
                 match p1' with
                 | k :: p1'' =>
                   if (k =? ch ":")%N then
                     do (body, p3, g3) <- parse_alt f p1'' g;
                     do p4 <- expect_close p3;
                     Ok (body, p4, g3)
                   else Unmodelled
                 | [] => Unmodelled
                 end
               else
                 do (body, p3, g3) <- parse_alt f p1 (S g);
                 do p4 <- expect_close p3;
                 Ok (RGroup (S g) body, p4, g3)
             | [] => Raise (re_error "missing ), unterminated subpattern")
             end
           else if (c =? ch "[")%N then
             let (negate, p1') :=
               match p1 with
               | h :: t => if (h =? ch "^")%N then (true, t) else (false, p1)
               | [] => (false, p1)
               end in
             do (items, p3) <- parse_set (S (List.length p1')) p1' [];
             Ok (RSet negate items, p3, g)
           else if (c =? ch "\")%N then
             match p1 with
             | [] => Raise (re_error "bad escape (end of pattern)")
             | e :: p1' =>
               do i <- escape_item e;
               match i with
               | SChar x => Ok (RLit x, p1', g)
               | _ => Ok (RSet false [i], p1', g)
               end
             end
           else if (c =? ch ".")%N then Ok (RAny, p1, g)
           else if (c =? ch "^")%N || (c =? ch "$")%N then Unmodelled
           else
             do op <- parse_repeat p;
             match op with
             | NoRepeat => Ok (RLit c, p1, g)
             | Repeat _ _ _ => Raise (re_error "nothing to repeat")
             end);
        do (item, p5) <- with_repeat atom p2;
        do (rest, p6, g6) <- parse_seq f p5 g2;
        Ok (RSeq item rest, p6, g6)
    end
  end.

(** [re.compile(pattern)] *)
Definition re_compile (pattern : str) : result regex :=
  do (r, rest, _) <- parse_alt (2 * List.length pattern + 2) pattern 0;
  match rest with
  | [] => Ok r
  | _ :: _ => Raise (re_error "unbalanced parenthesis")
  end.

(** [re.escape(s)]: a backslash before every character that is special
    in a pattern. *)
Definition special_chars : str :=
  py "()[]{}?*+-|^$\.&~# " ++ [9; 10; 13; 11; 12]%N.

Definition re_escape (s : str) : str :=
  flat_map (fun c => if has_char c special_chars then [ch "\"; c] else [c]) s.

(* ----------------------------------------------------------------- *)
(** *** Matching

    A backtracking matcher in continuation-passing style: alternatives
    are tried left to right, a greedy repetition tries one more
    iteration before the rest of the pattern and a lazy one the rest of
    the pattern first.  An iteration past the minimum that consumes
    nothing is not repeated.

    [\d] on a [str] pattern is the Unicode category Nd, which depends on
    the version of the Unicode database; the table of decimal digits is
    therefore a parameter ([unicodedata.decimal]), and [ascii_decimal]
    below is its restriction to ASCII. *)

Definition caps := list (nat * (nat * nat)).

Record Match := mkMatch {
  m_start : nat;
  m_end : nat;
  m_groups : caps
}.

Section Matching.

Variable decimal : char -> option N.

Definition is_digit (c : char) : bool :=
  match decimal c with Some _ => true | None => false end.

Definition in_category (k : category) (c : char) : bool :=
  match k with
  | Digit => is_digit c
  | NotDigit => negb (is_digit c)
  | Space => is_space c
  | NotSpace => negb (is_space c)
  end.

Definition in_item (i : set_item) (c : char) : bool :=
  match i with
  | SChar x => (c =? x)%N
  | SRange lo hi => ((lo <=? c) && (c <=? hi))%N
  | SCat k => in_category k c
  end.

Definition in_set (negate : bool) (items : list set_item) (c : char) : bool :=
  xorb negate (existsb (fun i => in_item i c) items).

Definition cont := str -> nat -> caps -> option (nat * caps).

Fixpoint rloop (step : str -> nat -> caps -> cont -> option (nat * caps))
    (fuel lo : nat) (hi : option nat) (greedy : bool)
    (s : str) (i : nat) (cs : caps) (k : cont) : option (nat * caps) :=
  match fuel with
  | O => None
  | S f =>
    let more (_ : unit) :=
      match hi with
      | Some O => None
      | _ =>
        step s i cs (fun s' i' cs' =>
          if Nat.eqb lo 0 && Nat.eqb i' i then None
          else rloop step f (pred lo) (option_map pred hi) greedy s' i' cs' k)
      end in
    if Nat.ltb 0 lo then more tt
    else if greedy then
      match more tt with
      | Some x => Some x
      | None => k s i cs
      end
    else
      match k s i cs with
      | Some x => Some x
      | None => more tt
      end
  end.

Definition match_one (ok : char -> bool) (s : str) (i : nat) (cs : caps)
    (k : cont) : option (nat * caps) :=
  match s with
  | c :: s' => if ok c then k s' (S i) cs else None
  | [] => None
  end.

Fixpoint rmatch (r : regex) (s : str) (i : nat) (cs : caps) (k : cont)
  : option (nat * caps) :=
  match r with
  | REps => k s i cs
  | RLit c => match_one (N.eqb c) s i cs k
  | RAny => match_one (fun x => negb (x =? 10)%N) s i cs k
  | RSet negate items => match_one (in_set negate items) s i cs k
  | RSeq r1 r2 => rmatch r1 s i cs (fun s' i' cs' => rmatch r2 s' i' cs' k)
  | RAlt r1 r2 =>
    match rmatch r1 s i cs k with
    | Some x => Some x
    | None => rmatch r2 s i cs k
    end
  | RRep lo hi greedy r1 =>
    rloop (rmatch r1) (lo + List.length s + 1) lo hi greedy s i cs k
  | RGroup n r1 =>
    rmatch r1 s i cs (fun s' i' cs' => k s' i' ((n, (i, i')) :: cs'))
  end.

(** The leftmost match in [s], whose first character is at offset [i]
    of the whole text. *)
Fixpoint search_at (r : regex) (s : str) (i : nat) : option Match :=
  match rmatch r s i [] (fun _ e cs => Some (e, cs)) with
  | Some (e, cs) => Some (mkMatch i e cs)
  | None =>
    match s with
    | [] => None
    | _ :: t => search_at r t (S i)
    end
  end.

(** [re.search(r, s)] *)
Definition re_search (r : regex) (s : str) : option Match := search_at r s 0.

(** [r.finditer(s)]: successive non-overlapping matches.  The patterns
    this module iterates never match the empty string; after an empty
    match the scan moves on by one character. *)
Fixpoint finditer_from (fuel : nat) (r : regex) (s : str) (i : nat)
  : list Match :=
  match fuel with
  | O => []
  | S f =>
    match search_at r s i with
    | None => []
    | Some m =>
      m :: (if Nat.eqb (m_end m) (m_start m)
            then match skipn (m_end m - i) s with
                 | [] => []
                 | _ :: t => finditer_from f r t (S (m_end m))
                 end
            else finditer_from f r (skipn (m_end m - i) s) (m_end m))
    end
  end.

Definition finditer (r : regex) (s : str) : list Match :=
  finditer_from (S (List.length s)) r s 0.

(** [m.group(n)] on the text [s] that was searched; [None] when the
    group took no part in the match. *)
Definition group (s : str) (m : Match) (n : nat) : option str :=
  match find (fun g => Nat.eqb (fst g) n) (m_groups m) with
  | Some (_, (a, b)) => Some (slice s a b)
  | None => None
  end.

(** [m.group()] *)
Definition group0 (s : str) (m : Match) : str := slice s (m_start m) (m_end m).

End Matching.

Definition ascii_decimal (c : char) : option N :=
  if is_ascii_digit c then Some (c - 48)%N else None.

(* ================================================================= *)
(** ** Floating point values

    [float(s)] is the binary64 number nearest to the decimal [s]
    (ties to even), or an infinity beyond the largest finite double.
    Finite values are kept as exact rationals. *)

Inductive pyfloat :=
| Finite (q : Q)
| Infinity (negative : bool).

Definition scale2 (n d e : Z) : Z * Z :=
  if (0 <=? e)%Z then (n, (d * 2 ^ e)%Z) else ((n * 2 ^ (- e))%Z, d).

Definition round_half_even (n d : Z) : Z :=
  let q := (n / d)%Z in
  let r := (n mod d)%Z in
  if (2 * r <? d)%Z then q
  else if (d <? 2 * r)%Z then (q + 1)%Z
  else if Z.even q then q else (q + 1)%Z.

(** The double nearest to [n/d], for [0 <= n] and [0 < d]. *)
Definition nearest_double (n d : Z) : pyfloat :=
  if (n =? 0)%Z then Finite 0 else
  let e0 := (Z.log2 n - Z.log2 d - 52)%Z in
  let (n1, d1) := scale2 n d e0 in
  let e1 := if (n1 / d1 <? 2 ^ 52)%Z then (e0 - 1)%Z else e0 in
  let e := Z.max e1 (-1074) in
  let (n2, d2) := scale2 n d e in
  let m := round_half_even n2 d2 in
  if (0 <=? e)%Z then
    if (2 ^ 1024 <=? m * 2 ^ e)%Z then Infinity false
    else Finite (inject_Z (m * 2 ^ e))
  else Finite (Qred (Qmake m (Z.to_pos (2 ^ (- e))))).

Definition float_neg (x : pyfloat) : pyfloat :=
  match x with
  | Finite q => Finite (Qred (- q))
  | Infinity s => Infinity (negb s)
  end.

(** [x >= q] for a float [x] and an exactly representable [q] *)
Definition float_geb (x : pyfloat) (q : Q) : bool :=
  match x with
  | Finite v => Qle_bool q v
  | Infinity negative => negb negative
  end.

Section Float.

Variable decimal : char -> option N.

Fixpoint digits_value (s : str) (acc : Z) : option Z :=
  match s with
  | [] => Some acc
  | c :: t =>
    match decimal c with
    | Some d => digits_value t (10 * acc + Z.of_N d)%Z
    | None => None
    end
  end.

(** [float(s)] on plain decimal notation: an optional sign, digits and
    an optional fraction; [None] stands for [ValueError].  This is the
    only notation a token of [NUMBER_PATTERN] can have once its commas
    are removed. *)
Definition py_float (s : str) : option pyfloat :=
  let (negative, body) :=
    match s with
    | c :: t =>
      if (c =? ch "-")%N then (true, t)
      else if (c =? ch "+")%N then (false, t)
      else (false, s)
    | [] => (false, s)
    end in
  let parts :=
    match split (ch ".") body with
    | [ip] => Some (ip, [])
    | [ip; fp] => if Nat.eqb (List.length fp) 0 then None else Some (ip, fp)
    | _ => None
    end in
  match parts with
  | Some (ip, fp) =>
    if Nat.eqb (List.length ip) 0 then None
    else
      match digits_value (ip ++ fp) 0 with
      | Some n =>
        let x := nearest_double n (10 ^ Z.of_nat (List.length fp)) in
        Some (if negative then float_neg x else x)
      | None => None
      end
  | None => None
  end.

End Float.

(* ================================================================= *)
(** ** The data model *)

(** A Python [dict] with string keys: insertion ordered, one entry per
    key; assigning to a key that is present keeps its place. *)
Definition dict (V : Type) := list (str * V).

Fixpoint dict_set {V} (k : str) (v : V) (d : dict V) : dict V :=
  match d with
  | [] => [(k, v)]
  | (k', v') :: t =>
    if str_eqb k k' then (k, v) :: t else (k', v') :: dict_set k v t
  end.

Fixpoint dict_get {V} (k : str) (d : dict V) : option V :=
  match d with
  | [] => None
  | (k', v) :: t => if str_eqb k k' then Some v else dict_get k t
  end.

Definition keys {V} (d : dict V) : list str := map fst d.

(** [ExtractedData]; the [metadata] dictionary holds the two entries
    [headers] and [row_count].  The time stamp [extracted_at] is the
    wall clock and is left out. *)
Record ExtractedData := mkExtractedData {
  content_type : str;
  raw_content : str;
  structured_data : list (dict str);
  confidence : Q;
  source_url : str;
  metadata_headers : list str;
  metadata_row_count : nat
}.

(** The [value] of a [Statistic] is the percentage text or a float. *)
Inductive stat_value :=
| VText (s : str)
| VFloat (x : pyfloat).

Module Statistic.
Record t := make {
  name : str;
  value : stat_value;
  unit : str;
  period : str;
  source : str;
  confidence : Q
}.
End Statistic.

(** The dictionaries [extract_key_metrics] returns, with the keys
    [metric], [value], [position] and [confidence]. *)
Module KeyMetric.
Record t := make {
  metric : str;
  value : option str;
  position : nat;
  confidence : Q
}.
End KeyMetric.

(** The dictionaries [extract_timeline] returns. *)
Module Event.
Record t := make {
  date : str;
  description : str;
  position : nat
}.
End Event.

(** The extractor object: its accumulator list. *)
Record DataExtractor := mkDataExtractor {
  extracted_data : list ExtractedData
}.

(* ================================================================= *)
(** ** Class constants *)

Definition compiled (pattern : str) : regex :=
  match re_compile pattern with
  | Ok r => r
  | _ => REps
  end.

Definition NUMBER_PATTERN_source : str :=
  py "([-+]?\d{1,3}(?:,\d{3})*(?:\.\d+)?%?\s*)".

Definition NUMBER_PATTERN : regex :=
  Eval vm_compute in compiled NUMBER_PATTERN_source.

Definition PERCENTAGE_PATTERN_source : str :=
  py "(\d+(?:\.\d+)?%)\s*(?:，|,|\.|的|是|为|达到|增长|下降)?".

Definition PERCENTAGE_PATTERN : regex :=
  Eval vm_compute in compiled PERCENTAGE_PATTERN_source.

(* ================================================================= *)
(** ** extract_tables *)

Definition nonempty (s : str) : bool := negb (Nat.eqb (List.length s) 0).

Definition nonempty_list {A} (l : list A) : bool :=
  match l with [] => false | _ :: _ => true end.

(** [[c.strip() for c in line.split('|') if c.strip()]] *)
Definition cells_of (line : str) : list str :=
  map strip (filter (fun c => nonempty (strip c)) (split (ch "|") line)).

(** [for i, header in enumerate(headers): if i < len(cells): ...] *)
Fixpoint fill_row (headers : list str) (i : nat) (cells : list str)
    (row_data : dict str) : dict str :=
  match headers with
  | [] => row_data
  | header :: rest =>
    fill_row rest (S i) cells
      (match nth_error cells i with
       | Some c => dict_set header c row_data
       | None => row_data
       end)
  end.

Definition parse_row (headers : list str) (rows : list (dict str))
    (line : str) : list (dict str) :=
  let cells := cells_of line in
  if nonempty_list cells && (List.length headers <=? List.length cells)
  then rows ++ [fill_row headers 0 cells []]
  else rows.

Definition _parse_table (table_lines : list str) (source_url : str)
  : option ExtractedData :=
  if List.length table_lines <? 2 then None
  else
    let headers := cells_of (hd [] table_lines) in
    let rows := fold_left (parse_row headers) (tl table_lines) [] in
    match rows with
    | [] => None
    | _ :: _ =>
      Some (mkExtractedData
              (py "table")
              (join [10%N] table_lines)
              rows
              (if 1 <? List.length rows then 9 # 10 else 7 # 10)%Q
              source_url
              headers
              (List.length rows))
    end.

(** The body of the loop over the lines: the state is the list of
    tables found and the block being collected. *)
Definition tables_step (source_url : str)
    (st : list ExtractedData * list str) (line : str)
  : list ExtractedData * list str :=
  let (tables, current_table) := st in
  if has_char (ch "|") line then (tables, current_table ++ [line])
  else
    match current_table with
    | [] => (tables, current_table)
    | _ :: _ =>
      match _parse_table current_table source_url with
      | Some table_data => (tables ++ [table_data], [])
      | None => (tables, [])
      end
    end.

Definition extract_tables (self : DataExtractor) (content : str)
    (source_url : str) : list ExtractedData * DataExtractor :=
  let lines := split 10%N content in
  let (tables, current_table) :=
    fold_left (tables_step source_url) lines ([], []) in
  let tables :=
    match current_table with
    | [] => tables
    | _ :: _ =>
      match _parse_table current_table source_url with
      | Some table_data => tables ++ [table_data]
      | None => tables
      end
    end in
  (tables, mkDataExtractor (extracted_data self ++ tables)).

(* ================================================================= *)
(** ** extract_statistics *)

Fixpoint literal (s : str) : regex :=
  match s with
  | [] => REps
  | c :: t => RSeq (RLit c) (literal t)
  end.

(** The pattern of the name search, as the source assembles it around
    the escaped anchor text. *)
Definition name_pattern_source (anchor : str) : str :=
  py "([^\s\d，,。]{2,10})(?:的|是|为|达到|" ++ re_escape anchor ++ py ")".

(** What that source compiles to ([name_pattern_compiles] below). *)
Definition name_pattern (anchor : str) : regex :=
  RSeq
    (RGroup 1
       (RSeq
          (RRep 2 (Some 10) true
             (RSet true [SCat Space; SCat Digit; SChar (ch "，");
                         SChar (ch ","); SChar (ch "。")]))
          REps))
    (RSeq
       (RAlt (literal (py "的"))
          (RAlt (literal (py "是"))
             (RAlt (literal (py "为"))
                (RAlt (literal (py "达到")) (literal anchor)))))
       REps).

Section Extractor.

Variable decimal : char -> option N.

(** [m.group(1)] where group 1 always takes part in the match *)
Definition group1 (s : str) (m : Match) : str :=
  match group s m 1 with
  | Some g => g
  | None => []
  end.

(** [content[max(0, m.start() - 50) : min(len(content), m.end() + 50)]] *)
Definition context_of (content : str) (m : Match) : str :=
  slice content (m_start m - 50) (Nat.min (List.length content) (m_end m + 50)).

(** The name search in a context: the stripped group 1 of the first
    match, if there is one. *)
Definition infer_name (anchor context : str) : option str :=
  match re_search decimal (name_pattern anchor) context with
  | Some name_match => Some (strip (group1 context name_match))
  | None => None
  end.

(** One iteration of the percentage loop. *)
Definition percentage_step (content : str) (statistics : list Statistic.t)
    (m : Match) : list Statistic.t :=
  let percentage := group1 content m in
  let context := context_of content m in
  let stat := Statistic.make [] (VText percentage) [] [] [] (8 # 10)%Q in
  let stat :=
    match infer_name percentage context with
    | Some n => Statistic.make n (Statistic.value stat) (Statistic.unit stat)
                  (Statistic.period stat) (Statistic.source stat)
                  (Statistic.confidence stat)
    | None => stat
    end in
  statistics ++ [stat].

(** The unit chosen from the ten characters after the match. *)
Definition unit_of (window : str) : str :=
  if has_char (ch "亿") window then py "亿元"
  else if has_char (ch "万") window then py "万元"
  else if contains (py "百万") window then py "百万"
  else if contains (py "千万") window then py "千万"
  else [].

(** One iteration of the large-number loop. *)
Definition number_step (content : str) (statistics : list Statistic.t)
    (m : Match) : list Statistic.t :=
  let num_str := strip (group1 content m) in
  if has_char (ch "%") num_str then statistics
  else
    match py_float decimal (remove_char (ch ",") num_str) with
    | None => statistics
    | Some num_value =>
      if float_geb num_value 10000 then
        let context := context_of content m in
        let unit := unit_of (slice context (m_end m) (m_end m + 10)) in
        match infer_name (slice num_str 0 10) context with
        | Some n =>
          statistics ++
            [Statistic.make n (VFloat num_value) unit [] [] (75 # 100)%Q]
        | None => statistics
        end
      else statistics
    end.

Definition percentage_pass (content : str) : list Statistic.t :=
  fold_left (percentage_step content)
    (finditer decimal PERCENTAGE_PATTERN content) [].

(** The records the second loop adds, match by match. *)
Definition large_number_pass (content : str) : list Statistic.t :=
  flat_map (number_step content [])
    (finditer decimal NUMBER_PATTERN content).

Definition extract_statistics (content : str) (source_url : str)
  : list Statistic.t :=
  fold_left (number_step content)
    (finditer decimal NUMBER_PATTERN content) (percentage_pass content).

(* ================================================================= *)
(** ** extract_key_metrics *)

Definition forward_pattern (metric : str) : str :=
  metric ++ py "[^\n。]{0,50}?(\d+(?:\.\d+)?%?)".

Definition reverse_pattern (metric : str) : str :=
  py "(\d+(?:\.\d+)?%?)[^\n。]{0,30}?" ++ metric.

(** The body of the loop over the metric names. *)
Definition metric_step (content : str) (results : list KeyMetric.t)
    (metric : str) : result (list KeyMetric.t) :=
  do pattern <- re_compile (forward_pattern metric);
  let results :=
    match re_search decimal pattern content with
    | Some m =>
      results ++ [KeyMetric.make metric (group content m 1) (m_start m)
                    (85 # 100)%Q]
    | None => results
    end in
  do pattern <- re_compile (reverse_pattern metric);
  match re_search decimal pattern content with
  | Some m =>
    Ok (results ++ [KeyMetric.make metric (group content m 1) (m_start m)
                      (8 # 10)%Q])
  | None => Ok results
  end.

Fixpoint for_each {A B} (f : B -> A -> result B) (l : list A) (acc : B)
  : result B :=
  match l with
  | [] => Ok acc
  | x :: t => do acc' <- f acc x; for_each f t acc'
  end.

Definition extract_key_metrics (content : str) (metric_names : list str)
    (source_url : str) : result (list KeyMetric.t) :=
  for_each (metric_step content) metric_names [].

(* ================================================================= *)
(** ** extract_timeline *)

Definition time_patterns : list regex :=
  Eval vm_compute in
    map (fun s => compiled (py s))
      ["(\d{4}年\d{1,2}月)"; "(\d{4}年)"; "(\d{4}[-/]\d{1,2}[-/]\d{1,2})";
       "(Q[1-4]\s*\d{4})"]%string.

Definition description_pattern (date : str) : str :=
  py "[" ++ date ++ py "][^\n。]{0,60}".

(** One match of one time pattern. *)
Definition timeline_step (content : str) (events : list Event.t) (m : Match)
  : result (list Event.t) :=
  let context :=
    slice content (m_start m - 30)
      (Nat.min (List.length content) (m_end m + 70)) in
  do pattern <- re_compile (description_pattern (group1 content m));
  match re_search decimal pattern context with
  | Some event_match =>
    Ok (events ++ [Event.make (group1 content m)
                     (strip (group0 context event_match)) (m_start m)])
  | None => Ok events
  end.

(** [events.sort(key=lambda x: x["position"])]: a stable sort. *)
Fixpoint insert_event (e : Event.t) (l : list Event.t) : list Event.t :=
  match l with
  | [] => [e]
  | x :: t =>
    if Event.position e <=? Event.position x then e :: l
    else x :: insert_event e t
  end.

Definition sort_events (l : list Event.t) : list Event.t :=
  fold_right insert_event [] l.

(** The loop that keeps the first event of every date; [seen] is the
    set of dates met so far. *)
Fixpoint unique_from (seen : list str) (events : list Event.t)
  : list Event.t :=
  match events with
  | [] => []
  | event :: rest =>
    if existsb (str_eqb (Event.date event)) seen then unique_from seen rest
    else event :: unique_from (Event.date event :: seen) rest
  end.

Definition collect_events (content : str) : result (list Event.t) :=
  for_each
    (fun events pattern =>
       for_each (timeline_step content) (finditer decimal pattern content)
         events)
    time_patterns [].

Definition extract_timeline (content : str) (source_url : str)
  : result (list Event.t) :=
  do events <- collect_events content;
  Ok (unique_from [] (sort_events events)).

End Extractor.

(* ================================================================= *)
(** ** generate_data_table *)

Section Rendering.

(** The values of the dictionaries are arbitrary objects; [to_str] is
    Python's [str] on them. *)
Variable V : Type.
Variable to_str : V -> str.

(** [str(item.get(col, ""))] *)
Definition cell (item : dict V) (col : str) : str :=
  match dict_get col item with
  | Some v => to_str v
  | None => []
  end.

Definition render_row (columns : list str) (item : dict V) : str :=
  py "| " ++ join (py " | ") (map (cell item) columns) ++ py " |".

Definition generate_data_table (data_list : list (dict V))
    (columns : option (list str)) : str :=
  match data_list with
  | [] => []
  | first :: _ =>
    let columns :=
      match columns with
      | None => keys first
      | Some cols => cols
      end in
    let header := py "| " ++ join (py " | ") columns ++ py " |" ++ [10%N] in
    let separator :=
      py "| "
      ++ join (py " | ") (repeat (py "---") (List.length columns))
      ++ py " |" ++ [10%N] in
    let rows := fold_left (fun rows item => rows ++ [render_row columns item])
                  data_list [] in
    header ++ separator ++ join [10%N] rows
  end.

End Rendering.

(* ================================================================= *)
(** ** Vocabulary of the properties *)

(** The records of a call that returned; none when it raised. *)
Definition records {A} (r : result (list A)) : list A :=
  match r with
  | Ok l => l
  | _ => []
  end.

Definition in_unit_interval (q : Q) : Prop := (0 <= q)%Q /\ (q <= 1)%Q.

(** A float value of at least 10,000; a percentage text is not a number. *)
Definition at_least_10000 (v : stat_value) : Prop :=
  match v with
  | VFloat x => float_geb x 10000 = true
  | VText _ => True
  end.

(** The rows of a rendered table: the header, the separator with one
    group of dashes per column, and the row of one record. *)
Definition header_line (columns : list str) : str :=
  py "| " ++ join (py " | ") columns ++ py " |".

Definition separator_line (columns : list str) : str :=
  py "| " ++ join (py " | ") (map (fun _ => py "---") columns) ++ py " |".

Definition no_newline (s : str) : Prop := has_char 10%N s = false.

(** Events in ascending order of their character offset. *)
Definition by_position (a b : Event.t) : Prop :=
  Event.position a <= Event.position b.

(* ----------------------------------------------------------------- *)
(** *** What a match is

    The declarative reading of a pattern, without priorities: [den r a b]
    says that [r] can take the matcher from state [a] (remaining text,
    offset, groups) to state [b].  The matcher is sound for it
    ([rmatch_sound] below). *)

Definition mstate := (str * nat * caps)%type.

Definition step_char (ok : char -> bool) (a b : mstate) : Prop :=
  match a, b with
  | (s, i, cs), (s', i', cs') =>
    exists c, s = c :: s' /\ ok c = true /\ i' = S i /\ cs' = cs
  end.

Fixpoint iter (R : mstate -> mstate -> Prop) (n : nat) (a b : mstate) : Prop :=
  match n with
  | O => a = b
  | S m => exists c, R a c /\ iter R m c b
  end.

Definition within (hi : option nat) (n : nat) : Prop :=
  match hi with
  | Some h => n <= h
  | None => True
  end.

Section Denotation.

Variable decimal : char -> option N.

Fixpoint den (r : regex) (a b : mstate) : Prop :=
  match r with
  | REps => a = b
  | RLit c => step_char (N.eqb c) a b
  | RAny => step_char (fun x => negb (x =? 10)%N) a b
  | RSet negate items => step_char (in_set decimal negate items) a b
  | RSeq r1 r2 => exists c, den r1 a c /\ den r2 c b
  | RAlt r1 r2 => den r1 a b \/ den r2 a b
  | RRep lo hi _ r1 =>
    exists n, lo <= n /\ within hi n /\ iter (den r1) n a b
  | RGroup n r1 =>
    exists s' i' cs',
      den r1 a (s', i', cs')
      /\ b = (s', i', (n, (snd (fst a), i')) :: cs')
  end.

(** The text of a numeric token of the key-metric patterns,
    [\d+(?:\.\d+)?%?]. *)
Definition numeric_token (v : str) : Prop :=
  exists ds fs pct,
    v = ds ++ fs ++ pct
    /\ ds <> [] /\ Forall (fun c => is_digit decimal c = true) ds
    /\ (fs = [] \/ exists fd, fs = ch "." :: fd /\ fd <> []
                              /\ Forall (fun c => is_digit decimal c = true) fd)
    /\ (pct = [] \/ pct = [ch "%"]).

(** What every version of the Unicode database says about the
    characters of the sample sentences: the ASCII digits are decimal
    digits with their values, and the CJK unified ideographs
    (U+4E00 to U+9FFF) are letters. *)
Definition unicode_digits : Prop :=
  (forall c, is_ascii_digit c = true -> decimal c = Some (c - 48)%N)
  /\ (forall c, (19968 <=? c)%N && (c <=? 40959)%N = true -> decimal c = None).

End Denotation.

(** The parts the key-metric patterns are made of: the numeric token
    in group [n], and the lazy gap of at most [n] characters other than
    a line break and the full stop "。". *)
Definition digit_set : regex := RSet false [SCat Digit].

Definition value_group (n : nat) : regex :=
  RGroup n
    (RSeq (RRep 1 None true digit_set)
       (RSeq
          (RRep 0 (Some 1) true
             (RSeq (RLit (ch ".")) (RSeq (RRep 1 None true digit_set) REps)))
          (RSeq (RRep 0 (Some 1) true (RLit (ch "%"))) REps))).

Definition gap_chars : regex := RSet true [SChar 10%N; SChar (ch "。")].

Definition lazy_gap (n : nat) : regex := RRep 0 (Some n) false gap_chars.

(** The forward pattern of the metric "销量". *)
Definition sales_forward : regex :=
  RSeq (RLit (ch "销"))
    (RSeq (RLit (ch "量"))
       (RSeq (lazy_gap 50) (RSeq (value_group 1) REps))).

(** The continuation that ends a match. *)
Definition accept : cont := fun _ e cs => Some (e, cs).

(** A character that stands for itself in a pattern: none of the
    characters the pattern syntax gives a meaning to. *)
Definition pattern_specials : str :=
  [ch "|"; ch ")"; ch "("; ch "["; ch "\"; ch "."; ch "^"; ch "$";
   ch "*"; ch "+"; ch "?"; ch "{"].

Definition plain (c : char) : bool := negb (has_char c pattern_specials).

(** The pattern of a literal text followed by [r]. *)
Fixpoint literal_then (s : str) (r : regex) : regex :=
  match s with
  | [] => r
  | c :: t => RSeq (RLit c) (literal_then t r)
  end.

(** What the two patterns of a metric name made of plain characters
    compile to ([forward_pattern_compiles], [reverse_pattern_compiles]). *)
Definition metric_forward (metric : str) : regex :=
  literal_then metric (RSeq (lazy_gap 50) (RSeq (value_group 1) REps)).

Definition metric_reverse (metric : str) : regex :=
  RSeq (value_group 1) (RSeq (lazy_gap 30) (literal_then metric REps)).

(** The parser's result for an item followed by the rest of a sequence. *)
Definition then_rest (build : regex -> regex) (x : regex * str * nat)
  : result (regex * str * nat) :=
  let '(rest, p, g) := x in Ok (build rest, p, g).

(** What a record of [extract_key_metrics] says about the text:
    a forward record lies at a place where the metric name is followed,
    after at most 50 characters other than a line break and "。", by its
    value; a backward record at a place where its value is followed,
    after at most 30 such characters, by the metric name. *)
Definition no_break (gap : str) : Prop :=
  Forall (fun c => c <> 10%N /\ c <> ch "。") gap.

Definition forward_record (content : str) (k : KeyMetric.t) (v : str) : Prop :=
  KeyMetric.confidence k = (85 # 100)%Q
  /\ exists before gap after,
       content = before ++ KeyMetric.metric k ++ gap ++ v ++ after
       /\ KeyMetric.position k = List.length before
       /\ List.length gap <= 50 /\ no_break gap.

Definition backward_record (content : str) (k : KeyMetric.t) (v : str) : Prop :=
  KeyMetric.confidence k = (8 # 10)%Q
  /\ exists before gap after,
       content = before ++ v ++ gap ++ KeyMetric.metric k ++ after
       /\ KeyMetric.position k = List.length before
       /\ List.length gap <= 30 /\ no_break gap.

(** A pattern without capturing groups. *)
Fixpoint group_free (r : regex) : bool :=
  match r with
  | REps | RLit _ | RAny | RSet _ _ => true
  | RSeq r1 r2 | RAlt r1 r2 => group_free r1 && group_free r2
  | RRep _ _ _ r1 => group_free r1
  | RGroup _ _ => false
  end.

(** The text of a percentage, [\d+(?:\.\d+)?%]. *)
Definition percent_token (decimal : char -> option N) (v : str) : Prop :=
  exists ds fs,
    v = ds ++ fs ++ [ch "%"]
    /\ ds <> [] /\ Forall (fun c => is_digit decimal c = true) ds
    /\ (fs = [] \/ exists fd, fs = ch "." :: fd /\ fd <> []
                              /\ Forall (fun c => is_digit decimal c = true) fd).

(** A character of an inferred name: no white space, no digit, none of
    "，", "," and "。". *)
Definition name_char (decimal : char -> option N) (c : char) : bool :=
  negb (is_space c) && negb (is_digit decimal c)
  && negb (c =? ch "，")%N && negb (c =? ch ",")%N && negb (c =? ch "。")%N.

Definition well_formed_name (decimal : char -> option N) (n : str) : Prop :=
  2 <= List.length n <= 10 /\ Forall (fun c => name_char decimal c = true) n.

(** A data line is kept by [_parse_table] when it has a cell and at
    least as many cells as there are headers. *)
Definition row_accepted (headers : list str) (line : str) : bool :=
  nonempty_list (cells_of line)
  && (List.length headers <=? List.length (cells_of line)).

Definition row_of (headers : list str) (line : str) : dict str :=
  fill_row headers 0 (cells_of line) [].

(** A table that was read from a block of consecutive lines of the
    text, all of which hold a [|]. *)
Definition table_of_block (lines : list str) (url : str) (t : ExtractedData)
  : Prop :=
  exists before block after,
    lines = before ++ block ++ after
    /\ Forall (fun l => has_char (ch "|") l = true) block
    /\ _parse_table block url = Some t.

(** A pattern every match of which takes in a decimal digit. *)
Fixpoint needs_digit (r : regex) : bool :=
  match r with
  | RSet false [SCat Digit] => true
  | RSeq r1 r2 => needs_digit r1 || needs_digit r2
  | RAlt r1 r2 => needs_digit r1 && needs_digit r2
  | RRep lo _ _ r1 => (0 <? lo) && needs_digit r1
  | RGroup _ r1 => needs_digit r1
  | _ => false
  end.

(** The characters a pattern can take in. *)
Fixpoint leaf_accepts (decimal : char -> option N) (r : regex) (c : char)
  : bool :=
  match r with
  | REps => false
  | RLit x => (x =? c)%N
  | RAny => negb (c =? 10)%N
  | RSet negate items => in_set decimal negate items c
  | RSeq r1 r2 | RAlt r1 r2 =>
    leaf_accepts decimal r1 c || leaf_accepts decimal r2 c
  | RRep _ _ _ r1 => leaf_accepts decimal r1 c
  | RGroup _ r1 => leaf_accepts decimal r1 c
  end.

(** In every version of the Unicode database the only decimal digits
    below U+0080 are the ASCII digits. *)
Definition ascii_digits_only (decimal : char -> option N) : Prop :=
  forall c, (c <? 128)%N = true -> is_ascii_digit c = false ->
            decimal c = None.

(** What the pattern of an event description compiles to
    ([description_pattern_compiles]): one character of the date token,
    then up to 60 characters other than a line break and "。". *)
Definition description_regex (date : str) : regex :=
  RSeq (RSet false (map SChar date))
    (RSeq (RRep 0 (Some 60) true gap_chars) REps).

(** A character that stands for itself inside a character set. *)
Definition set_safe (c : char) : bool :=
  negb (c =? ch "]")%N && negb (c =? ch "\")%N && negb (c =? ch "-")%N.

(** An event that reports a date token found in the text at the
    event's offset. *)
Definition located (decimal : char -> option N) (content : str) (e : Event.t)
  : Prop :=
  exists before after,
    content = before ++ Event.date e ++ after
    /\ Event.position e = List.length before
    /\ Exists (fun c => is_digit decimal c = true) (Event.date e).


(** What every version of the Unicode database says about a decimal
    digit: its value is below ten, and it is no white space. *)
Definition digit_values (decimal : char -> option N) : Prop :=
  forall c d, decimal c = Some d -> (d < 10)%N /\ is_space c = false.

(** The text of a token of [NUMBER_PATTERN]: an optional sign, one to
    three digits, groups of "," and digits, an optional fraction, an
    optional [%] and white space. *)
Definition number_token (decimal : char -> option N) (v : str) : Prop :=
  exists sg ds cm fs pct ws,
    v = sg ++ ds ++ cm ++ fs ++ pct ++ ws
    /\ (sg = [] \/ sg = [ch "-"] \/ sg = [ch "+"])
    /\ 1 <= List.length ds <= 3
    /\ Forall (fun c => is_digit decimal c = true) ds
    /\ (cm = [] \/ exists t, cm = ch "," :: t)
    /\ (fs = [] \/ exists fd, fs = ch "." :: fd /\ fd <> []
                              /\ Forall (fun c => is_digit decimal c = true) fd)
    /\ (pct = [] \/ pct = [ch "%"])
    /\ Forall (fun c => is_space c = true) ws.


(** The description of an event, read off the text.  The window of the
    description search runs from 30 characters before the date token
    to 70 characters after it; the description starts at the first
    character of the window that occurs in the date token and goes on
    for up to 60 characters, stopping before a line break or "。". *)
Fixpoint take_while (ok : char -> bool) (s : str) : str :=
  match s with
  | c :: t => if ok c then c :: take_while ok t else []
  | [] => []
  end.

Definition gap_char (c : char) : bool :=
  negb (c =? 10)%N && negb (c =? ch "。")%N.

Fixpoint description_from (date s : str) : option str :=
  match s with
  | [] => None
  | c :: t =>
    if has_char c date then Some (c :: firstn 60 (take_while gap_char t))
    else description_from date t
  end.

Definition event_window (content : str) (e : Event.t) : str :=
  slice content (Event.position e - 30)
    (Nat.min (List.length content)
       (Event.position e + List.length (Event.date e) + 70)).

Definition described (content : str) (e : Event.t) : Prop :=
  exists d,
    description_from (Event.date e) (event_window content e) = Some d
    /\ Event.description e = strip d.


(* ================================================================= *)
(** ** extract_metrics_for_table *)

(** The objects a key-metric dictionary holds. *)
Inductive pyobj :=
| PStr (s : str)
| PNone
| PInt (n : nat)
| PFloat (q : Q).

(** The dictionary [extract_key_metrics] appends for a record. *)
Definition metric_dict (k : KeyMetric.t) : dict pyobj :=
  [(py "metric", PStr (KeyMetric.metric k));
   (py "value",
    match KeyMetric.value k with Some v => PStr v | None => PNone end);
   (py "position", PInt (KeyMetric.position k));
   (py "confidence", PFloat (KeyMetric.confidence k))].

Section Convenience.

Variable decimal : char -> option N.

(** Python's [str] on the values of the dictionaries. *)
Variable to_str : pyobj -> str.

Definition extract_metrics_for_table (content : str) (metrics : list str)
    (source_url : str) : result str :=
  do results <- extract_key_metrics decimal content metrics source_url;
  match results with
  | [] => Ok (py "未找到相关指标")
  | _ =>
    Ok (generate_data_table to_str (map metric_dict results)
          (Some [py "metric"; py "value"; py "confidence"]))
  end.

(** The row of a record in the table of [extract_metrics_for_table]. *)
Definition metric_row (k : KeyMetric.t) : str :=
  py "| " ++ KeyMetric.metric k ++ py " | "
  ++ match KeyMetric.value k with Some v => v | None => to_str PNone end
  ++ py " | " ++ to_str (PFloat (KeyMetric.confidence k)) ++ py " |".

End Convenience.

(* ================================================================= *)
(** * Properties *)

Unset Implicit Arguments.

(** The class constants are the compiled forms of the source's pattern
    strings. *)
Lemma NUMBER_PATTERN_compiles :
  re_compile NUMBER_PATTERN_source = Ok NUMBER_PATTERN.
Proof. vm_compute. reflexivity. Qed.

Lemma PERCENTAGE_PATTERN_compiles :
  re_compile PERCENTAGE_PATTERN_source = Ok PERCENTAGE_PATTERN.
Proof. vm_compute. reflexivity. Qed.

Lemma time_patterns_compile :
  map (fun s => re_compile (py s))
    ["(\d{4}年\d{1,2}月)"; "(\d{4}年)"; "(\d{4}[-/]\d{1,2}[-/]\d{1,2})";
     "(Q[1-4]\s*\d{4})"]%string
  = map (@Ok regex) time_patterns.
Proof. vm_compute. reflexivity. Qed.

(* ----------------------------------------------------------------- *)
(** ** Loops that only append *)

Lemma fold_left_appending {A B} (f : list B -> A -> list B) :
  (forall acc x, f acc x = acc ++ f [] x) ->
  forall l acc, fold_left f l acc = acc ++ flat_map (f []) l.
Proof.
  intros Hf l; induction l as [|x l IH]; intros acc; simpl.
  - now rewrite app_nil_r.
  - rewrite IH, (Hf acc x), <- app_assoc. reflexivity.
Qed.

Section StatisticsFacts.

Variable decimal : char -> option N.

Lemma percentage_step_appends content acc m :
  percentage_step decimal content acc m
  = acc ++ percentage_step decimal content [] m.
Proof. reflexivity. Qed.

Lemma number_step_appends content acc m :
  number_step decimal content acc m
  = acc ++ number_step decimal content [] m.
Proof.
  unfold number_step.
  destruct (has_char _ _); [now rewrite app_nil_r|].
  destruct (py_float _ _) as [x|]; [|now rewrite app_nil_r].
  destruct (float_geb _ _); [|now rewrite app_nil_r].
  destruct (infer_name _ _ _); [reflexivity|now rewrite app_nil_r].
Qed.

Lemma percentage_pass_map content :
  percentage_pass decimal content
  = flat_map (percentage_step decimal content [])
      (finditer decimal PERCENTAGE_PATTERN content).
Proof.
  unfold percentage_pass.
  now rewrite (fold_left_appending _ (percentage_step_appends content)).
Qed.

Lemma extract_statistics_passes content source_url :
  extract_statistics decimal content source_url
  = percentage_pass decimal content ++ large_number_pass decimal content.
Proof.
  unfold extract_statistics.
  now rewrite (fold_left_appending _ (number_step_appends content)).
Qed.

(** What one match of the number pattern can add. *)
Lemma number_step_cases content m :
  number_step decimal content [] m = []
  \/ exists n x,
       infer_name decimal (slice (strip (group1 content m)) 0 10)
         (context_of content m) = Some n
       /\ py_float decimal (remove_char (ch ",") (strip (group1 content m)))
          = Some x
       /\ float_geb x 10000 = true
       /\ number_step decimal content [] m
          = [Statistic.make n (VFloat x)
               (unit_of (slice (context_of content m) (m_end m) (m_end m + 10)))
               [] [] (75 # 100)%Q].
Proof.
  unfold number_step.
  destruct (has_char _ _); [now left|].
  destruct (py_float _ _) as [x|]; [|now left].
  destruct (float_geb x 10000) eqn:Hge; [|now left].
  destruct (infer_name _ _ _) as [n|] eqn:Hn; [|now left].
  right. exists n, x. repeat split; assumption.
Qed.

End StatisticsFacts.

(* ----------------------------------------------------------------- *)
(** ** Statistics: threshold, emission rule, units *)

Lemma Forall_flat_map_each {A B} (P : B -> Prop) (f : A -> list B) l :
  (forall x, Forall P (f x)) -> Forall P (flat_map f l).
Proof.
  intros H; induction l as [|x l IH]; simpl; [constructor|].
  apply Forall_app; split; [apply H|apply IH].
Qed.

Lemma starts_with_has_char sub s c :
  starts_with sub s = true -> In c sub -> has_char c s = true.
Proof.
  revert s; induction sub as [|a sub IH]; intros s Hs Hin; [destruct Hin|].
  destruct s as [|b s]; simpl in Hs; [discriminate|].
  apply andb_true_iff in Hs as [Hab Hrest].
  apply N.eqb_eq in Hab; subst b.
  simpl. destruct Hin as [->|Hin].
  - now rewrite N.eqb_refl.
  - rewrite (IH _ Hrest Hin). apply orb_true_r.
Qed.

Lemma contains_has_char sub s c :
  contains sub s = true -> In c sub -> has_char c s = true.
Proof.
  intros Hc Hin; induction s as [|b s IH].
  - simpl in Hc. rewrite orb_false_r in Hc.
    destruct sub; [destruct Hin|discriminate].
  - simpl in Hc. apply orb_true_iff in Hc as [Hc|Hc].
    + eapply starts_with_has_char; eassumption.
    + simpl. rewrite (IH Hc). apply orb_true_r.
Qed.

Lemma unit_of_cases window :
  unit_of window = [] \/ unit_of window = py "亿元"
  \/ unit_of window = py "万元".
Proof.
  unfold unit_of.
  destruct (has_char (ch "亿") window); [now right; left|].
  destruct (has_char (ch "万") window) eqn:Hwan; [now right; right|].
  destruct (contains (py "百万") window) eqn:Hb.
  - apply contains_has_char with (c := ch "万") in Hb;
      [congruence|right; left; reflexivity].
  - destruct (contains (py "千万") window) eqn:Hq; [|now left].
    apply contains_has_char with (c := ch "万") in Hq;
      [congruence|right; left; reflexivity].
Qed.

(** C3. Every float value in the output of [extract_statistics] is at
    least 10,000: a numeric token that parses below 10,000 never
    appears, neither in the large-number records nor anywhere else in
    the output (the percentage records carry text values). *)
Theorem large_numbers_at_least_10000 :
  forall (decimal : char -> option N) (content source_url : str),
    Forall (fun st => exists x, Statistic.value st = VFloat x
                                /\ float_geb x 10000 = true)
      (large_number_pass decimal content)
    /\ Forall (fun st => at_least_10000 (Statistic.value st))
         (extract_statistics decimal content source_url).
Proof.
  intros decimal content source_url.
  assert (Hbig : Forall (fun st => exists x, Statistic.value st = VFloat x
                                   /\ float_geb x 10000 = true)
                   (large_number_pass decimal content)).
  { apply Forall_flat_map_each; intros m.
    destruct (number_step_cases decimal content m)
      as [->|(n & x & _ & _ & Hge & ->)]; constructor; [|constructor].
    exists x; split; [reflexivity|exact Hge]. }
  split; [exact Hbig|].
  rewrite extract_statistics_passes. apply Forall_app; split.
  - rewrite percentage_pass_map. apply Forall_flat_map_each; intros m.
    unfold percentage_step. destruct (infer_name _ _ _); repeat constructor.
  - eapply Forall_impl; [|exact Hbig].
    intros st (x & -> & Hx). exact Hx.
Qed.

(** C10. The unit of every large-number record is empty, "亿元" or
    "万元"; the branches for "百万" and "千万" cannot be taken, because a
    window that contains one of them contains "万", which is tested
    before them. *)
Theorem large_number_units :
  forall (decimal : char -> option N) (content : str),
    Forall (fun st => Statistic.unit st = [] \/ Statistic.unit st = py "亿元"
                      \/ Statistic.unit st = py "万元")
      (large_number_pass decimal content)
    /\ forall window,
         (contains (py "百万") window || contains (py "千万") window)
           && negb (has_char (ch "万") window) = false
         /\ unit_of window <> py "百万" /\ unit_of window <> py "千万".
Proof.
  intros decimal content; split.
  - apply Forall_flat_map_each; intros m.
    destruct (number_step_cases decimal content m)
      as [->|(n & x & _ & _ & _ & ->)]; constructor; [|constructor].
    apply unit_of_cases.
  - intros window; split.
    + destruct (contains (py "百万") window) eqn:Hb.
      * apply contains_has_char with (c := ch "万") in Hb;
          [now rewrite Hb|right; left; reflexivity].
      * destruct (contains (py "千万") window) eqn:Hq; [|reflexivity].
        apply contains_has_char with (c := ch "万") in Hq;
          [now rewrite Hq|right; left; reflexivity].
    + destruct (unit_of_cases window) as [H|[H|H]]; rewrite H;
        split; intros E; vm_compute in E; discriminate.
Qed.

Lemma Forall2_flat_map_single {A B} (R : A -> B -> Prop) (f : A -> list B) l :
  (forall x, exists y, f x = [y] /\ R x y) -> Forall2 R l (flat_map f l).
Proof.
  intros H; induction l as [|x l IH]; simpl; [constructor|].
  destruct (H x) as (y & -> & Hy). simpl. constructor; assumption.
Qed.

Lemma Forall2_map_right {A B} (R : A -> B -> Prop) (f : A -> B) l :
  (forall x, R x (f x)) -> Forall2 R l (map f l).
Proof.
  intros H; induction l; simpl; constructor; auto.
Qed.

(** C6. Every match of the percentage pattern adds exactly one record
    with confidence 0.8, whose name is the inferred name or stays empty
    when none is inferred; a match of the number pattern adds a record
    (confidence 0.75, named by the inference) only if the name inference
    succeeds, and adds nothing when it fails. *)
Theorem statistics_emission_rule :
  forall (decimal : char -> option N) (content source_url : str),
    extract_statistics decimal content source_url
    = percentage_pass decimal content ++ large_number_pass decimal content
    /\ Forall2
         (fun m st =>
            Statistic.confidence st = (8 # 10)%Q
            /\ Statistic.value st = VText (group1 content m)
            /\ Statistic.name st
               = match infer_name decimal (group1 content m)
                         (context_of content m) with
                 | Some n => n
                 | None => []
                 end)
         (finditer decimal PERCENTAGE_PATTERN content)
         (percentage_pass decimal content)
    /\ exists emitted : list (list Statistic.t),
         large_number_pass decimal content = List.concat emitted
         /\ Forall2
              (fun m recs =>
                 match infer_name decimal
                         (slice (strip (group1 content m)) 0 10)
                         (context_of content m) with
                 | None => recs = []
                 | Some n =>
                   recs = []
                   \/ exists x u,
                        recs = [Statistic.make n (VFloat x) u [] []
                                  (75 # 100)%Q]
                 end)
              (finditer decimal NUMBER_PATTERN content) emitted.
Proof.
  intros decimal content source_url.
  split; [apply extract_statistics_passes|]. split.
  - rewrite percentage_pass_map. apply Forall2_flat_map_single; intros m.
    unfold percentage_step.
    destruct (infer_name _ _ _) as [n|]; eexists; split;
      try reflexivity; simpl; auto.
  - exists (map (number_step decimal content [])
              (finditer decimal NUMBER_PATTERN content)).
    split; [unfold large_number_pass; apply flat_map_concat_map|].
    apply Forall2_map_right; intros m.
    destruct (number_step_cases decimal content m)
      as [->|(n & x & -> & _ & _ & ->)].
    + destruct (infer_name _ _ _); auto.
    + right. eauto.
Qed.

(* ----------------------------------------------------------------- *)
(** ** Confidence values *)

Lemma for_each_invariant {A B} (P : B -> Prop) (f : B -> A -> result B) :
  (forall acc x acc', P acc -> f acc x = Ok acc' -> P acc') ->
  forall l acc out, P acc -> for_each f l acc = Ok out -> P out.
Proof.
  intros Hf l; induction l as [|x l IH]; intros acc out Hacc Hrun; simpl in Hrun.
  - now inversion Hrun; subst.
  - destruct (f acc x) as [acc'| |] eqn:Hx; simpl in Hrun; try discriminate.
    eapply IH; [|exact Hrun]. eapply Hf; eassumption.
Qed.

Lemma parse_table_confidence table_lines source_url t :
  _parse_table table_lines source_url = Some t ->
  confidence t = (if 1 <? List.length (structured_data t)
                  then 9 # 10 else 7 # 10)%Q.
Proof.
  unfold _parse_table.
  destruct (List.length table_lines <? 2); [discriminate|].
  destruct (fold_left _ _ _) as [|r rows]; [discriminate|].
  intros H; inversion H; subst; reflexivity.
Qed.

Lemma tables_step_invariant (P : ExtractedData -> Prop) source_url :
  (forall ls t, _parse_table ls source_url = Some t -> P t) ->
  forall st line, Forall P (fst st) ->
    Forall P (fst (tables_step source_url st line)).
Proof.
  intros HP [tables current] line Hst; simpl in *.
  destruct (has_char _ line); [exact Hst|].
  destruct current as [|l0 current]; [exact Hst|].
  destruct (_parse_table _ _) as [t|] eqn:Ht; simpl; [|exact Hst].
  apply Forall_app; split; [exact Hst|].
  constructor; [eapply HP; exact Ht|constructor].
Qed.

Lemma extract_tables_invariant (P : ExtractedData -> Prop) self content url :
  (forall ls t, _parse_table ls url = Some t -> P t) ->
  Forall P (fst (extract_tables self content url)).
Proof.
  intros HP. unfold extract_tables.
  assert (Hfold : forall lines st, Forall P (fst st) ->
            Forall P (fst (fold_left (tables_step url) lines st))).
  { induction lines as [|l lines IH]; intros st Hst; simpl; [exact Hst|].
    apply IH. now apply tables_step_invariant. }
  specialize (Hfold (split 10%N content) ([], []) (Forall_nil P)).
  destruct (fold_left _ _ _) as [tables current]; simpl in *.
  destruct current as [|l0 current]; [exact Hfold|].
  destruct (_parse_table _ _) as [t|] eqn:Ht; simpl; [|exact Hfold].
  apply Forall_app; split; [exact Hfold|].
  constructor; [eapply HP; exact Ht|constructor].
Qed.

Lemma metric_step_invariant (P : KeyMetric.t -> Prop) decimal content :
  (forall k, KeyMetric.confidence k = (85 # 100)%Q
             \/ KeyMetric.confidence k = (8 # 10)%Q -> P k) ->
  forall acc metric acc',
    Forall P acc -> metric_step decimal content acc metric = Ok acc' ->
    Forall P acc'.
Proof.
  intros HP acc metric acc' Hacc. unfold metric_step.
  destruct (re_compile (forward_pattern metric)) as [fw| |]; simpl;
    try discriminate.
  destruct (re_compile (reverse_pattern metric)) as [bw| |]; simpl;
    try discriminate.
  assert (Hfw : Forall P
            match re_search decimal fw content with
            | Some m => acc ++ [KeyMetric.make metric (group content m 1)
                                  (m_start m) (85 # 100)%Q]
            | None => acc
            end).
  { destruct (re_search decimal fw content); [|exact Hacc].
    apply Forall_app; split; [exact Hacc|].
    constructor; [apply HP; now left|constructor]. }
  destruct (re_search decimal bw content); intros H; inversion H; subst;
    [|exact Hfw].
  apply Forall_app; split; [exact Hfw|].
  constructor; [apply HP; now right|constructor].
Qed.

(** C9. Every record of [extract_tables], [extract_statistics] and
    [extract_key_metrics] carries a confidence in the closed interval
    from 0 to 1. *)
Theorem confidence_in_unit_interval :
  forall (decimal : char -> option N) (self : DataExtractor)
         (content source_url : str) (metric_names : list str),
    Forall (fun t => in_unit_interval (confidence t))
      (fst (extract_tables self content source_url))
    /\ Forall (fun st => in_unit_interval (Statistic.confidence st))
         (extract_statistics decimal content source_url)
    /\ Forall (fun k => in_unit_interval (KeyMetric.confidence k))
         (records (extract_key_metrics decimal content metric_names
                     source_url)).
Proof.
  intros decimal self content source_url metric_names.
  assert (H09 : in_unit_interval (9 # 10)) by (split; discriminate).
  assert (H07 : in_unit_interval (7 # 10)) by (split; discriminate).
  assert (H08 : in_unit_interval (8 # 10)) by (split; discriminate).
  assert (H075 : in_unit_interval (75 # 100)) by (split; discriminate).
  assert (H085 : in_unit_interval (85 # 100)) by (split; discriminate).
  repeat split.
  - apply extract_tables_invariant. intros ls t Ht.
    rewrite (parse_table_confidence _ _ _ Ht).
    destruct (1 <? _); assumption.
  - rewrite extract_statistics_passes. apply Forall_app; split.
    + rewrite percentage_pass_map. apply Forall_flat_map_each; intros m.
      unfold percentage_step.
      destruct (infer_name _ _ _); repeat constructor; simpl; apply H08.
    + apply Forall_flat_map_each; intros m.
      destruct (number_step_cases decimal content m)
        as [->|(n & x & _ & _ & _ & ->)]; repeat constructor; apply H075.
  - unfold extract_key_metrics.
    destruct (for_each _ _ _) as [out| |] eqn:Hrun; simpl; try constructor.
    revert Hrun. apply for_each_invariant; [|constructor].
    apply metric_step_invariant. intros k [-> | ->]; assumption.
Qed.

(* ----------------------------------------------------------------- *)
(** ** Tables *)

Lemma split_no_sep sep l :
  has_char sep l = false -> split sep l = [l].
Proof.
  induction l as [|c l IH]; simpl; [reflexivity|].
  intros H. apply orb_false_iff in H as [Hc Hl].
  rewrite N.eqb_sym, Hc, (IH Hl). reflexivity.
Qed.

Lemma split_app_sep sep l rest :
  has_char sep l = false ->
  split sep (l ++ sep :: rest) = l :: split sep rest.
Proof.
  induction l as [|c l IH]; simpl.
  - now rewrite N.eqb_refl.
  - intros H. apply orb_false_iff in H as [Hc Hl].
    rewrite N.eqb_sym, Hc, (IH Hl). reflexivity.
Qed.

Lemma split_join sep ls :
  ls <> [] -> Forall (fun l => has_char sep l = false) ls ->
  split sep (join [sep] ls) = ls.
Proof.
  induction ls as [|l ls IH]; intros Hne Hall; [congruence|].
  inversion Hall as [|? ? Hl Hls]; subst.
  destruct ls as [|l' ls].
  - simpl. now apply split_no_sep.
  - change (join [sep] (l :: l' :: ls)) with (l ++ sep :: join [sep] (l' :: ls)).
    rewrite (split_app_sep _ _ _ Hl), IH; [reflexivity|discriminate|exact Hls].
Qed.

Lemma split_pieces_lack c sep s :
  has_char c s = false -> Forall (fun l => has_char c l = false) (split sep s).
Proof.
  induction s as [|x s IH]; simpl; intros H; [repeat constructor|].
  apply orb_false_iff in H as [Hx Hs]. specialize (IH Hs).
  destruct (x =? sep)%N; [constructor; [reflexivity|exact IH]|].
  destruct (split sep s) as [|h r]; [repeat constructor; simpl; now rewrite Hx|].
  inversion IH; subst. constructor; [simpl; rewrite Hx; assumption|assumption].
Qed.

Lemma fold_tables_no_pipe url ls tables :
  Forall (fun l => has_char (ch "|") l = false) ls ->
  fold_left (tables_step url) ls (tables, []) = (tables, []).
Proof.
  induction 1 as [|l ls Hl _ IH]; simpl; [reflexivity|].
  now rewrite Hl.
Qed.

Lemma fold_tables_pipe url ls tables current :
  Forall (fun l => has_char (ch "|") l = true) ls ->
  fold_left (tables_step url) ls (tables, current) = (tables, current ++ ls).
Proof.
  intros H; revert current; induction H as [|l ls Hl _ IH]; intros current;
    simpl; [now rewrite app_nil_r|].
  rewrite Hl, IH, <- app_assoc. reflexivity.
Qed.

Lemma parse_rows_full headers ls rows :
  Forall (fun l => List.length (cells_of l) = List.length headers) ls ->
  headers <> [] ->
  fold_left (parse_row headers) ls rows
  = rows ++ map (fun l => fill_row headers 0 (cells_of l) []) ls.
Proof.
  intros H Hne; revert rows; induction H as [|l ls Hl _ IH]; intros rows;
    simpl; [now rewrite app_nil_r|].
  rewrite IH. unfold parse_row at 1.
  destruct (cells_of l) as [|c cs] eqn:Hc.
  - destruct headers; [congruence|discriminate].
  - rewrite Hl. simpl nonempty_list. rewrite Nat.leb_refl. simpl andb.
    cbv iota. rewrite <- app_assoc. reflexivity.
Qed.

Lemma parse_table_block block url k :
  Forall (fun l => List.length (cells_of l) = k) block ->
  1 <= k -> 2 <= List.length block ->
  exists t, _parse_table block url = Some t
            /\ List.length (structured_data t) = List.length block - 1
            /\ confidence t = (if 1 <? List.length block - 1
                               then 9 # 10 else 7 # 10)%Q.
Proof.
  intros Hall Hk Hlen.
  destruct block as [|l0 [|l1 ls]]; simpl in Hlen; try lia.
  inversion Hall as [|? ? H0 Htl]; subst.
  unfold _parse_table.
  replace (List.length (l0 :: l1 :: ls) <? 2) with false
    by (symmetry; apply Nat.ltb_ge; simpl; lia).
  simpl hd; simpl tl.
  rewrite parse_rows_full.
  - simpl app. simpl map. eexists; split; [reflexivity|].
    simpl. rewrite length_map. split; reflexivity.
  - eapply Forall_impl; [|exact Htl]. simpl. intros l Hl; exact Hl.
  - intros E. rewrite E in Hk. simpl in Hk. lia.
Qed.

(** C5. A text whose only lines with a [|] form one block of N >= 2
    consecutive lines, all with the same non-zero number of non-blank
    cells, gives exactly one table, with N-1 row mappings and confidence
    0.9 if N-1 > 1 and 0.7 otherwise; a text without any [|] gives no
    table. *)
Theorem extract_tables_single_block :
  (forall (self : DataExtractor) (pre block post : list str)
          (source_url : str) (k : nat),
      Forall (fun l => has_char (ch "|") l = false
                       /\ has_char 10%N l = false) pre ->
      Forall (fun l => has_char (ch "|") l = false
                       /\ has_char 10%N l = false) post ->
      Forall (fun l => has_char (ch "|") l = true
                       /\ has_char 10%N l = false
                       /\ List.length (cells_of l) = k) block ->
      1 <= k ->
      2 <= List.length block ->
      exists t,
        fst (extract_tables self (join [10%N] (pre ++ block ++ post))
               source_url) = [t]
        /\ List.length (structured_data t) = List.length block - 1
        /\ confidence t = (if 1 <? List.length block - 1
                           then 9 # 10 else 7 # 10)%Q)
  /\ (forall (self : DataExtractor) (content source_url : str),
        has_char (ch "|") content = false ->
        fst (extract_tables self content source_url) = []).
Proof.
  split.
  - intros self pre block post url k Hpre Hpost Hblock Hk Hlen.
    destruct (parse_table_block block url k) as (t & Ht & Hrows & Hconf);
      [eapply Forall_impl; [|exact Hblock]; simpl; tauto|assumption..|].
    exists t. split; [|split; assumption].
    assert (Hne : block <> []) by (intros E; rewrite E in Hlen; simpl in Hlen; lia).
    unfold extract_tables. rewrite split_join.
    + rewrite !fold_left_app.
      rewrite fold_tables_no_pipe
        by (eapply Forall_impl; [|exact Hpre]; simpl; tauto).
      rewrite fold_tables_pipe
        by (eapply Forall_impl; [|exact Hblock]; simpl; tauto).
      simpl app.
      destruct post as [|l post].
      * simpl. destruct block; [congruence|]. now rewrite Ht.
      * inversion Hpost as [|? ? [Hl _] Hpost']; subst.
        simpl fold_left. rewrite Hl.
        destruct block as [|b0 block]; [congruence|]. rewrite Ht.
        rewrite fold_tables_no_pipe
          by (eapply Forall_impl; [|exact Hpost']; simpl; tauto).
        reflexivity.
    + destruct pre; [destruct block; [congruence|]|]; discriminate.
    + repeat (apply Forall_app; split);
        (eapply Forall_impl; [|eassumption]); simpl; tauto.
  - intros self content url H. unfold extract_tables.
    rewrite fold_tables_no_pipe by (now apply split_pieces_lack).
    reflexivity.
Qed.

Lemma extract_tables_single_block_witness :
  exists t,
    fst (extract_tables (mkDataExtractor [])
           (join [10%N]
              ([py "销量数据："]
               ++ [py "| 月份 | 销量(万辆) | 同比增长 |";
                   py "|------|-----------|---------|";
                   py "| 1月 | 68.8 | 78% |";
                   py "| 2月 | 52.5 | 65% |"]
               ++ [[]; py "关键指标："])) []) = [t]
    /\ List.length (structured_data t) = 4 - 1
    /\ confidence t = (9 # 10)%Q.
Proof.
  apply (proj1 extract_tables_single_block (mkDataExtractor [])
           [py "销量数据："]
           [py "| 月份 | 销量(万辆) | 同比增长 |";
            py "|------|-----------|---------|";
            py "| 1月 | 68.8 | 78% |";
            py "| 2月 | 52.5 | 65% |"]
           [[]; py "关键指标："] [] 3).
  - repeat constructor.
  - repeat constructor.
  - repeat constructor.
  - lia.
  - simpl; lia.
Defined.

(* ----------------------------------------------------------------- *)
(** ** Table rendering *)

Section RenderingFacts.

Variable V : Type.
Variable to_str : V -> str.

Lemma rows_fold_map (columns : list str) (data : list (dict V)) rows :
  fold_left (fun rows item => rows ++ [render_row to_str columns item])
    data rows
  = rows ++ map (render_row to_str columns) data.
Proof.
  revert rows; induction data as [|item data IH]; intros rows; simpl.
  - now rewrite app_nil_r.
  - rewrite IH, <- app_assoc. reflexivity.
Qed.

Lemma repeat_as_map {A B} (x : B) (l : list A) :
  repeat x (List.length l) = map (fun _ => x) l.
Proof. induction l; simpl; congruence. Qed.

Lemma generate_data_table_lines first rest cols :
  generate_data_table to_str (first :: rest) cols
  = join [10%N]
      (let columns := match cols with None => keys first | Some c => c end in
       header_line columns :: separator_line columns
       :: map (render_row to_str columns) (first :: rest)).
Proof.
  unfold generate_data_table. rewrite rows_fold_map, repeat_as_map.
  cbv zeta. set (columns := match cols with None => _ | Some c => c end).
  unfold header_line, separator_line. simpl map. simpl app.
  change (join [10%N] (?a :: ?b :: ?c :: ?l))
    with (a ++ [10%N] ++ b ++ [10%N] ++ join [10%N] (c :: l)).
  simpl. rewrite <- !app_assoc. simpl. reflexivity.
Qed.

Lemma has_char_app c a b :
  has_char c (a ++ b) = has_char c a || has_char c b.
Proof. apply existsb_app. Qed.

Lemma join_lacks c sep parts :
  has_char c sep = false ->
  Forall (fun p => has_char c p = false) parts ->
  has_char c (join sep parts) = false.
Proof.
  intros Hsep H; induction H as [|p parts Hp Hps IH]; [reflexivity|].
  destruct parts as [|q parts]; [exact Hp|].
  change (join sep (p :: q :: parts)) with (p ++ sep ++ join sep (q :: parts)).
  now rewrite !has_char_app, Hp, Hsep, IH.
Qed.

Lemma framed_lacks_newline parts :
  Forall no_newline parts ->
  no_newline (py "| " ++ join (py " | ") parts ++ py " |").
Proof.
  intros H. unfold no_newline.
  rewrite !has_char_app, (join_lacks 10%N (py " | ") parts eq_refl H).
  reflexivity.
Qed.

End RenderingFacts.

(** C8. An empty data list renders as the empty string.  A non-empty
    one renders as the header row, the separator row with one group of
    dashes per column and one row per record, in the order of the
    records; a key missing from a record gives an empty cell; without
    an explicit column list the columns are the keys of the first
    record, in their order.  When no column name and no cell contains a
    line break, these are exactly the lines of the output. *)
Theorem generate_data_table_layout :
  forall (V : Type) (to_str : V -> str),
    (forall cols, generate_data_table to_str [] cols = [])
    /\ (forall first rest cols,
          generate_data_table to_str (first :: rest) cols
          = (let columns :=
               match cols with None => map fst first | Some c => c end in
             py "| " ++ join (py " | ") columns ++ py " |" ++ [10%N]
             ++ py "| " ++ join (py " | ") (map (fun _ => py "---") columns)
             ++ py " |" ++ [10%N]
             ++ join [10%N]
                  (map (fun item =>
                          py "| "
                          ++ join (py " | ")
                               (map (fun col =>
                                       match dict_get col item with
                                       | Some v => to_str v
                                       | None => []
                                       end) columns)
                          ++ py " |")
                     (first :: rest))))
    /\ (forall first rest cols,
          let columns := match cols with None => keys first | Some c => c end in
          Forall no_newline columns ->
          Forall (fun item =>
                    Forall (fun col => no_newline (cell to_str item col))
                      columns) (first :: rest) ->
          split 10%N (generate_data_table to_str (first :: rest) cols)
          = header_line columns :: separator_line columns
            :: map (render_row to_str columns) (first :: rest)).
Proof.
  intros V to_str. split; [reflexivity|]. split.
  - intros first rest cols. rewrite generate_data_table_lines.
    cbv zeta. unfold keys.
    set (columns := match cols with None => _ | Some c => c end).
    unfold header_line, separator_line. simpl map.
    change (join [10%N] (?a :: ?b :: ?c :: ?l))
      with (a ++ [10%N] ++ b ++ [10%N] ++ join [10%N] (c :: l)).
    rewrite <- !app_assoc. reflexivity.
  - intros first rest cols columns Hcols Hcells.
    rewrite generate_data_table_lines. cbv zeta. fold columns.
    apply split_join; [discriminate|].
    constructor; [apply framed_lacks_newline; exact Hcols|].
    constructor.
    { apply framed_lacks_newline.
      clear. induction columns; simpl; constructor; [reflexivity|assumption]. }
    apply Forall_map. eapply Forall_impl; [|exact Hcells].
    intros item Hitem. apply framed_lacks_newline.
    apply Forall_map. exact Hitem.
Qed.

Lemma generate_data_table_layout_witness :
  split 10%N
    (generate_data_table (fun v : str => v)
       [[(py "metric", py "销量"); (py "value", py "120")];
        [(py "metric", py "出口量")]] None)
  = [py "| metric | value |"; py "| --- | --- |";
     py "| 销量 | 120 |"; py "| 出口量 |  |"].
Proof.
  apply (proj2 (proj2 (generate_data_table_layout str (fun v : str => v)))
           [(py "metric", py "销量"); (py "value", py "120")]
           [[(py "metric", py "出口量")]] None).
  - repeat constructor.
  - repeat constructor.
Defined.

(* ----------------------------------------------------------------- *)
(** ** Timeline: order and duplicates *)

Lemma str_eqb_eq a b : str_eqb a b = true <-> a = b.
Proof.
  unfold str_eqb. destruct (list_eq_dec N.eq_dec a b); split; intros H;
    congruence.
Qed.

Lemma seen_spec d seen : existsb (str_eqb d) seen = true <-> In d seen.
Proof.
  rewrite existsb_exists. split.
  - intros (x & Hx & E). apply str_eqb_eq in E. now subst.
  - intros H. exists d. split; [exact H|now apply str_eqb_eq].
Qed.

Lemma insert_event_in e x l :
  In e (insert_event x l) <-> e = x \/ In e l.
Proof.
  induction l as [|y l IH]; simpl; [intuition congruence|].
  destruct (Event.position x <=? Event.position y); simpl; [intuition congruence|].
  rewrite IH. intuition congruence.
Qed.

Lemma insert_event_sorted x l :
  StronglySorted by_position l -> StronglySorted by_position (insert_event x l).
Proof.
  induction 1 as [|y l Hl IH Hy]; simpl; [repeat constructor|].
  destruct (Event.position x <=? Event.position y) eqn:Hxy.
  - apply Nat.leb_le in Hxy. constructor; [now constructor|].
    constructor; [exact Hxy|].
    eapply Forall_impl; [|exact Hy]. unfold by_position. intros; lia.
  - apply Nat.leb_gt in Hxy. constructor; [exact IH|].
    apply Forall_forall. intros e He. apply insert_event_in in He as [->|He].
    + unfold by_position; lia.
    + rewrite Forall_forall in Hy. now apply Hy.
Qed.

Lemma sort_events_in e l : In e (sort_events l) <-> In e l.
Proof.
  induction l as [|x l IH]; simpl; [tauto|].
  rewrite insert_event_in, IH. intuition congruence.
Qed.

Lemma sort_events_sorted l : StronglySorted by_position (sort_events l).
Proof.
  induction l; simpl; [constructor|now apply insert_event_sorted].
Qed.

Lemma unique_from_in seen l e :
  In e (unique_from seen l) -> In e l /\ ~ In (Event.date e) seen.
Proof.
  revert seen; induction l as [|x l IH]; intros seen; simpl; [tauto|].
  destruct (existsb _ seen) eqn:Hseen.
  - intros H. apply IH in H. tauto.
  - intros [<-|H].
    + split; [now left|]. rewrite <- seen_spec. congruence.
    + apply IH in H as [H1 H2]. split; [now right|].
      intros Hin. apply H2. now right.
Qed.

Lemma unique_from_nodup seen l :
  NoDup (map Event.date (unique_from seen l)).
Proof.
  revert seen; induction l as [|x l IH]; intros seen; simpl; [constructor|].
  destruct (existsb _ seen); [apply IH|].
  simpl. constructor; [|apply IH].
  intros Hin. apply in_map_iff in Hin as (e & Hd & He).
  apply unique_from_in in He as [_ Hnot]. apply Hnot. left. now symmetry.
Qed.

Lemma unique_from_sorted seen l :
  StronglySorted by_position l ->
  StronglySorted by_position (unique_from seen l).
Proof.
  intros H; revert seen; induction H as [|x l Hl IH Hx]; intros seen; simpl;
    [constructor|].
  destruct (existsb _ seen); [apply IH|].
  constructor; [apply IH|].
  apply Forall_forall. intros e He. apply unique_from_in in He as [He _].
  rewrite Forall_forall in Hx. now apply Hx.
Qed.

Lemma unique_from_keeps_first seen l e :
  StronglySorted by_position l -> In e l -> ~ In (Event.date e) seen ->
  exists e', In e' (unique_from seen l)
             /\ Event.date e' = Event.date e /\ by_position e' e.
Proof.
  intros H; revert seen; induction H as [|x l Hl IH Hx]; intros seen Hin Hnot;
    [destruct Hin|].
  simpl. rewrite Forall_forall in Hx.
  destruct (existsb _ seen) eqn:Hseen.
  - destruct Hin as [->|Hin]; [|now apply IH].
    apply seen_spec in Hseen. contradiction.
  - destruct (list_eq_dec N.eq_dec (Event.date x) (Event.date e)) as [E|NE].
    + exists x. split; [now left|]. split; [exact E|].
      destruct Hin as [->|Hin]; [unfold by_position; lia|now apply Hx].
    + destruct Hin as [->|Hin]; [congruence|].
      destruct (IH (Event.date x :: seen) Hin) as (e' & He' & Hd & Hp).
      * intros [E|Hs]; [congruence|contradiction].
      * exists e'. split; [now right|]. split; assumption.
Qed.

(** C4, as the code has it.  The events of [extract_timeline] are in
    ascending order of character offset, and no date token occurs
    twice: of the collected events with the same token the one met
    first in that order is kept, and nothing else is added.  Tokens that
    overlap in the text but differ as strings are different dates:
    "2024年3月" and "2024年" both appear. *)
Theorem timeline_sorted_and_unique :
  forall (decimal : char -> option N) (content source_url : str)
         (events : list Event.t),
    extract_timeline decimal content source_url = Ok events ->
    StronglySorted by_position events
    /\ NoDup (map Event.date events)
    /\ Forall (fun e => In e (records (collect_events decimal content)))
         events
    /\ Forall (fun e => exists e', In e' events
                                   /\ Event.date e' = Event.date e
                                   /\ by_position e' e)
         (records (collect_events decimal content))
    /\ map Event.date
         (records (extract_timeline ascii_decimal
                     (py "2024年3月，新能源汽车下乡政策启动") []))
       = [py "2024年3月"; py "2024年"].
Proof.
  intros decimal content source_url events Hrun.
  refine (conj _ (conj _ (conj _ (conj _ _))));
    [| | | |vm_compute; reflexivity];
    revert Hrun; unfold extract_timeline;
    (destruct (collect_events decimal content) as [collected| |];
       cbn [bind records]; [|discriminate..]);
    intros H; inversion H; subst; clear H.
  - apply unique_from_sorted, sort_events_sorted.
  - apply unique_from_nodup.
  - apply Forall_forall. intros e He.
    apply unique_from_in in He as [He _]. now apply sort_events_in.
  - apply Forall_forall. intros e He.
    apply unique_from_keeps_first;
      [apply sort_events_sorted|now apply sort_events_in|intros []].
Qed.

Lemma timeline_sorted_and_unique_witness :
  StronglySorted by_position
    (records (extract_timeline ascii_decimal
                (py "2024年6月，电池技术取得突破。2024年3月，政策启动") []))
  /\ NoDup (map Event.date
              (records (extract_timeline ascii_decimal
                 (py "2024年6月，电池技术取得突破。2024年3月，政策启动") []))).
Proof.
  destruct (extract_timeline ascii_decimal
              (py "2024年6月，电池技术取得突破。2024年3月，政策启动") [])
    as [events| |] eqn:Hrun; [|vm_compute in Hrun; discriminate..].
  destruct (timeline_sorted_and_unique ascii_decimal _ _ events Hrun)
    as (Hsorted & Hnodup & _).
  split; assumption.
Defined.

(** C4, as the specification words it, fails: the text "2024年3月…"
    holds the tokens "2024年3月" and "2024年" at the same offset, and
    both are in the output. *)
Lemma timeline_overlap_counterexample :
  map (fun e => (Event.date e, Event.position e))
    (records (extract_timeline ascii_decimal
                (py "2024年3月，新能源汽车下乡政策启动") []))
  = [(py "2024年3月", 0); (py "2024年", 0)].
Proof. vm_compute. reflexivity. Qed.

(* ----------------------------------------------------------------- *)
(** ** Patterns assembled from unescaped text *)

(** C1. The extraction operations are not all free of exceptions.  A
    metric name is interpolated into the pattern without [re.escape]:
    with the name "(" the pattern does not compile, whatever the text,
    and [extract_key_metrics] raises [re.error].  [extract_timeline]
    puts the date token between square brackets: for "2024-03-15" the
    set holds the range "4-0", which is refused, and the call raises
    [re.error]. *)
Theorem unescaped_patterns_raise :
  (forall (decimal : char -> option N) (content source_url : str),
      extract_key_metrics decimal content [py "("] source_url
      = Raise (re_error "missing ), unterminated subpattern"))
  /\ re_compile (description_pattern (py "2024-03-15"))
     = Raise (re_error "bad character range")
  /\ extract_timeline ascii_decimal (py "2024-03-15 发布会") []
     = Raise (re_error "bad character range").
Proof.
  split; [|split].
  - intros decimal content source_url. reflexivity.
  - vm_compute. reflexivity.
  - vm_compute. reflexivity.
Qed.

(* ----------------------------------------------------------------- *)
(** ** The sample sentence "总销量突破 700万辆" *)



(* ----------------------------------------------------------------- *)
(** ** The matcher is sound for the declarative reading *)

Section MatcherFacts.

Variable decimal : char -> option N.

Lemma match_one_sound ok s i cs k x :
  match_one ok s i cs k = Some x ->
  exists s' i' cs', step_char ok (s, i, cs) (s', i', cs')
                    /\ k s' i' cs' = Some x.
Proof.
  unfold match_one. destruct s as [|c s]; [discriminate|].
  destruct (ok c) eqn:Hc; [|discriminate].
  intros H. exists s, (S i), cs. split; [|exact H].
  exists c. auto.
Qed.

Lemma rloop_sound (D : mstate -> mstate -> Prop)
    (step : str -> nat -> caps -> cont -> option (nat * caps)) :
  (forall s i cs k x, step s i cs k = Some x ->
     exists s' i' cs', D (s, i, cs) (s', i', cs') /\ k s' i' cs' = Some x) ->
  forall fuel lo hi greedy s i cs k x,
    rloop step fuel lo hi greedy s i cs k = Some x ->
    exists n s' i' cs',
      lo <= n /\ within hi n /\ iter D n (s, i, cs) (s', i', cs')
      /\ k s' i' cs' = Some x.
Proof.
  intros Hstep fuel; induction fuel as [|f IH]; intros lo hi greedy s i cs k x;
    [discriminate|].
  assert (Hmore :
    match hi with
    | Some O => None
    | _ => step s i cs (fun s' i' cs' =>
             if Nat.eqb lo 0 && Nat.eqb i' i then None
             else rloop step f (pred lo) (option_map pred hi) greedy
                    s' i' cs' k)
    end = Some x ->
    exists n s' i' cs',
      lo <= n /\ within hi n /\ iter D n (s, i, cs) (s', i', cs')
      /\ k s' i' cs' = Some x).
  { intros H.
    assert (Hhi : hi <> Some 0) by (intros ->; discriminate).
    assert (Hs : step s i cs (fun s' i' cs' =>
                   if Nat.eqb lo 0 && Nat.eqb i' i then None
                   else rloop step f (pred lo) (option_map pred hi) greedy
                          s' i' cs' k) = Some x)
      by (destruct hi as [[|h]|]; [congruence|exact H..]).
    apply Hstep in Hs as (s1 & i1 & cs1 & HD & Hk).
    destruct (Nat.eqb lo 0 && Nat.eqb i1 i); [discriminate|].
    apply IH in Hk as (n & s' & i' & cs' & Hlo & Hwithin & Hiter & Hk).
    exists (S n), s', i', cs'. repeat split.
    - lia.
    - destruct hi as [[|h]|]; simpl in *; [congruence|lia|exact I].
    - exists (s1, i1, cs1). split; assumption.
    - exact Hk. }
  simpl. destruct (Nat.ltb 0 lo) eqn:Hlo; [exact Hmore|].
  apply Nat.ltb_ge in Hlo.
  assert (Hzero : k s i cs = Some x ->
    exists n s' i' cs',
      lo <= n /\ within hi n /\ iter D n (s, i, cs) (s', i', cs')
      /\ k s' i' cs' = Some x).
  { intros H. exists 0, s, i, cs. repeat split; [lia| |exact H].
    destruct hi; simpl; [lia|exact I]. }
  destruct greedy.
  - destruct (match hi with Some O => None | _ => _ end);
      [exact Hmore|exact Hzero].
  - destruct (k s i cs); [exact Hzero|exact Hmore].
Qed.

Theorem rmatch_sound r :
  forall s i cs k x,
    rmatch decimal r s i cs k = Some x ->
    exists s' i' cs',
      den decimal r (s, i, cs) (s', i', cs') /\ k s' i' cs' = Some x.
Proof.
  induction r as [|c| |negate items|r1 IH1 r2 IH2|r1 IH1 r2 IH2
                  |lo hi greedy r1 IH1|n r1 IH1];
    intros s i cs k x H; simpl in H.
  - exists s, i, cs. split; [reflexivity|exact H].
  - apply match_one_sound in H. exact H.
  - apply match_one_sound in H. exact H.
  - apply match_one_sound in H. exact H.
  - apply IH1 in H as (s1 & i1 & cs1 & H1 & H).
    apply IH2 in H as (s2 & i2 & cs2 & H2 & H).
    exists s2, i2, cs2. split; [|exact H].
    exists (s1, i1, cs1). split; assumption.
  - destruct (rmatch decimal r1 s i cs k) eqn:E.
    + inversion H; subst.
      apply IH1 in E as (s1 & i1 & cs1 & H1 & Hk).
      exists s1, i1, cs1. split; [now left|exact Hk].
    + apply IH2 in H as (s1 & i1 & cs1 & H1 & Hk).
      exists s1, i1, cs1. split; [now right|exact Hk].
  - apply (rloop_sound (den decimal r1) _ IH1) in H
      as (n & s' & i' & cs' & Hlo & Hhi & Hiter & Hk).
    exists s', i', cs'. split; [|exact Hk].
    exists n. repeat split; assumption.
  - apply IH1 in H as (s1 & i1 & cs1 & H1 & Hk).
    exists s1, i1, ((n, (i, i1)) :: cs1). split; [|exact Hk].
    exists s1, i1, cs1. split; [exact H1|reflexivity].
Qed.

End MatcherFacts.

(* ----------------------------------------------------------------- *)
(** ** The forward pattern of a key metric *)

Lemma sales_forward_compiles :
  re_compile (forward_pattern (py "销量")) = Ok sales_forward.
Proof. vm_compute. reflexivity. Qed.

Section KeyMetricFacts.

Variable decimal : char -> option N.

Lemma iter_step_char ok n :
  forall s i cs s' i' cs',
    iter (step_char ok) n (s, i, cs) (s', i', cs') ->
    exists w, s = w ++ s' /\ List.length w = n
              /\ Forall (fun c => ok c = true) w
              /\ i' = i + n /\ cs' = cs.
Proof.
  induction n as [|n IH]; intros s i cs s' i' cs' H; simpl in H.
  - inversion H; subst. exists []. repeat split; [constructor|lia].
  - destruct H as ([[s1 i1] cs1] & (c & -> & Hc & -> & ->) & H).
    apply IH in H as (w & -> & Hlen & Hw & -> & ->).
    exists (c :: w). simpl. repeat split; try lia; try congruence.
    constructor; assumption.
Qed.

Lemma digit_set_spec c :
  in_set decimal false [SCat Digit] c = is_digit decimal c.
Proof. unfold in_set. simpl. now rewrite orb_false_r. Qed.

Lemma gap_chars_spec c :
  in_set decimal true [SChar 10%N; SChar (ch "。")] c = true ->
  c <> 10%N /\ c <> ch "。".
Proof.
  unfold in_set. simpl. rewrite orb_false_r.
  destruct (c =? 10)%N eqn:E1; [discriminate|].
  destruct (c =? ch "。")%N eqn:E2; [discriminate|].
  intros _. apply N.eqb_neq in E1, E2. split; assumption.
Qed.

Lemma den_digits lo s i cs s' i' cs' greedy :
  den decimal (RRep lo None greedy digit_set) (s, i, cs) (s', i', cs') ->
  exists w, s = w ++ s' /\ lo <= List.length w
            /\ Forall (fun c => is_digit decimal c = true) w
            /\ i' = i + List.length w /\ cs' = cs.
Proof.
  intros (n & Hlo & _ & H). apply iter_step_char in H
    as (w & -> & Hlen & Hw & -> & ->).
  exists w. repeat split; try lia.
  eapply Forall_impl; [|exact Hw]. intros c Hc.
  rewrite <- (digit_set_spec c). exact Hc.
Qed.

Lemma den_value_group g s i cs s' i' cs' :
  den decimal (value_group g) (s, i, cs) (s', i', cs') ->
  exists v, s = v ++ s' /\ numeric_token decimal v
            /\ i' = i + List.length v /\ cs' = (g, (i, i')) :: cs.
Proof.
  intros (s4 & i4 & cs4 & Hbody & Hb). inversion Hb; subst; clear Hb.
  destruct Hbody as ([[s1 i1] cs1] & Hds & [[s2 i2] cs2] & Hfrac
                     & [[s3 i3] cs3] & Hpct & Hend).
  inversion Hend; subst; clear Hend.
  apply den_digits in Hds as (ds & -> & Hlen & Hds & -> & ->).
  assert (Hfs : exists fs, s1 = fs ++ s2 /\ i2 = i + List.length ds + List.length fs
                /\ cs2 = cs
                /\ (fs = [] \/ exists fd, fs = ch "." :: fd /\ fd <> []
                      /\ Forall (fun c => is_digit decimal c = true) fd)).
  { destruct Hfrac as (n & _ & Hn & Hiter). simpl in Hn.
    destruct n as [|[|n]]; [| |lia]; cbn [iter] in Hiter.
    - inversion Hiter; subst. exists []. repeat split; [simpl; lia|now left].
    - destruct Hiter as ([[sa ia] csa] & Hone & Heq).
      inversion Heq; subst; clear Heq.
      destruct Hone as ([[sb ib] csb] & (c & -> & Hc & -> & ->)
                        & [[sc ic] csc] & Hfd & Heq).
      inversion Heq; subst; clear Heq.
      apply N.eqb_eq in Hc; subst c.
      apply den_digits in Hfd as (fd & -> & Hfl & Hfd & -> & ->).
      exists (ch "." :: fd). simpl. repeat split; [lia|].
      right. exists fd. repeat split; [|assumption].
      intros ->. simpl in Hfl. lia. }
  destruct Hfs as (fs & -> & -> & -> & Hfs).
  assert (Hp : exists pct, s2 = pct ++ s4
               /\ i4 = i + List.length ds + List.length fs + List.length pct
               /\ cs4 = cs /\ (pct = [] \/ pct = [ch "%"])).
  { destruct Hpct as (n & _ & Hn & Hiter). simpl in Hn.
    apply iter_step_char in Hiter as (w & -> & Hwl & Hw & -> & ->).
    exists w. repeat split; [lia|].
    destruct w as [|c [|c' w]]; simpl in Hwl; [now left| |lia].
    right. inversion Hw as [|? ? Hc _]; subst.
    apply N.eqb_eq in Hc. now subst. }
  destruct Hp as (pct & -> & -> & -> & Hp).
  exists (ds ++ fs ++ pct). repeat split.
  - now rewrite <- !app_assoc.
  - exists ds, fs, pct. repeat split; try assumption.
    intros ->. simpl in Hlen. lia.
  - rewrite !length_app. lia.
Qed.

Lemma den_lazy_gap n s i cs s' i' cs' :
  den decimal (lazy_gap n) (s, i, cs) (s', i', cs') ->
  exists w, s = w ++ s' /\ List.length w <= n
            /\ Forall (fun c => c <> 10%N /\ c <> ch "。") w
            /\ i' = i + List.length w /\ cs' = cs.
Proof.
  intros (m & _ & Hm & H). simpl in Hm.
  apply iter_step_char in H as (w & -> & Hlen & Hw & -> & ->).
  exists w. repeat split; try lia.
  eapply Forall_impl; [|exact Hw]. intros c Hc. now apply gap_chars_spec.
Qed.

(** Every match of the forward pattern of "销量": the metric name, a
    gap and a numeric token, which is group 1. *)
Lemma den_sales_forward s i s' e cs' :
  den decimal sales_forward (s, i, []) (s', e, cs') ->
  exists gap v,
    s = py "销量" ++ gap ++ v ++ s'
    /\ List.length gap <= 50
    /\ Forall (fun c => c <> 10%N /\ c <> ch "。") gap
    /\ numeric_token decimal v
    /\ cs' = [(1, (i + 2 + List.length gap,
                   i + 2 + List.length gap + List.length v))].
Proof.
  intros ([[s1 i1] cs1] & (c1 & -> & Hc1 & -> & ->)
          & [[s2 i2] cs2] & (c2 & -> & Hc2 & -> & ->)
          & [[s3 i3] cs3] & Hgap & [[s4 i4] cs4] & Hval & Hend).
  inversion Hend; subst; clear Hend.
  apply N.eqb_eq in Hc1, Hc2; subst c1 c2.
  apply den_lazy_gap in Hgap as (gap & -> & Hlen & Hgap & -> & ->).
  apply den_value_group in Hval as (v & -> & Hv & -> & ->).
  exists gap, v. repeat split; try assumption.
  repeat f_equal; lia.
Qed.

End KeyMetricFacts.

(* ----------------------------------------------------------------- *)
(** ** Searching *)

Section SearchFacts.

Variable decimal : char -> option N.

Lemma search_at_sound r s :
  forall i m,
    search_at decimal r s i = Some m ->
    exists skipped s0,
      s = skipped ++ s0 /\ m_start m = i + List.length skipped
      /\ rmatch decimal r s0 (m_start m) [] accept
         = Some (m_end m, m_groups m).
Proof.
  induction s as [|c s IH]; intros i m H; simpl in H.
  - destruct (rmatch decimal r [] i [] _) as [[e cs]|] eqn:E; [|discriminate].
    inversion H; subst; clear H. simpl.
    exists [], []. repeat split; [simpl; lia|exact E].
  - destruct (rmatch decimal r (c :: s) i [] _) as [[e cs]|] eqn:E.
    + inversion H; subst; clear H. simpl.
      exists [], (c :: s). repeat split; [simpl; lia|exact E].
    + apply IH in H as (skipped & s0 & -> & Hstart & Hm).
      exists (c :: skipped), s0. repeat split; [simpl; lia|exact Hm].
Qed.

Lemma search_at_finds r s1 s2 :
  forall i x,
    rmatch decimal r s2 (i + List.length s1) [] accept = Some x ->
    exists m, search_at decimal r (s1 ++ s2) i = Some m
              /\ m_start m <= i + List.length s1.
Proof.
  induction s1 as [|c s1 IH]; intros i x H.
  - simpl in *. rewrite Nat.add_0_r in H.
    destruct s2; simpl; unfold accept in H; rewrite H; destruct x;
      eexists; (split; [reflexivity|simpl; lia]).
  - simpl.
    destruct (rmatch decimal r (c :: s1 ++ s2) i [] _) as [[e cs]|].
    + eexists; split; [reflexivity|simpl; lia].
    + destruct (IH (S i) x) as (m & Hm & Hle).
      * simpl in H. now rewrite Nat.add_succ_r in H.
      * exists m. split; [exact Hm|lia].
Qed.

Lemma search_at_skip r s1 s2 :
  (forall c rest j, In c s1 -> rmatch decimal r (c :: rest) j [] accept = None) ->
  forall i,
    search_at decimal r (s1 ++ s2) i
    = search_at decimal r s2 (i + List.length s1).
Proof.
  induction s1 as [|c s1 IH]; intros Hfail i.
  - simpl. now rewrite Nat.add_0_r.
  - simpl. unfold accept in Hfail. rewrite (Hfail c _ i (or_introl eq_refl)).
    rewrite IH; [f_equal; lia|].
    intros c' rest j Hin. apply Hfail. now right.
Qed.

Lemma rloop_unfold step f lo hi greedy s i cs (k : cont) :
  rloop step (S f) lo hi greedy s i cs k
  = let more :=
      match hi with
      | Some O => None
      | _ =>
        step s i cs (fun s' i' cs' =>
          if Nat.eqb lo 0 && Nat.eqb i' i then None
          else rloop step f (pred lo) (option_map pred hi) greedy s' i' cs' k)
      end in
    if Nat.ltb 0 lo then more
    else if greedy then
      match more with
      | Some x => Some x
      | None => k s i cs
      end
    else
      match k s i cs with
      | Some x => Some x
      | None => more
      end.
Proof. reflexivity. Qed.

Lemma match_one_hit ok c s i cs (k : cont) :
  ok c = true -> match_one ok (c :: s) i cs k = k s (S i) cs.
Proof. intros H. unfold match_one. now rewrite H. Qed.

Lemma match_one_miss ok s i cs (k : cont) :
  (forall c t, s = c :: t -> ok c = false) -> match_one ok s i cs k = None.
Proof.
  intros H. destruct s as [|c t]; [reflexivity|].
  unfold match_one. now rewrite (H c t eq_refl).
Qed.

Lemma succ_neqb i : Nat.eqb (S i) i = false.
Proof. apply Nat.eqb_neq. lia. Qed.

(** A greedy run over a character class takes all of a block of
    characters of the class that is followed by none. *)
Lemma greedy_run ok ds :
  forall fuel lo s' i cs (k : cont) x,
    Forall (fun c => ok c = true) ds ->
    lo <= List.length ds -> List.length ds < fuel ->
    (forall c t, s' = c :: t -> ok c = false) ->
    k s' (i + List.length ds) cs = Some x ->
    rloop (match_one ok) fuel lo None true (ds ++ s') i cs k = Some x.
Proof.
  induction ds as [|d ds IH]; intros fuel lo s' i cs k x Hds Hlo Hfuel Hnext Hk;
    (destruct fuel as [|f]; [simpl in Hfuel; lia|]);
    rewrite rloop_unfold; cbv zeta.
  - simpl in Hlo. replace lo with 0 by lia.
    simpl app. rewrite (match_one_miss _ _ _ _ _ Hnext).
    simpl in Hk. rewrite Nat.add_0_r in Hk. exact Hk.
  - inversion Hds as [|? ? Hd Hds']; subst.
    simpl app. rewrite (match_one_hit _ _ _ _ _ _ Hd).
    rewrite succ_neqb, andb_false_r. cbn [option_map].
    simpl in Hlo, Hfuel, Hk.
    rewrite (IH f (pred lo) s' (S i) cs k x); try assumption; try lia.
    + now destruct (Nat.ltb 0 lo).
    + rewrite <- Hk. f_equal. lia.
Qed.

(** A lazy run stops at the first place where the rest of the pattern
    matches. *)
Lemma lazy_run ok w :
  forall fuel h s' i cs (k : cont) x,
    Forall (fun c => ok c = true) w ->
    List.length w <= h -> List.length w < fuel ->
    (forall w1 w2, w = w1 ++ w2 -> w2 <> [] ->
       k (w2 ++ s') (i + List.length w1) cs = None) ->
    k s' (i + List.length w) cs = Some x ->
    rloop (match_one ok) fuel 0 (Some h) false (w ++ s') i cs k = Some x.
Proof.
  induction w as [|c w IH]; intros fuel h s' i cs k x Hw Hh Hfuel Hearly Hk;
    (destruct fuel as [|f]; [simpl in Hfuel; lia|]);
    rewrite rloop_unfold; cbv zeta.
  - simpl in Hk. rewrite Nat.add_0_r in Hk. simpl app. simpl Nat.ltb.
    cbv iota. now rewrite Hk.
  - pose proof (Hearly [] (c :: w) eq_refl) as H0. simpl in H0.
    rewrite Nat.add_0_r in H0. simpl app. simpl Nat.ltb. cbv iota.
    rewrite H0 by discriminate.
    simpl in Hh, Hfuel, Hk.
    destruct h as [|h]; [lia|].
    inversion Hw as [|? ? Hc Hw']; subst.
    rewrite (match_one_hit _ _ _ _ _ _ Hc).
    rewrite succ_neqb, andb_false_r.
    simpl pred. simpl option_map. apply IH; try assumption; try lia.
    + intros w1 w2 E Hne. specialize (Hearly (c :: w1) w2).
      simpl in Hearly. rewrite <- Hearly; [f_equal; lia|now rewrite E|exact Hne].
    + rewrite <- Hk. f_equal. lia.
Qed.

(** An optional part that cannot start is passed over. *)
Lemma optional_skipped step s i cs (k : cont) fuel :
  (forall k', step s i cs k' = None) ->
  rloop step (S fuel) 0 (Some 1) true s i cs k = k s i cs.
Proof. intros H. rewrite rloop_unfold. cbv zeta. now rewrite H. Qed.

Lemma fuel_form lo n : lo + n + 1 = S (lo + n).
Proof. lia. Qed.

Lemma value_group_needs_digit g r c rest i cs k :
  is_digit decimal c = false ->
  rmatch decimal (RSeq (value_group g) r) (c :: rest) i cs k = None.
Proof.
  intros Hc. unfold value_group, digit_set. cbn [rmatch].
  rewrite fuel_form, rloop_unfold. cbv zeta. cbn [Nat.ltb Nat.leb].
  apply match_one_miss. intros c' t E. inversion E; subst.
  now rewrite digit_set_spec.
Qed.

(** The numeric token pattern on a block of digits that is followed by
    something that continues no number. *)
Lemma value_group_on_digits g ds s' i cs (k : cont) x :
  Forall (fun c => is_digit decimal c = true) ds -> ds <> [] ->
  (forall c t, s' = c :: t ->
     is_digit decimal c = false /\ c <> ch "." /\ c <> ch "%") ->
  k s' (i + List.length ds) ((g, (i, i + List.length ds)) :: cs) = Some x ->
  rmatch decimal (value_group g) (ds ++ s') i cs k = Some x.
Proof.
  intros Hds Hne Hnext Hk.
  unfold value_group, digit_set. cbn [rmatch]. rewrite fuel_form.
  apply greedy_run.
  - eapply Forall_impl; [|exact Hds]. intros c Hc. now rewrite digit_set_spec.
  - destruct ds; [congruence|simpl; lia].
  - rewrite length_app. lia.
  - intros c t E. rewrite digit_set_spec. now apply (Hnext c t).
  - rewrite fuel_form, optional_skipped.
    + rewrite fuel_form, optional_skipped; [exact Hk|].
      intros k'. apply match_one_miss. intros c t E.
      destruct (Hnext c t E) as (_ & _ & Hpct).
      apply N.eqb_neq. congruence.
    + intros k'. apply match_one_miss. intros c t E.
      destruct (Hnext c t E) as (_ & Hdot & _).
      apply N.eqb_neq. congruence.
Qed.

Lemma sales_forward_at_sample (Hd : unicode_digits decimal) post j :
  rmatch decimal sales_forward (py "销量达到120万辆" ++ post) j [] accept
  = Some (j + 7, [(1, (j + 4, j + 7))]).
Proof.
  destruct Hd as [Hascii Hcjk].
  assert (D1 : is_digit decimal 49%N = true)
    by (unfold is_digit; rewrite Hascii; reflexivity).
  assert (D2 : is_digit decimal 50%N = true)
    by (unfold is_digit; rewrite Hascii; reflexivity).
  assert (D0 : is_digit decimal 48%N = true)
    by (unfold is_digit; rewrite Hascii; reflexivity).
  assert (Dda : is_digit decimal 36798%N = false)
    by (unfold is_digit; rewrite Hcjk; reflexivity).
  assert (Ddao : is_digit decimal 21040%N = false)
    by (unfold is_digit; rewrite Hcjk; reflexivity).
  assert (Dwan : is_digit decimal 19975%N = false)
    by (unfold is_digit; rewrite Hcjk; reflexivity).
  change (py "销量达到120万辆" ++ post)
    with (ch "销" :: ch "量" :: [36798; 21040]%N
          ++ [49; 50; 48]%N ++ [19975; 36742]%N ++ post).
  unfold sales_forward, lazy_gap, gap_chars. cbn [rmatch].
  rewrite match_one_hit by apply N.eqb_refl.
  rewrite match_one_hit by apply N.eqb_refl.
  rewrite fuel_form.
  apply lazy_run.
  - repeat constructor.
  - simpl; lia.
  - rewrite length_app. simpl. lia.
  - intros w1 w2 E Hne.
    destruct w1 as [|a [|b [|c w1]]]; simpl in E; inversion E; subst;
      try congruence.
    + now apply (value_group_needs_digit 1 REps).
    + now apply (value_group_needs_digit 1 REps).
    + exfalso. now apply Hne.
  - apply value_group_on_digits.
    + repeat constructor; assumption.
    + discriminate.
    + intros c t E. inversion E; subst. repeat split; [exact Dwan|..];
        intros E'; vm_compute in E'; discriminate.
    + unfold accept. simpl. repeat f_equal; lia.
Qed.

End SearchFacts.

(* ----------------------------------------------------------------- *)
(** ** The forward record of the metric "销量" *)

Lemma slice_middle (a v b : str) :
  slice (a ++ v ++ b) (List.length a) (List.length a + List.length v) = v.
Proof.
  unfold slice. rewrite skipn_app, skipn_all, Nat.sub_diag. simpl.
  replace (List.length a + List.length v - List.length a)
    with (List.length v + 0) by lia.
  rewrite firstn_app_2. simpl. apply app_nil_r.
Qed.

Section SalesFacts.

Variable decimal : char -> option N.

(** What a search with the forward pattern of "销量" finds. *)
Lemma sales_forward_search content m :
  re_search decimal sales_forward content = Some m ->
  exists before gap v after,
    content = before ++ py "销量" ++ gap ++ v ++ after
    /\ m_start m = List.length before
    /\ List.length gap <= 50
    /\ Forall (fun c => c <> 10%N /\ c <> ch "。") gap
    /\ numeric_token decimal v
    /\ group content m 1 = Some v.
Proof.
  intros H. apply search_at_sound in H as (before & s0 & -> & Hstart & Hm).
  apply rmatch_sound in Hm as (s' & e & cs' & Hden & Hacc).
  unfold accept in Hacc. inversion Hacc; subst e cs'; clear Hacc.
  apply den_sales_forward in Hden as (gap & v & -> & Hlen & Hgap & Hv & Hcs).
  exists before, gap, v, s'. repeat split; try assumption.
  unfold group. rewrite Hcs. cbn [find fst Nat.eqb].
  rewrite Hstart. cbn [Nat.add].
  replace (List.length before + 2 + List.length gap)
    with (List.length (before ++ py "销量" ++ gap))
    by (rewrite !length_app; simpl; lia).
  replace (before ++ py "销量" ++ gap ++ v ++ s')
    with ((before ++ py "销量" ++ gap) ++ v ++ s')
    by (now rewrite <- !app_assoc).
  now rewrite slice_middle.
Qed.

End SalesFacts.

(* ----------------------------------------------------------------- *)
(** ** Compiling patterns that contain arbitrary plain text *)

Lemma plain_tests c :
  plain c = true ->
  (c =? ch "|")%N = false /\ (c =? ch ")")%N = false
  /\ (c =? ch "(")%N = false /\ (c =? ch "[")%N = false
  /\ (c =? ch "\")%N = false /\ (c =? ch ".")%N = false
  /\ (c =? ch "^")%N = false /\ (c =? ch "$")%N = false
  /\ (c =? ch "*")%N = false /\ (c =? ch "+")%N = false
  /\ (c =? ch "?")%N = false /\ (c =? ch "{")%N = false.
Proof.
  unfold plain, has_char, pattern_specials. cbn [existsb].
  rewrite negb_true_iff, !orb_false_iff. tauto.
Qed.

Lemma parse_repeat_plain c p :
  plain c = true -> parse_repeat (c :: p) = Ok NoRepeat.
Proof.
  intros H. apply plain_tests in H
    as (_ & _ & _ & _ & _ & _ & _ & _ & H1 & H2 & H3 & H4).
  unfold parse_repeat. now rewrite H1, H2, H3, H4.
Qed.

Lemma parse_seq_plain_step f c p1 g :
  plain c = true -> parse_repeat p1 = Ok NoRepeat ->
  parse_seq (S f) (c :: p1) g
  = bind (parse_seq f p1 g) (then_rest (RSeq (RLit c))).
Proof.
  intros Hc Hnext. pose proof (parse_repeat_plain c p1 Hc) as Hrep.
  apply plain_tests in Hc
    as (H1 & H2 & H3 & H4 & H5 & H6 & H7 & H8 & _).
  cbn [parse_seq].
  rewrite H1, H2, H3, H4, H5, H6, H7, H8. cbn [orb].
  rewrite Hrep. cbn [bind]. unfold with_repeat. rewrite Hnext. cbn [bind].
  reflexivity.
Qed.

(** Plain text in front of a pattern is read as a sequence of
    literals. *)
Lemma parse_seq_literal m :
  Forall (fun c => plain c = true) m ->
  forall f rest g r p g',
    parse_repeat rest = Ok NoRepeat ->
    parse_seq f rest g = Ok (r, p, g') ->
    parse_seq (List.length m + f) (m ++ rest) g = Ok (literal_then m r, p, g').
Proof.
  induction 1 as [|c m Hc Hm IH]; intros f rest g r p g' Hrest Hparse.
  - exact Hparse.
  - cbn [List.length Nat.add app].
    rewrite parse_seq_plain_step; [|exact Hc|].
    + rewrite (IH f rest g r p g' Hrest Hparse). reflexivity.
    + destruct m as [|c' m]; [exact Hrest|].
      inversion Hm; subst. now apply parse_repeat_plain.
Qed.

Lemma parse_seq_literal_end m :
  Forall (fun c => plain c = true) m ->
  forall f g,
    parse_seq (List.length m + S f) m g = Ok (literal_then m REps, [], g).
Proof.
  intros H f g.
  pose proof (parse_seq_literal m H (S f) [] g REps [] g eq_refl eq_refl) as E.
  now rewrite app_nil_r in E.
Qed.

Lemma forward_suffix_parses f :
  parse_seq (61 + f) (py "[^\n。]{0,50}?(\d+(?:\.\d+)?%?)") 0
  = Ok (RSeq (lazy_gap 50) (RSeq (value_group 1) REps), [], 1).
Proof. reflexivity. Qed.

(** The forward pattern of a metric name of plain characters. *)
Lemma forward_pattern_compiles metric :
  Forall (fun c => plain c = true) metric ->
  re_compile (forward_pattern metric) = Ok (metric_forward metric).
Proof.
  intros Hplain. unfold re_compile, forward_pattern.
  replace (2 * List.length (metric ++ py "[^\n。]{0,50}?(\d+(?:\.\d+)?%?)") + 2)
    with (S (List.length metric + (61 + List.length metric)))
    by (rewrite length_app;
        change (List.length (py "[^\n。]{0,50}?(\d+(?:\.\d+)?%?)")) with 30;
        lia).
  cbn [parse_alt].
  rewrite (parse_seq_literal metric Hplain (61 + List.length metric)
             (py "[^\n。]{0,50}?(\d+(?:\.\d+)?%?)") 0 _ _ _ eq_refl
             (forward_suffix_parses (List.length metric))).
  reflexivity.
Qed.

Lemma value_group_body_parses f rest :
  parse_alt (10 + f) (py "\d+(?:\.\d+)?%?)" ++ rest) 1
  = Ok (RSeq (RRep 1 None true digit_set)
          (RSeq
             (RRep 0 (Some 1) true
                (RSeq (RLit (ch "."))
                   (RSeq (RRep 1 None true digit_set) REps)))
             (RSeq (RRep 0 (Some 1) true (RLit (ch "%"))) REps)),
        ch ")" :: rest, 1).
Proof. cbn. reflexivity. Qed.

Lemma value_group_item f rest :
  parse_repeat rest = Ok NoRepeat ->
  parse_seq (S (10 + f)) (py "(\d+(?:\.\d+)?%?)" ++ rest) 0
  = bind (parse_seq (10 + f) rest 1) (then_rest (RSeq (value_group 1))).
Proof.
  intros Hrest. remember (10 + f) as F eqn:HF. cbn.
  match goal with
  | |- context [parse_alt F ?p 1] =>
    replace (parse_alt F p 1)
      with (parse_alt (10 + f) (py "\d+(?:\.\d+)?%?)" ++ rest) 1)
      by (subst F; reflexivity)
  end.
  rewrite (value_group_body_parses f rest). cbn [bind expect_close].
  change (ch ")" =? ch ")")%N with true. cbv iota. cbn [bind].
  unfold with_repeat. rewrite Hrest. cbn [bind]. reflexivity.
Qed.

Lemma lazy_gap_item F t :
  parse_repeat t = Ok NoRepeat ->
  parse_seq (S F) (py "[^\n。]{0,30}?" ++ t) 1
  = bind (parse_seq F t 1) (then_rest (RSeq (lazy_gap 30))).
Proof. intros Hnext. cbn. rewrite Hnext. cbn [bind]. reflexivity. Qed.

Lemma parse_repeat_plain_text m :
  Forall (fun c => plain c = true) m -> parse_repeat m = Ok NoRepeat.
Proof.
  intros H. destruct H as [|c m Hc _]; [reflexivity|].
  now apply parse_repeat_plain.
Qed.

(** The reverse pattern of a metric name of plain characters. *)
Lemma reverse_pattern_compiles metric :
  Forall (fun c => plain c = true) metric ->
  re_compile (reverse_pattern metric) = Ok (metric_reverse metric).
Proof.
  intros Hplain. unfold re_compile, reverse_pattern.
  replace (2 * List.length (py "(\d+(?:\.\d+)?%?)[^\n。]{0,30}?" ++ metric) + 2)
    with (S (S (10 + S (List.length metric + S (List.length metric + 48)))))
    by (rewrite length_app;
        change (List.length (py "(\d+(?:\.\d+)?%?)[^\n。]{0,30}?")) with 30;
        lia).
  cbn [parse_alt].
  change (py "(\d+(?:\.\d+)?%?)[^\n。]{0,30}?" ++ metric)
    with (py "(\d+(?:\.\d+)?%?)" ++ py "[^\n。]{0,30}?" ++ metric).
  rewrite value_group_item by reflexivity.
  cbn [Nat.add].
  rewrite lazy_gap_item by (now apply parse_repeat_plain_text).
  match goal with
  | |- context [parse_seq ?F metric 1] =>
    replace F with (List.length metric + (S (List.length metric + 58))) by lia
  end.
  rewrite (parse_seq_literal_end metric Hplain).
  reflexivity.
Qed.

(* ----------------------------------------------------------------- *)
(** ** Key metrics with plain names *)

Section PlainMetricFacts.

Variable decimal : char -> option N.

Lemma den_literal_then m r :
  forall s i cs b,
    den decimal (literal_then m r) (s, i, cs) b ->
    exists s1, s = m ++ s1 /\ den decimal r (s1, i + List.length m, cs) b.
Proof.
  induction m as [|c m IH]; intros s i cs b H; cbn [literal_then] in H.
  - exists s. split; [reflexivity|]. simpl. now rewrite Nat.add_0_r.
  - destruct H as ([[s1 i1] cs1] & (c' & -> & Hc & -> & ->) & H).
    apply N.eqb_eq in Hc; subst c'.
    apply IH in H as (s2 & -> & H). exists s2. split; [reflexivity|].
    simpl. now rewrite Nat.add_succ_r.
Qed.

Lemma den_metric_forward m s i s' e cs' :
  den decimal (metric_forward m) (s, i, []) (s', e, cs') ->
  exists gap v,
    s = m ++ gap ++ v ++ s'
    /\ List.length gap <= 50 /\ no_break gap
    /\ numeric_token decimal v
    /\ cs' = [(1, (i + List.length m + List.length gap,
                   i + List.length m + List.length gap + List.length v))].
Proof.
  intros H. apply den_literal_then in H as (s1 & -> & H).
  destruct H as ([[s3 i3] cs3] & Hgap & [[s4 i4] cs4] & Hval & Hend).
  inversion Hend; subst; clear Hend.
  apply den_lazy_gap in Hgap as (gap & -> & Hlen & Hgap & -> & ->).
  apply den_value_group in Hval as (v & -> & Hv & -> & ->).
  exists gap, v. repeat split; assumption.
Qed.

Lemma den_metric_reverse m s i s' e cs' :
  den decimal (metric_reverse m) (s, i, []) (s', e, cs') ->
  exists v gap,
    s = v ++ gap ++ m ++ s'
    /\ List.length gap <= 30 /\ no_break gap
    /\ numeric_token decimal v
    /\ cs' = [(1, (i, i + List.length v))].
Proof.
  intros ([[s1 i1] cs1] & Hval & [[s2 i2] cs2] & Hgap & Hlit).
  apply den_value_group in Hval as (v & -> & Hv & -> & ->).
  apply den_lazy_gap in Hgap as (gap & -> & Hlen & Hgap & -> & ->).
  apply den_literal_then in Hlit as (s3 & -> & Hend).
  inversion Hend; subst; clear Hend.
  exists v, gap. repeat split; assumption.
Qed.

Lemma metric_forward_search m content mt :
  re_search decimal (metric_forward m) content = Some mt ->
  exists before gap v after,
    content = before ++ m ++ gap ++ v ++ after
    /\ m_start mt = List.length before
    /\ List.length gap <= 50 /\ no_break gap
    /\ numeric_token decimal v
    /\ group content mt 1 = Some v.
Proof.
  intros H. apply search_at_sound in H as (before & s0 & -> & Hstart & Hm).
  apply rmatch_sound in Hm as (s' & e & cs' & Hden & Hacc).
  unfold accept in Hacc. inversion Hacc; subst e cs'; clear Hacc.
  apply den_metric_forward in Hden as (gap & v & -> & Hlen & Hgap & Hv & Hcs).
  exists before, gap, v, s'. repeat split; try assumption.
  unfold group. rewrite Hcs. cbn [find fst Nat.eqb].
  rewrite Hstart. cbn [Nat.add].
  replace (List.length before + List.length m + List.length gap)
    with (List.length (before ++ m ++ gap))
    by (rewrite !length_app; lia).
  replace (before ++ m ++ gap ++ v ++ s')
    with ((before ++ m ++ gap) ++ v ++ s')
    by (now rewrite <- !app_assoc).
  now rewrite slice_middle.
Qed.

Lemma metric_reverse_search m content mt :
  re_search decimal (metric_reverse m) content = Some mt ->
  exists before v gap after,
    content = before ++ v ++ gap ++ m ++ after
    /\ m_start mt = List.length before
    /\ List.length gap <= 30 /\ no_break gap
    /\ numeric_token decimal v
    /\ group content mt 1 = Some v.
Proof.
  intros H. apply search_at_sound in H as (before & s0 & -> & Hstart & Hm).
  apply rmatch_sound in Hm as (s' & e & cs' & Hden & Hacc).
  unfold accept in Hacc. inversion Hacc; subst e cs'; clear Hacc.
  apply den_metric_reverse in Hden as (v & gap & -> & Hlen & Hgap & Hv & Hcs).
  exists before, v, gap, s'. repeat split; try assumption.
  unfold group. rewrite Hcs. cbn [find fst Nat.eqb].
  rewrite Hstart. cbn [Nat.add].
  now rewrite slice_middle.
Qed.

Lemma for_each_ok {A B} (P : B -> Prop) (f : B -> A -> result B) l :
  (forall acc x, In x l -> P acc -> exists acc', f acc x = Ok acc' /\ P acc') ->
  forall acc, P acc -> exists out, for_each f l acc = Ok out /\ P out.
Proof.
  induction l as [|x l IH]; intros Hf acc Hacc; cbn [for_each].
  - exists acc. split; [reflexivity|exact Hacc].
  - destruct (Hf acc x (or_introl eq_refl) Hacc) as (acc' & -> & Hacc').
    cbn [bind]. apply IH; [|exact Hacc'].
    intros a y Hy. apply Hf. now right.
Qed.

End PlainMetricFacts.

(** X1. For metric names made of plain characters (none of
    [| ( ) [ \ . ^ $ * + ? {]), [extract_key_metrics] does not raise,
    whatever the text, and returns at most two records per name.  Every
    record names one of the metrics, its value is a numeric token
    (digits, an optional fraction, an optional [%]) found in the text,
    and it is either a forward record (confidence 0.85: the name, a gap
    of at most 50 characters without line break or "。", the value) or a
    backward record (confidence 0.8: the value, a gap of at most 30 such
    characters, the name), at the offset it reports. *)
Theorem key_metrics_of_plain_names :
  forall (decimal : char -> option N) (content source_url : str)
         (metric_names : list str),
    Forall (Forall (fun c => plain c = true)) metric_names ->
    exists rs,
      extract_key_metrics decimal content metric_names source_url = Ok rs
      /\ List.length rs <= 2 * List.length metric_names
      /\ Forall (fun k =>
                   In (KeyMetric.metric k) metric_names
                   /\ exists v,
                        KeyMetric.value k = Some v
                        /\ numeric_token decimal v
                        /\ (forward_record content k v
                            \/ backward_record content k v)) rs.
Proof.
  intros decimal content source_url metric_names Hplain.
  unfold extract_key_metrics.
  set (Q := fun k =>
              In (KeyMetric.metric k) metric_names
              /\ exists v,
                   KeyMetric.value k = Some v
                   /\ numeric_token decimal v
                   /\ (forward_record content k v
                       \/ backward_record content k v)).
  assert (Hgen : forall done todo,
             (forall m, In m todo -> In m metric_names) ->
             forall acc,
               List.length acc <= 2 * done /\ Forall Q acc ->
               exists out,
                 for_each (metric_step decimal content) todo acc = Ok out
                 /\ List.length out <= 2 * (done + List.length todo)
                 /\ Forall Q out).
  { intros done todo; revert done.
    induction todo as [|m todo IH]; intros done Hsub acc [Hlen Hacc];
      cbn [for_each].
    - exists acc. rewrite Nat.add_0_r. auto.
    - assert (Hm : In m metric_names) by (apply Hsub; now left).
      assert (Hpm : Forall (fun c => plain c = true) m)
        by (rewrite Forall_forall in Hplain; now apply Hplain).
      unfold metric_step at 1.
      rewrite (forward_pattern_compiles m Hpm),
              (reverse_pattern_compiles m Hpm). cbn [bind].
      set (fw := match re_search decimal (metric_forward m) content with
                 | Some mt => acc ++ [KeyMetric.make m (group content mt 1)
                                        (m_start mt) (85 # 100)%Q]
                 | None => acc
                 end).
      assert (Hfw : List.length fw <= 2 * done + 1 /\ Forall Q fw).
      { unfold fw.
        destruct (re_search decimal (metric_forward m) content) as [mt|] eqn:E;
          [|split; [lia|exact Hacc]].
        apply metric_forward_search in E
          as (before & gap & v & after & Hc & Hs & Hg & Hnb & Hv & Hgrp).
        split; [rewrite length_app; simpl; lia|].
        apply Forall_app; split; [exact Hacc|]. constructor; [|constructor].
        split; [exact Hm|]. exists v. rewrite Hgrp. repeat split; try assumption.
        left. split; [reflexivity|]. exists before, gap, after. auto. }
      destruct Hfw as [Hfwl Hfwq].
      set (bw := match re_search decimal (metric_reverse m) content with
                 | Some mt => Ok (fw ++ [KeyMetric.make m (group content mt 1)
                                           (m_start mt) (8 # 10)%Q])
                 | None => Ok fw
                 end).
      assert (Hbw : exists out, bw = Ok out
                      /\ List.length out <= 2 * (S done) /\ Forall Q out).
      { unfold bw.
        destruct (re_search decimal (metric_reverse m) content) as [mt|] eqn:E;
          [|exists fw; repeat split; [lia|exact Hfwq]].
        apply metric_reverse_search in E
          as (before & v & gap & after & Hc & Hs & Hg & Hnb & Hv & Hgrp).
        eexists; split; [reflexivity|].
        split; [rewrite length_app; simpl; lia|].
        apply Forall_app; split; [exact Hfwq|]. constructor; [|constructor].
        split; [exact Hm|]. exists v. rewrite Hgrp. repeat split; try assumption.
        right. split; [reflexivity|]. exists before, gap, after. auto. }
      destruct Hbw as (out & -> & Hol & Hoq). cbn [bind].
      destruct (IH (S done) (fun x Hx => Hsub x (or_intror Hx)) out
                  (conj Hol Hoq)) as (res & Hres & Hrl & Hrq).
      exists res. repeat split; [exact Hres| |exact Hrq].
      simpl List.length. lia. }
  destruct (Hgen 0 metric_names (fun m H => H) [] (conj (Nat.le_0_l _) (Forall_nil _)))
    as (rs & Hrs & Hlen & HQ).
  exists rs. repeat split; assumption.
Qed.

Lemma key_metrics_of_plain_names_witness :
  exists rs,
    extract_key_metrics ascii_decimal (py "出口量达到 120万辆，同比增长 35% 的销量")
      [py "出口量"; py "销量"] [] = Ok rs
    /\ List.length rs <= 2 * 2.
Proof.
  destruct (key_metrics_of_plain_names ascii_decimal
              (py "出口量达到 120万辆，同比增长 35% 的销量") []
              [py "出口量"; py "销量"])
    as (rs & Hrs & Hlen & _).
  - repeat constructor.
  - exists rs. split; assumption.
Defined.

(* ----------------------------------------------------------------- *)
(** ** The sample sentence "销量达到120万辆" *)

Lemma sales_prefix_no_match decimal c rest j :
  (c =? ch "销")%N = false ->
  rmatch decimal sales_forward (c :: rest) j [] accept = None.
Proof.
  intros Hc. unfold sales_forward. cbn [rmatch]. unfold match_one.
  now rewrite N.eqb_sym, Hc.
Qed.

(** X2. For the metric "销量" and any text that contains "销量达到120万辆",
    the first record of [extract_key_metrics] is a forward record of
    the metric with confidence 0.85, found at or before that sentence;
    its value is a numeric token that follows an occurrence of the
    name.  When no "销" occurs before the sentence, the record is at the
    sentence and its value is "120". *)
Theorem sales_sample_forward_record :
  forall (decimal : char -> option N) (pre post source_url : str),
    unicode_digits decimal ->
    exists k rest v,
      extract_key_metrics decimal (pre ++ py "销量达到120万辆" ++ post)
        [py "销量"] source_url = Ok (k :: rest)
      /\ KeyMetric.metric k = py "销量"
      /\ KeyMetric.value k = Some v
      /\ numeric_token decimal v
      /\ forward_record (pre ++ py "销量达到120万辆" ++ post) k v
      /\ KeyMetric.position k <= List.length pre
      /\ (has_char (ch "销") pre = false ->
          KeyMetric.position k = List.length pre /\ v = py "120").
Proof.
  intros decimal pre post source_url Hd.
  set (content := pre ++ py "销量达到120万辆" ++ post).
  assert (Hplain : Forall (fun c => plain c = true) (py "销量"))
    by (repeat constructor).
  pose proof (sales_forward_at_sample decimal Hd post (0 + List.length pre))
    as Hat.
  destruct (search_at_finds decimal sales_forward pre
              (py "销量达到120万辆" ++ post) 0 _ Hat) as (mt & Hmt & Hle).
  fold content in Hmt.
  assert (Hsearch : re_search decimal (metric_forward (py "销量")) content
                    = Some mt) by exact Hmt.
  destruct (metric_forward_search decimal (py "销量") content mt Hsearch)
    as (before & gap & v & after & Hc & Hs & Hg & Hnb & Hv & Hgrp).
  assert (Hfirst : has_char (ch "销") pre = false ->
                   m_start mt = List.length pre /\ v = py "120").
  {
    intros Hno.
    assert (Hskip : search_at decimal sales_forward content 0
                    = search_at decimal sales_forward
                        (py "销量达到120万辆" ++ post) (0 + List.length pre)).
    { apply search_at_skip. intros c r j Hin.
      apply sales_prefix_no_match. apply N.eqb_neq. intros ->.
      assert (Hyes : has_char (ch "销") pre = true)
        by (apply existsb_exists; exists (ch "销"); split;
            [exact Hin|apply N.eqb_refl]).
      congruence. }
    unfold re_search in Hsearch.
    change (metric_forward (py "销量")) with sales_forward in Hsearch.
    rewrite Hskip in Hsearch.
    assert (Hhere : search_at decimal sales_forward
                      (py "销量达到120万辆" ++ post) (0 + List.length pre)
                    = Some (mkMatch (0 + List.length pre)
                              (0 + List.length pre + 7)
                              [(1, (0 + List.length pre + 4,
                                    0 + List.length pre + 7))])).
    { change (py "销量达到120万辆" ++ post)
        with (ch "销" :: (py "量达到120万辆" ++ post)).
      cbn [search_at].
      change (ch "销" :: (py "量达到120万辆" ++ post))
        with (py "销量达到120万辆" ++ post).
      unfold accept in Hat. now rewrite Hat. }
    rewrite Hhere in Hsearch. inversion Hsearch; subst mt; clear Hsearch.
    split; [reflexivity|].
    unfold group in Hgrp. cbn [m_groups find fst Nat.eqb] in Hgrp.
    assert (Hslice : slice content (0 + List.length pre + 4)
                       (0 + List.length pre + 7) = py "120").
    { unfold content.
      change (pre ++ py "销量达到120万辆" ++ post)
        with (pre ++ py "销量达到" ++ py "120" ++ py "万辆" ++ post).
      replace (pre ++ py "销量达到" ++ py "120" ++ py "万辆" ++ post)
        with ((pre ++ py "销量达到") ++ py "120" ++ (py "万辆" ++ post))
        by (now rewrite <- !app_assoc).
      replace (0 + List.length pre + 4)
        with (List.length (pre ++ py "销量达到"))
        by (rewrite length_app; reflexivity).
      replace (0 + List.length pre + 7)
        with (List.length (pre ++ py "销量达到") + List.length (py "120"))
        by (rewrite length_app; simpl; lia).
      apply slice_middle. }
    cbn [Nat.add] in Hslice. rewrite Hslice in Hgrp. now inversion Hgrp.
  }
  unfold extract_key_metrics. cbn [for_each]. unfold metric_step.
  rewrite (forward_pattern_compiles (py "销量") Hplain),
          (reverse_pattern_compiles (py "销量") Hplain). cbn [bind].
  rewrite Hsearch.
  destruct (re_search decimal (metric_reverse (py "销量")) content);
    cbn [bind app]; eexists _, _, v;
    (split; [reflexivity|]); cbn [KeyMetric.metric KeyMetric.value
                                  KeyMetric.position];
    (split; [reflexivity|]); (split; [exact Hgrp|]); (split; [exact Hv|]);
    (split; [split; [reflexivity|]; exists before, gap, after; auto|]);
    (split; [exact Hle|exact Hfirst]).
Qed.

Lemma sales_sample_forward_record_witness :
  exists k rest v,
    extract_key_metrics ascii_decimal
      (py "今年" ++ py "销量达到120万辆" ++ py "，同比增长") [py "销量"] []
    = Ok (k :: rest)
    /\ KeyMetric.position k = 2 /\ v = py "120".
Proof.
  destruct (sales_sample_forward_record ascii_decimal (py "今年")
              (py "，同比增长") [])
    as (k & rest & v & Hrun & _ & _ & _ & _ & _ & Hfirst).
  - split; [intros c Hc; unfold ascii_decimal; now rewrite Hc|].
    intros c Hc. unfold ascii_decimal, is_ascii_digit.
    apply andb_true_iff in Hc as [Hlo _]. apply N.leb_le in Hlo.
    replace (c <=? 57)%N with false by (symmetry; apply N.leb_gt; lia).
    now rewrite andb_false_r.
  - exists k, rest, v. split; [exact Hrun|]. apply Hfirst. reflexivity.
Defined.

(* ----------------------------------------------------------------- *)
(** ** Matches consume text and record groups *)

Section ConsumptionFacts.

Variable decimal : char -> option N.

Lemma step_char_advances ok a b :
  step_char ok a b ->
  exists w, fst (fst a) = w ++ fst (fst b)
            /\ snd (fst b) = snd (fst a) + List.length w.
Proof.
  destruct a as [[s i] cs], b as [[s' i'] cs'].
  intros (c & -> & _ & -> & _). exists [c]. simpl. split; [reflexivity|lia].
Qed.

Lemma iter_advances (R : mstate -> mstate -> Prop) :
  (forall a b, R a b ->
     exists w, fst (fst a) = w ++ fst (fst b)
               /\ snd (fst b) = snd (fst a) + List.length w) ->
  forall n a b, iter R n a b ->
    exists w, fst (fst a) = w ++ fst (fst b)
              /\ snd (fst b) = snd (fst a) + List.length w.
Proof.
  intros HR n; induction n as [|n IH]; intros a b H; simpl in H.
  - subst b. exists []. simpl. split; [reflexivity|lia].
  - destruct H as (c & Hac & Hcb).
    apply HR in Hac as (w1 & E1 & L1). apply IH in Hcb as (w2 & E2 & L2).
    exists (w1 ++ w2). rewrite E1, E2, L2, L1, length_app, <- app_assoc.
    split; [reflexivity|lia].
Qed.

(** A match consumes a prefix of the remaining text and advances the
    offset by its length. *)
Lemma den_advances r :
  forall a b, den decimal r a b ->
    exists w, fst (fst a) = w ++ fst (fst b)
              /\ snd (fst b) = snd (fst a) + List.length w.
Proof.
  induction r as [|c| |negate items|r1 IH1 r2 IH2|r1 IH1 r2 IH2
                  |lo hi greedy r1 IH1|n r1 IH1]; intros a b H; cbn [den] in H.
  - subst b. exists []. simpl. split; [reflexivity|lia].
  - now apply step_char_advances in H.
  - now apply step_char_advances in H.
  - now apply step_char_advances in H.
  - destruct H as (c & H1 & H2).
    apply IH1 in H1 as (w1 & E1 & L1). apply IH2 in H2 as (w2 & E2 & L2).
    exists (w1 ++ w2). rewrite E1, E2, L2, L1, length_app, <- app_assoc.
    split; [reflexivity|lia].
  - destruct H as [H|H]; [now apply IH1|now apply IH2].
  - destruct H as (n & _ & _ & H). eapply iter_advances; eassumption.
  - destruct H as (s' & i' & cs' & H & ->). apply IH1 in H. exact H.
Qed.

Lemma iter_keeps_groups (R : mstate -> mstate -> Prop) :
  (forall a b, R a b -> snd b = snd a) ->
  forall n a b, iter R n a b -> snd b = snd a.
Proof.
  intros HR n; induction n as [|n IH]; intros a b H; simpl in H.
  - now subst.
  - destruct H as (c & Hac & Hcb). apply HR in Hac. apply IH in Hcb. congruence.
Qed.

(** A pattern without groups leaves the recorded groups alone. *)
Lemma den_group_free r :
  group_free r = true ->
  forall a b, den decimal r a b -> snd b = snd a.
Proof.
  induction r as [|c| |negate items|r1 IH1 r2 IH2|r1 IH1 r2 IH2
                  |lo hi greedy r1 IH1|n r1 IH1]; intros Hgf a b H;
    cbn [den group_free] in *;
    try (destruct a as [[s i] cs], b as [[s' i'] cs'];
         destruct H as (c' & _ & _ & _ & ->); reflexivity).
  - now subst.
  - apply andb_true_iff in Hgf as [G1 G2]. destruct H as (c & H1 & H2).
    apply (IH1 G1) in H1. apply (IH2 G2) in H2. congruence.
  - apply andb_true_iff in Hgf as [G1 G2].
    destruct H as [H|H]; [now apply IH1|now apply IH2].
  - destruct H as (n & _ & _ & H).
    eapply iter_keeps_groups; [|exact H]. now apply IH1.
  - discriminate.
Qed.

(** Every match [finditer] yields is a match of the pattern at its
    offset: the text splits there, and the matcher accepts. *)
Lemma finditer_from_sound r fuel :
  forall s i m,
    In m (finditer_from decimal fuel r s i) ->
    exists skipped s0,
      s = skipped ++ s0 /\ m_start m = i + List.length skipped
      /\ rmatch decimal r s0 (m_start m) [] accept
         = Some (m_end m, m_groups m).
Proof.
  induction fuel as [|fuel IH]; intros s i m Hin; [destruct Hin|].
  cbn [finditer_from] in Hin.
  destruct (search_at decimal r s i) as [m0|] eqn:Hsearch; [|destruct Hin].
  destruct Hin as [->|Hin]; [now apply search_at_sound|].
  pose proof (search_at_sound decimal r s i m0 Hsearch)
    as (sk0 & s0 & Hs & Hstart0 & Hm0).
  apply rmatch_sound in Hm0 as (s1 & e1 & cs1 & Hden & Hacc).
  unfold accept in Hacc. inversion Hacc; subst e1 cs1; clear Hacc.
  apply den_advances in Hden as (w & Hw & He). simpl in Hw, He.
  assert (Hskip : skipn (m_end m0 - i) s = s1).
  { subst s s0. rewrite He, Hstart0.
    replace (i + List.length sk0 + List.length w - i)
      with (List.length (sk0 ++ w)) by (rewrite length_app; lia).
    rewrite app_assoc, skipn_app, skipn_all, Nat.sub_diag. reflexivity. }
  assert (Hnext : forall s' i',
            In m (finditer_from decimal fuel r s' i') ->
            (exists pre, s = pre ++ s' /\ i' = i + List.length pre) ->
            exists skipped s2,
              s = skipped ++ s2 /\ m_start m = i + List.length skipped
              /\ rmatch decimal r s2 (m_start m) [] accept
                 = Some (m_end m, m_groups m)).
  { intros s' i' Hin' (pre & Hpre & Hi').
    apply IH in Hin' as (sk & s2 & Hs2 & Hst & Hm).
    exists (pre ++ sk), s2. rewrite length_app, <- app_assoc, <- Hs2.
    repeat split; [exact Hpre|lia|exact Hm]. }
  rewrite Hskip in Hin.
  destruct (Nat.eqb (m_end m0) (m_start m0)).
  - destruct s1 as [|c s1]; [destruct Hin|].
    apply (Hnext s1 (S (m_end m0)) Hin).
    exists (sk0 ++ w ++ [c]). subst s s0.
    rewrite !length_app, <- !app_assoc. simpl. split; [reflexivity|lia].
  - apply (Hnext s1 (m_end m0) Hin).
    exists (sk0 ++ w). subst s s0.
    rewrite length_app, <- app_assoc. split; [reflexivity|lia].
Qed.

Lemma finditer_sound r s m :
  In m (finditer decimal r s) ->
  exists before s0,
    s = before ++ s0 /\ m_start m = List.length before
    /\ rmatch decimal r s0 (m_start m) [] accept
       = Some (m_end m, m_groups m).
Proof.
  intros H. apply finditer_from_sound in H as (sk & s0 & Hs & Hst & Hm).
  exists sk, s0. auto.
Qed.

End ConsumptionFacts.

(* ----------------------------------------------------------------- *)
(** ** What the statistics carry *)

Section StatisticShapes.

Variable decimal : char -> option N.

Lemma group1_of_match (content before s0 v rest : str) (m : Match) tail :
  content = before ++ s0 -> s0 = v ++ rest ->
  m_start m = List.length before ->
  m_groups m = (1, (m_start m, m_start m + List.length v)) :: tail ->
  group1 content m = v.
Proof.
  intros -> -> Hs Hg. unfold group1, group. rewrite Hg. cbn [find fst Nat.eqb].
  rewrite Hs. apply slice_middle.
Qed.

Lemma den_percentage s i s' e cs' :
  den decimal PERCENTAGE_PATTERN (s, i, []) (s', e, cs') ->
  exists v rest,
    s = v ++ rest /\ percent_token decimal v
    /\ cs' = [(1, (i, i + List.length v))].
Proof.
  intros ([[s1 i1] cs1] & Hgroup & Htail).
  assert (Hcs : cs' = cs1).
  { change cs' with (snd (s', e, cs')). change cs1 with (snd (s1, i1, cs1)).
    eapply den_group_free; [|exact Htail]. reflexivity. }
  subst cs'. clear Htail.
  destruct Hgroup as (s4 & i4 & cs4 & Hbody & Hb).
  injection Hb as -> -> ->.
  destruct Hbody as ([[sa ia] csa] & Hds & [[sb ib] csb] & Hfrac
                     & [[sc ic] csc] & (c & Esb & Hc & Eic & Ecsc) & Hend).
  injection Hend as <- <- <-. apply N.eqb_eq in Hc; subst c.
  apply (den_digits decimal 1) in Hds as (ds & Es & Hlen & Hds & Eia & Ecsa).
  assert (Hfs : exists fs, sa = fs ++ sb
                /\ ib = ia + List.length fs /\ csb = csa
                /\ (fs = [] \/ exists fd, fs = ch "." :: fd /\ fd <> []
                      /\ Forall (fun c => is_digit decimal c = true) fd)).
  { destruct Hfrac as (n & _ & Hn & Hiter). simpl in Hn.
    destruct n as [|[|n]]; [| |lia]; cbn [iter] in Hiter.
    - injection Hiter as <- <- <-. exists []. repeat split; [simpl; lia|now left].
    - destruct Hiter as ([[sx ix] csx] & Hone & Heq).
      injection Heq as <- <- <-.
      destruct Hone as ([[sy iy] csy] & (c & Esa & Hc & Eiy & Ecsy)
                        & [[sz iz] csz] & Hfd & Heq).
      injection Heq as <- <- <-.
      apply N.eqb_eq in Hc; subst c.
      apply (den_digits decimal 1) in Hfd
        as (fd & Esy & Hfl & Hfd & Eiz & Ecsz).
      exists (ch "." :: fd). simpl. subst. repeat split; [lia|].
      right. exists fd. repeat split; [|assumption].
      intros ->. simpl in Hfl. lia. }
  destruct Hfs as (fs & Esa & Eib & Ecsb & Hfs).
  exists (ds ++ fs ++ [ch "%"]), sc. subst. repeat split.
  - now rewrite <- !app_assoc.
  - exists ds, fs. repeat split; try assumption.
    intros ->. simpl in Hlen. lia.
  - rewrite !length_app. simpl. repeat f_equal; lia.
Qed.

(** The value of every percentage record is a percentage written in
    the text: digits, an optional fraction and [%]. *)
Lemma percentage_match_value content m :
  In m (finditer decimal PERCENTAGE_PATTERN content) ->
  exists before after,
    content = before ++ group1 content m ++ after
    /\ percent_token decimal (group1 content m).
Proof.
  intros H. apply finditer_sound in H as (before & s0 & Hc & Hs & Hm).
  apply rmatch_sound in Hm as (s' & e & cs' & Hden & Hacc).
  unfold accept in Hacc. inversion Hacc; subst e cs'; clear Hacc.
  apply den_percentage in Hden as (v & rest & Hs0 & Hv & Hcs).
  rewrite (group1_of_match content before s0 v rest m [] Hc Hs0 Hs Hcs).
  exists before, rest. split; [now subst|exact Hv].
Qed.

Lemma name_set_spec c :
  in_set decimal true
    [SCat Space; SCat Digit; SChar (ch "，"); SChar (ch ","); SChar (ch "。")] c
  = name_char decimal c.
Proof.
  unfold in_set, name_char. cbn [existsb in_item in_category].
  destruct (is_space c), (is_digit decimal c), (c =? ch "，")%N,
    (c =? ch ",")%N, (c =? ch "。")%N; reflexivity.
Qed.

Lemma group_free_literal a : group_free (literal a) = true.
Proof. induction a; simpl; auto. Qed.

Lemma den_name_pattern anchor s i s' e cs' :
  den decimal (name_pattern anchor) (s, i, []) (s', e, cs') ->
  exists n rest,
    s = n ++ rest /\ well_formed_name decimal n
    /\ cs' = [(1, (i, i + List.length n))].
Proof.
  intros ([[s1 i1] cs1] & Hgroup & Htail).
  assert (Hcs : cs' = cs1).
  { change cs' with (snd (s', e, cs')). change cs1 with (snd (s1, i1, cs1)).
    eapply den_group_free; [|exact Htail].
    cbn [name_pattern group_free]. now rewrite !group_free_literal. }
  subst cs'. clear Htail.
  destruct Hgroup as (s4 & i4 & cs4 & Hbody & Hb).
  injection Hb as -> -> ->.
  destruct Hbody as ([[sa ia] csa] & (k & Hlo & Hhi & Hiter) & Hend).
  injection Hend as <- <- <-. simpl in Hhi.
  apply iter_step_char in Hiter as (w & Es & Hlen & Hw & Eia & Ecsa).
  exists w, sa. subst. repeat split; try lia.
  eapply Forall_impl; [|exact Hw]. intros c Hc.
  rewrite <- name_set_spec. exact Hc.
Qed.

Lemma strip_no_space s :
  Forall (fun c => is_space c = false) s -> strip s = s.
Proof.
  intros H. unfold strip, rstrip.
  assert (Hl : forall t, Forall (fun c => is_space c = false) t -> lstrip t = t).
  { intros t Ht. destruct Ht as [|c t Hc _]; [reflexivity|].
    simpl. now rewrite Hc. }
  rewrite (Hl s H), (Hl (rev s)); [apply rev_involutive|].
  apply Forall_rev. exact H.
Qed.

Lemma infer_name_well_formed anchor context n :
  infer_name decimal anchor context = Some n ->
  well_formed_name decimal n
  /\ exists before after, context = before ++ n ++ after.
Proof.
  unfold infer_name.
  destruct (re_search decimal (name_pattern anchor) context) as [m|] eqn:E;
    [|discriminate].
  intros H; inversion H; subst n; clear H.
  apply search_at_sound in E as (before & s0 & Hc & Hs & Hm).
  apply rmatch_sound in Hm as (s' & e & cs' & Hden & Hacc).
  unfold accept in Hacc. inversion Hacc; subst e cs'; clear Hacc.
  apply den_name_pattern in Hden as (w & rest & Hs0 & Hw & Hcs).
  simpl in Hs.
  rewrite (group1_of_match context before s0 w rest m [] Hc Hs0 Hs Hcs).
  rewrite strip_no_space.
  - split; [exact Hw|]. exists before, rest. now subst.
  - destruct Hw as [_ Hw]. eapply Forall_impl; [|exact Hw].
    intros c Hc'. unfold name_char in Hc'.
    rewrite !andb_true_iff, !negb_true_iff in Hc'. tauto.
Qed.

End StatisticShapes.

(** X3. In the output of [extract_statistics], a percentage record
    carries a percentage that is written in the text (digits, an
    optional fraction, [%]); and the name of every record is either
    empty, which only a percentage record can have, or has 2 to 10
    characters, none of them white space, a digit, "，", "," or "。". *)
Theorem statistics_values_and_names :
  forall (decimal : char -> option N) (content source_url : str),
    Forall (fun st =>
              (exists v before after,
                 Statistic.value st = VText v
                 /\ percent_token decimal v
                 /\ content = before ++ v ++ after)
              /\ (Statistic.name st = []
                  \/ well_formed_name decimal (Statistic.name st)))
      (percentage_pass decimal content)
    /\ Forall (fun st => well_formed_name decimal (Statistic.name st))
         (large_number_pass decimal content)
    /\ extract_statistics decimal content source_url
       = percentage_pass decimal content ++ large_number_pass decimal content.
Proof.
  intros decimal content source_url.
  split; [|split; [|apply extract_statistics_passes]].
  - rewrite percentage_pass_map. apply Forall_forall. intros st Hst.
    apply in_flat_map in Hst as (m & Hm & Hst).
    apply (percentage_match_value decimal) in Hm as (before & after & Hc & Hv).
    unfold percentage_step in Hst. cbn [app] in Hst.
    destruct (infer_name decimal (group1 content m) (context_of content m))
      as [n|] eqn:Hn; destruct Hst as [<-|[]]; cbv beta;
      cbn [Statistic.value Statistic.name].
    + split; [exists (group1 content m), before, after; auto|].
      right. now apply (infer_name_well_formed decimal) in Hn.
    + split; [exists (group1 content m), before, after; auto|]. now left.
  - apply Forall_flat_map_each. intros m.
    destruct (number_step_cases decimal content m)
      as [->|(n & x & Hn & _ & _ & ->)]; constructor; [|constructor].
    now apply (infer_name_well_formed decimal) in Hn.
Qed.

(* ----------------------------------------------------------------- *)
(** ** The name search pattern compiles for every anchor *)

Lemma special_escape_item c :
  has_char c special_chars = true -> escape_item c = Ok (SChar c).
Proof.
  intros H. apply existsb_exists in H as (x & Hin & Hx).
  apply N.eqb_eq in Hx; subst x. vm_compute in Hin.
  repeat (destruct Hin as [<-|Hin]; [reflexivity|]). destruct Hin.
Qed.

Lemma nonspecial_plain c :
  has_char c special_chars = false -> plain c = true.
Proof.
  intros H. unfold plain. apply negb_true_iff.
  destruct (has_char c pattern_specials) eqn:E; [|reflexivity].
  apply existsb_exists in E as (x & Hin & Hx).
  apply N.eqb_eq in Hx; subst x. vm_compute in Hin.
  repeat (destruct Hin as [<-|Hin]; [vm_compute in H; discriminate|]).
  destruct Hin.
Qed.

Lemma parse_seq_escaped_step f c p1 g :
  has_char c special_chars = true -> parse_repeat p1 = Ok NoRepeat ->
  parse_seq (S f) (ch "\" :: c :: p1) g
  = bind (parse_seq f p1 g) (then_rest (RSeq (RLit c))).
Proof.
  intros Hc Hnext. cbn -[escape_item].
  rewrite (special_escape_item c Hc). cbn [bind].
  unfold with_repeat. rewrite Hnext. cbn [bind]. reflexivity.
Qed.

Lemma parse_repeat_escaped a rest :
  parse_repeat (re_escape a ++ ch ")" :: rest) = Ok NoRepeat.
Proof.
  destruct a as [|c a]; [reflexivity|].
  unfold re_escape. cbn [flat_map].
  destruct (has_char c special_chars) eqn:E; [reflexivity|].
  cbn [app]. apply parse_repeat_plain. now apply nonspecial_plain.
Qed.

Lemma literal_then_eps w : literal_then w REps = literal w.
Proof. induction w; simpl; congruence. Qed.

(** The escaped anchor is read as the sequence of its characters. *)
Lemma parse_seq_escaped a :
  forall f rest g,
    parse_seq (List.length (re_escape a) + S f)
      (re_escape a ++ ch ")" :: rest) g
    = Ok (literal a, ch ")" :: rest, g).
Proof.
  induction a as [|c a IH]; intros f rest g; [reflexivity|].
  change (re_escape (c :: a))
    with ((if has_char c special_chars then [ch "\"; c] else [c])
          ++ re_escape a).
  destruct (has_char c special_chars) eqn:E.
  - cbn [app List.length Nat.add].
    rewrite parse_seq_escaped_step; [|exact E|apply parse_repeat_escaped].
    replace (S (List.length (re_escape a) + S f))
      with (List.length (re_escape a) + S (S f)) by lia.
    rewrite IH. reflexivity.
  - cbn [app List.length Nat.add].
    rewrite parse_seq_plain_step;
      [|now apply nonspecial_plain|apply parse_repeat_escaped].
    rewrite IH. reflexivity.
Qed.

Lemma parse_alt_last a B rest g :
  List.length (re_escape a) < B ->
  parse_alt (S B) (re_escape a ++ ch ")" :: rest) g
  = Ok (literal a, ch ")" :: rest, g).
Proof.
  intros HB.
  replace B with (List.length (re_escape a)
                  + S (B - List.length (re_escape a) - 1)) by lia.
  cbn [parse_alt]. rewrite parse_seq_escaped. reflexivity.
Qed.

Lemma parse_alt_word w B tl g r2 p3 g2 :
  Forall (fun c => plain c = true) w -> List.length w < B ->
  parse_alt B tl g = Ok (r2, p3, g2) ->
  parse_alt (S B) (w ++ ch "|" :: tl) g = Ok (RAlt (literal w) r2, p3, g2).
Proof.
  intros Hw HB Htl. cbn [parse_alt].
  replace (parse_seq B (w ++ ch "|" :: tl) g)
    with (Ok (literal w, ch "|" :: tl, g)).
  - cbn [bind]. change (ch "|" =? ch "|")%N with true. cbv iota.
    rewrite Htl. reflexivity.
  - symmetry. rewrite <- literal_then_eps.
    replace B with (List.length w + S (B - List.length w - 1)) by lia.
    apply parse_seq_literal; [exact Hw|reflexivity|reflexivity].
Qed.

Lemma name_alternatives_parse a B rest g :
  List.length (re_escape a) + 7 <= B ->
  parse_alt B (py "的|是|为|达到|" ++ re_escape a ++ ch ")" :: rest) g
  = Ok (RAlt (literal (py "的"))
          (RAlt (literal (py "是"))
             (RAlt (literal (py "为"))
                (RAlt (literal (py "达到")) (literal a)))),
        ch ")" :: rest, g).
Proof.
  intros HB.
  destruct B as [|[|[|[|[|B]]]]]; try lia.
  change (py "的|是|为|达到|" ++ re_escape a ++ ch ")" :: rest)
    with (py "的" ++ ch "|" :: py "是" ++ ch "|" :: py "为" ++ ch "|"
          :: py "达到" ++ ch "|" :: re_escape a ++ ch ")" :: rest).
  apply (parse_alt_word (py "的"));
    [repeat constructor
    |change (List.length (py "的")) with 1; lia|].
  apply (parse_alt_word (py "是"));
    [repeat constructor
    |change (List.length (py "是")) with 1; lia|].
  apply (parse_alt_word (py "为"));
    [repeat constructor
    |change (List.length (py "为")) with 1; lia|].
  apply (parse_alt_word (py "达到"));
    [repeat constructor
    |change (List.length (py "达到")) with 2; lia|].
  apply parse_alt_last. lia.
Qed.

Lemma name_group_body_parses f rest :
  parse_alt (5 + f) (py "[^\s\d，,。]{2,10})" ++ rest) 1
  = Ok (RSeq
          (RRep 2 (Some 10) true
             (RSet true [SCat Space; SCat Digit; SChar (ch "，");
                         SChar (ch ","); SChar (ch "。")]))
          REps,
        ch ")" :: rest, 1).
Proof. cbn. reflexivity. Qed.

Lemma name_group_item f rest :
  parse_repeat rest = Ok NoRepeat ->
  parse_seq (S (5 + f)) (py "([^\s\d，,。]{2,10})" ++ rest) 0
  = bind (parse_seq (5 + f) rest 1)
      (then_rest
         (RSeq
            (RGroup 1
               (RSeq
                  (RRep 2 (Some 10) true
                     (RSet true [SCat Space; SCat Digit; SChar (ch "，");
                                 SChar (ch ","); SChar (ch "。")]))
                  REps)))).
Proof.
  intros Hrest. remember (5 + f) as F eqn:HF. cbn.
  match goal with
  | |- context [parse_alt F ?p 1] =>
    replace (parse_alt F p 1)
      with (parse_alt (5 + f) (py "[^\s\d，,。]{2,10})" ++ rest) 1)
      by (subst F; reflexivity)
  end.
  rewrite (name_group_body_parses f rest). cbn [bind expect_close].
  change (ch ")" =? ch ")")%N with true. cbv iota. cbn [bind].
  unfold with_repeat. rewrite Hrest. cbn [bind]. reflexivity.
Qed.

Lemma name_alternatives_item a F :
  List.length (re_escape a) + 7 <= F ->
  parse_seq (S F) (py "(?:" ++ py "的|是|为|达到|" ++ re_escape a ++ [ch ")"]) 1
  = Ok (RSeq
          (RAlt (literal (py "的"))
             (RAlt (literal (py "是"))
                (RAlt (literal (py "为"))
                   (RAlt (literal (py "达到")) (literal a)))))
          REps, [], 1).
Proof.
  intros HF.
  pose proof (name_alternatives_parse a F [] 1 HF) as Halt.
  destruct F as [|F']; [lia|]. remember (S F') as F eqn:EF.
  cbn -[re_escape].
  match goal with
  | |- context [parse_alt F ?p 1] =>
    replace (parse_alt F p 1)
      with (parse_alt F
              (py "的|是|为|达到|" ++ re_escape a ++ [ch ")"]) 1)
      by reflexivity
  end.
  rewrite Halt. cbn [bind expect_close].
  change (ch ")" =? ch ")")%N with true. cbv iota. cbn [bind].
  subst F. reflexivity.
Qed.

(** X4. For every anchor text, the pattern [extract_statistics]
    assembles around [re.escape(anchor)] compiles, and it compiles to
    [name_pattern anchor]: the class of name characters, 2 to 10 times,
    in group 1, followed by "的", "是", "为", "达到" or the anchor text
    itself, character by character. *)
Theorem name_pattern_compiles :
  forall anchor : str,
    re_compile (name_pattern_source anchor) = Ok (name_pattern anchor).
Proof.
  intros anchor. unfold re_compile, name_pattern_source.
  set (K := List.length (re_escape anchor)).
  replace (2 * List.length
             (py "([^\s\d，,。]{2,10})(?:的|是|为|达到|"
              ++ re_escape anchor ++ py ")") + 2)
    with (S (S (5 + S (K + (K + 56))))).
  2:{ rewrite !length_app. fold K.
      change (List.length (py "([^\s\d，,。]{2,10})(?:的|是|为|达到|")) with 30.
      change (List.length (py ")")) with 1. lia. }
  remember (S (5 + S (K + (K + 56)))) as A eqn:HA.
  cbn [parse_alt]. subst A.
  change (py "([^\s\d，,。]{2,10})(?:的|是|为|达到|"
          ++ re_escape anchor ++ py ")")
    with (py "([^\s\d，,。]{2,10})"
          ++ py "(?:" ++ py "的|是|为|达到|" ++ re_escape anchor ++ [ch ")"]).
  rewrite name_group_item by reflexivity.
  cbn [Nat.add].
  rewrite name_alternatives_item by (fold K; lia).
  reflexivity.
Qed.

(* ----------------------------------------------------------------- *)
(** ** Tables: which rows are kept, and what a row maps *)

Lemma parse_rows_filter headers ls rows :
  fold_left (parse_row headers) ls rows
  = rows ++ map (row_of headers) (filter (row_accepted headers) ls).
Proof.
  revert rows; induction ls as [|l ls IH]; intros rows; cbn [fold_left].
  - cbn. now rewrite app_nil_r.
  - rewrite IH. unfold parse_row at 1. cbn [filter]. unfold row_accepted at 2.
    destruct (nonempty_list (cells_of l)
              && (List.length headers <=? List.length (cells_of l))).
    + cbn [map]. unfold row_of at 2. now rewrite <- app_assoc.
    + reflexivity.
Qed.

(** X5. [_parse_table] gives nothing for a block of fewer than two lines
    and for a block none of whose data lines is accepted.  Otherwise the
    headers are the cells of the first line, the rows are the accepted
    data lines in their order (a line with no cell, or with fewer cells
    than headers, is dropped), [row_count] is their number, the raw
    content is the block, and the confidence is 0.9 for more than one
    row and 0.7 for one. *)
Theorem parse_table_rows :
  forall (table_lines : list str) (url : str),
    let headers := cells_of (hd [] table_lines) in
    let kept := filter (row_accepted headers) (tl table_lines) in
    match _parse_table table_lines url with
    | None => List.length table_lines < 2 \/ kept = []
    | Some t =>
      2 <= List.length table_lines
      /\ kept <> []
      /\ content_type t = py "table"
      /\ metadata_headers t = headers
      /\ structured_data t = map (row_of headers) kept
      /\ metadata_row_count t = List.length kept
      /\ raw_content t = join [10%N] table_lines
      /\ source_url t = url
      /\ confidence t = (if 1 <? List.length kept then 9 # 10 else 7 # 10)%Q
    end.
Proof.
  intros table_lines url headers kept. unfold _parse_table.
  destruct (List.length table_lines <? 2) eqn:Hlen.
  - left. now apply Nat.ltb_lt.
  - apply Nat.ltb_ge in Hlen. fold headers.
    rewrite parse_rows_filter. cbn [app]. fold kept.
    destruct kept as [|l kept'] eqn:Hk; cbn [map].
    + now right.
    + cbn. rewrite length_map. repeat split; try reflexivity; try assumption.
      discriminate.
Qed.

Lemma str_eqb_refl a : str_eqb a a = true.
Proof. now apply str_eqb_eq. Qed.

Lemma str_eqb_neq a b : a <> b -> str_eqb a b = false.
Proof.
  intros H. destruct (str_eqb a b) eqn:E; [|reflexivity].
  apply str_eqb_eq in E. contradiction.
Qed.

Section DictFacts.

Variable V : Type.

Lemma dict_get_set_same (k : str) (v : V) d :
  dict_get k (dict_set k v d) = Some v.
Proof.
  induction d as [|[k' v'] d IH]; cbn [dict_set dict_get].
  - now rewrite str_eqb_refl.
  - destruct (str_eqb k k') eqn:E; cbn [dict_get]; rewrite ?str_eqb_refl, ?E;
      [reflexivity|exact IH].
Qed.

Lemma dict_get_set_other (k k' : str) (v : V) d :
  k <> k' -> dict_get k' (dict_set k v d) = dict_get k' d.
Proof.
  intros Hne.
  assert (E2 : str_eqb k' k = false) by (apply str_eqb_neq; congruence).
  induction d as [|[k0 v0] d IH]; cbn [dict_set dict_get].
  - now rewrite E2.
  - destruct (str_eqb k k0) eqn:E; cbn [dict_get].
    + apply str_eqb_eq in E; subst k0. now rewrite E2.
    + now rewrite IH.
Qed.

Lemma keys_dict_set_new (k : str) (v : V) d :
  ~ In k (keys d) -> keys (dict_set k v d) = keys d ++ [k].
Proof.
  induction d as [|[k0 v0] d IH]; intros Hnot; cbn [dict_set keys map app fst].
  - reflexivity.
  - rewrite str_eqb_neq by (intros ->; apply Hnot; now left).
    cbn [map fst]. f_equal. apply IH. intros Hin. apply Hnot. now right.
Qed.

Lemma dict_set_in_keys (k : str) (v : V) d k' :
  In k' (keys (dict_set k v d)) <-> k' = k \/ In k' (keys d).
Proof.
  induction d as [|[k0 v0] d IH]; cbn [dict_set keys map fst In].
  - intuition.
  - destruct (str_eqb k k0) eqn:E; cbn [map fst In].
    + apply str_eqb_eq in E; subst k0. intuition.
    + unfold keys in IH. rewrite IH. intuition.
Qed.

End DictFacts.

Section RowFacts.

Lemma fill_row_spec headers :
  forall i cells row,
    i + List.length headers <= List.length cells ->
    NoDup (keys row ++ headers) ->
    keys (fill_row headers i cells row) = keys row ++ headers
    /\ (forall j h, nth_error headers j = Some h ->
          dict_get h (fill_row headers i cells row) = nth_error cells (i + j))
    /\ (forall k, In k (keys row) ->
          dict_get k (fill_row headers i cells row) = dict_get k row).
Proof.
  induction headers as [|h hs IH]; intros i cells row Hlen Hnd;
    cbn [fill_row].
  - rewrite app_nil_r. split; [reflexivity|]. split.
    + intros [|j] h0 Hj; discriminate.
    + reflexivity.
  - cbn [List.length] in Hlen.
    destruct (nth_error cells i) as [c|] eqn:Hc;
      [|apply nth_error_None in Hc; lia].
    assert (Hh : ~ In h (keys row)).
    { apply NoDup_remove_2 in Hnd. intros Hin. apply Hnd.
      apply in_or_app. now left. }
    destruct (IH (S i) cells (dict_set h c row)) as (Hk & Hget & Hold).
    + lia.
    + rewrite keys_dict_set_new by exact Hh.
      rewrite <- app_assoc. exact Hnd.
    + rewrite keys_dict_set_new in Hk, Hold by exact Hh.
      rewrite <- app_assoc in Hk. split; [exact Hk|]. split.
      * intros [|j] h0 Hj; cbn [nth_error] in Hj.
        -- inversion Hj; subst h0. rewrite Hold by (apply in_or_app; right; now left).
           rewrite dict_get_set_same, Nat.add_0_r. now symmetry.
        -- rewrite (Hget j h0 Hj). f_equal. lia.
      * intros k Hin. rewrite Hold by (apply in_or_app; now left).
        apply dict_get_set_other. intros ->. contradiction.
Qed.

Lemma fill_row_keys_subset headers :
  forall i cells row k,
    In k (keys (fill_row headers i cells row)) ->
    In k (keys row) \/ In k headers.
Proof.
  induction headers as [|h hs IH]; intros i cells row k Hin; cbn [fill_row] in Hin.
  - now left.
  - apply IH in Hin as [Hin|Hin]; [|right; now right].
    destruct (nth_error cells i); [|now left].
    apply dict_set_in_keys in Hin as [->|Hin]; [right; now left|now left].
Qed.

End RowFacts.

(** X6. The row mapping of an accepted data line under pairwise
    distinct headers is the positional zip: its keys are the headers in
    their order, and the j-th header maps to the j-th cell of the line
    (cells beyond the headers are ignored).  Whatever the headers, every
    key of a row mapping is one of the headers. *)
Theorem row_mapping_positional :
  forall (headers : list str) (line : str),
    (row_accepted headers line = true -> NoDup headers ->
     keys (row_of headers line) = headers
     /\ forall j h, nth_error headers j = Some h ->
          dict_get h (row_of headers line) = nth_error (cells_of line) j)
    /\ Forall (fun k => In k headers) (keys (row_of headers line)).
Proof.
  intros headers line. split.
  - intros Hacc Hnd. unfold row_accepted in Hacc.
    apply andb_true_iff in Hacc as [_ Hlen]. apply Nat.leb_le in Hlen.
    destruct (fill_row_spec headers 0 (cells_of line) []) as (Hk & Hget & _);
      [simpl; lia|exact Hnd|].
    split; [exact Hk|exact Hget].
  - apply Forall_forall. intros k Hin.
    apply fill_row_keys_subset in Hin as [[]|Hin]. exact Hin.
Qed.

Lemma row_mapping_positional_witness :
  keys (row_of [py "月份"; py "销量"] (py "| 1月 | 68.8 | 78% |"))
  = [py "月份"; py "销量"]
  /\ dict_get (py "销量")
       (row_of [py "月份"; py "销量"] (py "| 1月 | 68.8 | 78% |"))
     = Some (py "68.8").
Proof.
  destruct (proj1 (row_mapping_positional [py "月份"; py "销量"]
                     (py "| 1月 | 68.8 | 78% |")))
    as [Hk Hget].
  - reflexivity.
  - repeat constructor; simpl; intuition discriminate.
  - split; [exact Hk|]. apply (Hget 1). reflexivity.
Defined.

(* ----------------------------------------------------------------- *)
(** ** Tables come from blocks of the text *)

Lemma table_of_block_extend lines line url t :
  table_of_block lines url t -> table_of_block (lines ++ [line]) url t.
Proof.
  intros (a & b & c & -> & Hb & Ht). exists a, b, (c ++ [line]).
  rewrite <- !app_assoc. auto.
Qed.

Lemma tables_fold_blocks url lines :
  forall done tables current,
    Forall (table_of_block done url) tables ->
    (exists d, done = d ++ current) ->
    Forall (fun l => has_char (ch "|") l = true) current ->
    let st := fold_left (tables_step url) lines (tables, current) in
    Forall (table_of_block (done ++ lines) url) (fst st)
    /\ (exists d, done ++ lines = d ++ snd st)
    /\ Forall (fun l => has_char (ch "|") l = true) (snd st).
Proof.
  induction lines as [|line lines IH]; intros done tables current Ht Hd Hc.
  - cbn. rewrite app_nil_r. auto.
  - cbn [fold_left].
    replace (done ++ line :: lines) with ((done ++ [line]) ++ lines)
      by (now rewrite <- app_assoc).
    assert (Ht' : Forall (table_of_block (done ++ [line]) url) tables)
      by (eapply Forall_impl; [|exact Ht];
          intros t; apply table_of_block_extend).
    assert (Hstep :
      Forall (table_of_block (done ++ [line]) url)
        (fst (tables_step url (tables, current) line))
      /\ (exists d, done ++ [line]
                    = d ++ snd (tables_step url (tables, current) line))
      /\ Forall (fun l => has_char (ch "|") l = true)
           (snd (tables_step url (tables, current) line))).
    { unfold tables_step.
      destruct (has_char (ch "|") line) eqn:Hline; cbn [fst snd].
      - split; [exact Ht'|]. split.
        + destruct Hd as (d & ->). exists d. now rewrite <- app_assoc.
        + apply Forall_app; split; [exact Hc|]. now constructor.
      - destruct current as [|l0 current]; cbn [fst snd].
        + split; [exact Ht'|]. split; [|constructor].
          exists (done ++ [line]). now rewrite app_nil_r.
        + destruct (_parse_table (l0 :: current) url) as [t|] eqn:Hp;
            cbn [fst snd];
            (split; [|split; [exists (done ++ [line]); now rewrite app_nil_r
                             |constructor]]);
            [|exact Ht'].
          apply Forall_app; split; [exact Ht'|]. constructor; [|constructor].
          destruct Hd as (d & ->). exists d, (l0 :: current), [line].
          rewrite <- app_assoc. auto. }
    destruct (tables_step url (tables, current) line) as [tables1 current1].
    cbn [fst snd] in Hstep. destruct Hstep as (H1 & H2 & H3).
    now apply IH.
Qed.

(** X7. Every table [extract_tables] returns was read from a block of
    consecutive lines of the text that all hold a [|]: the block has at
    least two lines and is the table's raw content, the table has at
    least one row and counts its rows in [row_count], and it carries
    the given source locator.  The extractor's accumulator is extended
    by exactly the tables returned. *)
Theorem extract_tables_blocks :
  forall (self : DataExtractor) (content url : str),
    extracted_data (snd (extract_tables self content url))
    = extracted_data self ++ fst (extract_tables self content url)
    /\ Forall (fun t =>
                 exists before block after,
                   split 10%N content = before ++ block ++ after
                   /\ Forall (fun l => has_char (ch "|") l = true) block
                   /\ 2 <= List.length block
                   /\ raw_content t = join [10%N] block
                   /\ 1 <= List.length (structured_data t)
                   /\ metadata_row_count t = List.length (structured_data t)
                   /\ source_url t = url)
         (fst (extract_tables self content url)).
Proof.
  intros self content url.
  assert (Hshape : forall t block,
            _parse_table block url = Some t ->
            2 <= List.length block
            /\ raw_content t = join [10%N] block
            /\ 1 <= List.length (structured_data t)
            /\ metadata_row_count t = List.length (structured_data t)
            /\ source_url t = url).
  { intros t block Ht. pose proof (parse_table_rows block url) as H.
    cbv zeta in H. rewrite Ht in H.
    destruct H as (H2 & Hne & _ & _ & Hrows & Hcount & Hraw & Hurl & _).
    rewrite Hrows, length_map. repeat split; try assumption.
    destruct (filter _ _); [congruence|simpl; lia]. }
  assert (Hall : Forall (table_of_block (split 10%N content) url)
                   (fst (extract_tables self content url))).
  { unfold extract_tables.
    pose proof (tables_fold_blocks url (split 10%N content) [] [] []
                  (Forall_nil _) (ex_intro _ [] eq_refl) (Forall_nil _)) as H.
    cbv zeta in H. cbn [app] in H.
    destruct (fold_left (tables_step url) (split 10%N content) ([], []))
      as [tables current].
    cbn [fst snd] in H. destruct H as (Ht & (d & Hd) & Hc).
    destruct current as [|l0 current]; [exact Ht|].
    destruct (_parse_table (l0 :: current) url) as [t|] eqn:Hp;
      [|exact Ht].
    cbn [fst]. apply Forall_app; split; [exact Ht|]. constructor; [|constructor].
    exists d, (l0 :: current), []. rewrite app_nil_r. auto. }
  split.
  - unfold extract_tables.
    destruct (fold_left _ _ _) as [tables current]. reflexivity.
  - eapply Forall_impl; [|exact Hall].
    intros t (a & b & c & Hs & Hb & Ht).
    destruct (Hshape t b Ht) as (H2 & Hraw & H1 & Hcount & Hurl).
    exists a, b, c. repeat split; assumption.
Qed.

(* ----------------------------------------------------------------- *)
(** ** Texts without digits *)

Section DigitFacts.

Variable decimal : char -> option N.

Lemma den_needs_digit r :
  needs_digit r = true ->
  forall a b, den decimal r a b ->
    exists w, fst (fst a) = w ++ fst (fst b)
              /\ Exists (fun c => is_digit decimal c = true) w.
Proof.
  induction r as [|c| |negate items|r1 IH1 r2 IH2|r1 IH1 r2 IH2
                  |lo hi greedy r1 IH1|n r1 IH1]; intros Hn a b H;
    cbn [needs_digit] in Hn; try discriminate.
  - destruct negate; [discriminate|].
    destruct items as [|[| |[| | |]] [|]]; try discriminate.
    destruct a as [[s i] cs], b as [[s' i'] cs'].
    destruct H as (c & -> & Hc & _). exists [c]. split; [reflexivity|].
    constructor. now rewrite digit_set_spec in Hc.
  - destruct H as (c & H1 & H2).
    destruct (den_advances decimal r1 _ _ H1) as (w1 & E1 & _).
    destruct (den_advances decimal r2 _ _ H2) as (w2 & E2 & _).
    apply orb_true_iff in Hn as [Hn|Hn].
    + destruct (IH1 Hn _ _ H1) as (w & Ew & Hw).
      exists (w ++ w2). rewrite Ew, E2, <- app_assoc. split; [reflexivity|].
      apply Exists_app. now left.
    + destruct (IH2 Hn _ _ H2) as (w & Ew & Hw).
      exists (w1 ++ w). rewrite E1, Ew, <- app_assoc. split; [reflexivity|].
      apply Exists_app. now right.
  - apply andb_true_iff in Hn as [N1 N2].
    destruct H as [H|H]; [now apply IH1|now apply IH2].
  - apply andb_true_iff in Hn as [Hlo Hn]. apply Nat.ltb_lt in Hlo.
    destruct H as (k & Hk & _ & Hiter).
    destruct k as [|k]; [lia|]. cbn [iter] in Hiter.
    destruct Hiter as (c & H1 & Hrest).
    destruct (IH1 Hn _ _ H1) as (w & Ew & Hw).
    destruct (iter_advances (den decimal r1) (den_advances decimal r1)
                _ _ _ Hrest) as (w2 & E2 & _).
    exists (w ++ w2). rewrite Ew, E2, <- app_assoc. split; [reflexivity|].
    apply Exists_app. now left.
  - destruct H as (s' & i' & cs' & H & ->).
    destruct (IH1 Hn _ _ H) as (w & Ew & Hw).
    exists w. split; [exact Ew|exact Hw].
Qed.

Lemma search_without_digits r s i :
  needs_digit r = true ->
  Forall (fun c => is_digit decimal c = false) s ->
  search_at decimal r s i = None.
Proof.
  intros Hn Hs.
  destruct (search_at decimal r s i) as [m|] eqn:E; [|reflexivity].
  apply search_at_sound in E as (sk & s0 & -> & _ & Hm).
  apply rmatch_sound in Hm as (s' & e & cs' & Hden & _).
  apply (den_needs_digit r Hn) in Hden as (w & Ew & Hw). simpl in Ew. subst s0.
  apply Exists_exists in Hw as (c & Hin & Hc).
  rewrite Forall_forall in Hs. rewrite Hs in Hc; [discriminate|].
  apply in_or_app. right. apply in_or_app. now left.
Qed.

Lemma finditer_without_digits r s :
  needs_digit r = true ->
  Forall (fun c => is_digit decimal c = false) s ->
  finditer decimal r s = [].
Proof.
  intros Hn Hs. unfold finditer. cbn [finditer_from].
  now rewrite search_without_digits.
Qed.

Lemma needs_digit_literal_then m r :
  needs_digit r = true -> needs_digit (literal_then m r) = true.
Proof. intros H. induction m; simpl; auto. Qed.

End DigitFacts.

(** X8. A text that holds no decimal digit gives nothing: no statistic,
    no timeline event, and no key-metric record for names of plain
    characters; none of the three calls raises.  The empty text is a
    case of this. *)
Theorem nothing_without_digits :
  forall (decimal : char -> option N) (content source_url : str)
         (metric_names : list str),
    Forall (fun c => is_digit decimal c = false) content ->
    Forall (Forall (fun c => plain c = true)) metric_names ->
    extract_statistics decimal content source_url = []
    /\ extract_timeline decimal content source_url = Ok []
    /\ extract_key_metrics decimal content metric_names source_url = Ok [].
Proof.
  intros decimal content source_url metric_names Hc Hplain.
  split; [|split].
  - unfold extract_statistics, percentage_pass.
    rewrite !finditer_without_digits by (reflexivity || exact Hc).
    reflexivity.
  - unfold extract_timeline, collect_events.
    assert (H : forall pats acc,
              Forall (fun r => needs_digit r = true) pats ->
              for_each
                (fun events pattern =>
                   for_each (timeline_step decimal content)
                     (finditer decimal pattern content) events)
                pats acc = Ok acc).
    { induction pats as [|r pats IH]; intros acc Hp; [reflexivity|].
      inversion Hp; subst. cbn [for_each].
      rewrite finditer_without_digits by assumption.
      cbn [for_each bind]. now apply IH. }
    rewrite H by (repeat constructor). reflexivity.
  - unfold extract_key_metrics.
    induction Hplain as [|m ms Hm _ IH]; [reflexivity|].
    cbn [for_each]. unfold metric_step at 1.
    rewrite (forward_pattern_compiles m Hm), (reverse_pattern_compiles m Hm).
    cbn [bind]. unfold re_search.
    rewrite !search_without_digits;
      [exact IH|apply needs_digit_literal_then; reflexivity|exact Hc
      |reflexivity|exact Hc].
Qed.

Lemma nothing_without_digits_witness :
  extract_statistics ascii_decimal (py "市场表现亮眼。| 月份 |") [] = []
  /\ extract_timeline ascii_decimal (py "市场表现亮眼。| 月份 |") [] = Ok []
  /\ extract_key_metrics ascii_decimal (py "市场表现亮眼。| 月份 |")
       [py "销量"] [] = Ok [].
Proof.
  assert (H1 : Forall (fun c => is_digit ascii_decimal c = false)
                 (py "市场表现亮眼。| 月份 |"))
    by (vm_compute; repeat constructor).
  assert (H2 : Forall (Forall (fun c => plain c = true)) [py "销量"])
    by (vm_compute; repeat constructor).
  exact (nothing_without_digits ascii_decimal (py "市场表现亮眼。| 月份 |") []
           [py "销量"] H1 H2).
Defined.

(* ----------------------------------------------------------------- *)
(** ** The description pattern of the timeline *)

Lemma parse_set_safe date :
  forall fuel rest acc,
    Forall (fun c => set_safe c = true) date ->
    List.length date < fuel ->
    (acc <> [] \/ date <> []) ->
    parse_set fuel (date ++ ch "]" :: rest) acc
    = Ok (rev acc ++ map SChar date, rest).
Proof.
  induction date as [|c date IH]; intros fuel rest acc Hsafe Hfuel Hne;
    (destruct fuel as [|f]; [simpl in Hfuel; lia|]).
  - destruct Hne as [Hne|Hne]; [|congruence].
    cbn [app parse_set]. rewrite N.eqb_refl.
    destruct acc; [congruence|]. cbn [List.length Nat.eqb negb andb map].
    now rewrite app_nil_r.
  - inversion Hsafe as [|? ? Hc Hrest]; subst.
    unfold set_safe in Hc.
    rewrite !andb_true_iff, !negb_true_iff in Hc.
    destruct Hc as [[Hc1 Hc2] Hc3].
    cbn [app parse_set]. rewrite Hc1. cbn [andb].
    unfold set_member. rewrite Hc2. cbn [bind].
    assert (Hnext : exists d p3, date ++ ch "]" :: rest = d :: p3
                                 /\ (d =? ch "-")%N = false).
    { destruct date as [|d date].
      - exists (ch "]"), rest. split; reflexivity.
      - inversion Hrest as [|? ? Hd _]; subst. unfold set_safe in Hd.
        rewrite !andb_true_iff, !negb_true_iff in Hd.
        exists d, (date ++ ch "]" :: rest). split; [reflexivity|tauto]. }
    destruct Hnext as (d & p3 & E & Hd). rewrite E, Hd, <- E.
    rewrite IH; [|exact Hrest|simpl in Hfuel; lia|left; discriminate].
    cbn [rev map]. now rewrite <- app_assoc.
Qed.

Lemma description_suffix_parses f :
  parse_seq (10 + f) (py "[^\n。]{0,60}") 0
  = Ok (RSeq (RRep 0 (Some 60) true gap_chars) REps, [], 0).
Proof. reflexivity. Qed.

(** For a date token without [\], []] and [-] that does not begin with
    [^], the description pattern compiles to a set of the token's
    characters followed by the 60-character run. *)
Lemma description_pattern_compiles date :
  date <> [] ->
  Forall (fun c => set_safe c = true) date ->
  (forall c t, date = c :: t -> (c =? ch "^")%N = false) ->
  re_compile (description_pattern date) = Ok (description_regex date).
Proof.
  intros Hne Hsafe Hfirst. unfold re_compile, description_pattern.
  replace (2 * List.length (py "[" ++ date ++ py "][^\n。]{0,60}") + 2)
    with (S (S (10 + (2 * List.length date + 18)))).
  2:{ rewrite !length_app.
      change (List.length (py "[")) with 1.
      change (List.length (py "][^\n。]{0,60}")) with 13. lia. }
  remember (10 + (2 * List.length date + 18)) as F eqn:HF.
  change (py "[" ++ date ++ py "][^\n。]{0,60}")
    with (ch "[" :: date ++ ch "]" :: py "[^\n。]{0,60}").
  cbn [parse_alt parse_seq].
  change ((ch "[" =? ch "|")%N || (ch "[" =? ch ")")%N) with false.
  change (ch "[" =? ch "(")%N with false.
  change (ch "[" =? ch "[")%N with true. cbv iota.
  destruct date as [|c date]; [congruence|].
  cbn [app]. rewrite (Hfirst c date eq_refl).
  change (c :: date ++ ch "]" :: py "[^\n。]{0,60}")
    with ((c :: date) ++ ch "]" :: py "[^\n。]{0,60}").
  rewrite parse_set_safe;
    [|exact Hsafe|rewrite length_app; simpl; lia|right; discriminate].
  cbn [bind rev app]. unfold with_repeat.
  change (parse_repeat (py "[^\n。]{0,60}")) with (@Ok repeat_op NoRepeat).
  cbn [bind]. subst F. rewrite description_suffix_parses. reflexivity.
Qed.

(* ----------------------------------------------------------------- *)
(** ** Timeline events are found in the text *)

Section TimelineFacts.

Variable decimal : char -> option N.

Lemma iter_leaves (R : mstate -> mstate -> Prop) (P : char -> Prop) :
  (forall a b, R a b ->
     exists w, fst (fst a) = w ++ fst (fst b) /\ Forall P w) ->
  forall n a b, iter R n a b ->
    exists w, fst (fst a) = w ++ fst (fst b) /\ Forall P w.
Proof.
  intros HR n; induction n as [|n IH]; intros a b H; simpl in H.
  - subst b. exists []. split; [reflexivity|constructor].
  - destruct H as (c & Hac & Hcb).
    apply HR in Hac as (w1 & E1 & L1). apply IH in Hcb as (w2 & E2 & L2).
    exists (w1 ++ w2). rewrite E1, E2, <- app_assoc.
    split; [reflexivity|]. apply Forall_app. auto.
Qed.

(** The characters a match takes in are characters its pattern accepts. *)
Lemma den_leaves r :
  forall a b, den decimal r a b ->
    exists w, fst (fst a) = w ++ fst (fst b)
              /\ Forall (fun c => leaf_accepts decimal r c = true) w.
Proof.
  assert (Hstep : forall ok a b, step_char ok a b ->
            exists w, fst (fst a) = w ++ fst (fst b)
                      /\ Forall (fun c => ok c = true) w).
  { intros ok [[s i] cs] [[s' i'] cs'] (c & -> & Hc & _).
    exists [c]. split; [reflexivity|]. now constructor. }
  induction r as [|c| |negate items|r1 IH1 r2 IH2|r1 IH1 r2 IH2
                  |lo hi greedy r1 IH1|n r1 IH1]; intros a b H;
    cbn [den leaf_accepts] in *.
  - subst b. exists []. split; [reflexivity|constructor].
  - now apply Hstep in H.
  - now apply Hstep in H.
  - now apply Hstep in H.
  - destruct H as (c & H1 & H2).
    apply IH1 in H1 as (w1 & E1 & L1). apply IH2 in H2 as (w2 & E2 & L2).
    exists (w1 ++ w2). rewrite E1, E2, <- app_assoc.
    split; [reflexivity|]. apply Forall_app. split.
    + eapply Forall_impl; [|exact L1]. intros x Hx. now rewrite Hx.
    + eapply Forall_impl; [|exact L2]. intros x Hx. rewrite Hx.
      apply orb_true_r.
  - destruct H as [H|H].
    + apply IH1 in H as (w & E & L). exists w. split; [exact E|].
      eapply Forall_impl; [|exact L]. intros x Hx. now rewrite Hx.
    + apply IH2 in H as (w & E & L). exists w. split; [exact E|].
      eapply Forall_impl; [|exact L]. intros x Hx. rewrite Hx.
      apply orb_true_r.
  - destruct H as (n & _ & _ & H).
    eapply iter_leaves; [|exact H]. exact IH1.
  - destruct H as (s' & i' & cs' & H & ->). apply IH1 in H. exact H.
Qed.

(** A match of a pattern that is one group: group 1 is the whole match. *)
Lemma group1_whole_match body content m :
  group_free body = true -> needs_digit body = true ->
  In m (finditer decimal (RSeq (RGroup 1 body) REps) content) ->
  exists before after,
    content = before ++ group1 content m ++ after
    /\ m_start m = List.length before
    /\ Exists (fun c => is_digit decimal c = true) (group1 content m)
    /\ Forall (fun c => leaf_accepts decimal body c = true)
         (group1 content m).
Proof.
  intros Hgf Hnd H. apply finditer_sound in H as (before & s0 & Hc & Hs & Hm).
  apply rmatch_sound in Hm as (s' & e & cs' & Hden & Hacc).
  unfold accept in Hacc. inversion Hacc; subst e cs'; clear Hacc.
  destruct Hden as ([[s1 i1] cs1] & (s4 & i4 & cs4 & Hbody & Hb) & Hend).
  injection Hb as -> -> ->. injection Hend as E1 E2 E3.
  pose proof (den_group_free decimal body Hgf _ _ Hbody) as Hcs.
  cbn [snd] in Hcs. subst cs4.
  destruct (den_advances decimal body _ _ Hbody) as (w & Ew & Ei).
  cbn [fst snd] in Ew, Ei.
  destruct (den_needs_digit decimal body Hnd _ _ Hbody) as (w1 & Ew1 & Hd).
  destruct (den_leaves body _ _ Hbody) as (w2 & Ew2 & Hl).
  cbn [fst snd] in Ew1, Ew2.
  assert (w1 = w) by (rewrite Ew in Ew1; now apply app_inv_tail in Ew1).
  assert (w2 = w) by (rewrite Ew in Ew2; now apply app_inv_tail in Ew2).
  subst w1 w2.
  assert (Hg : group1 content m = w).
  { apply (group1_of_match content before s0 w s4 m []); try assumption.
    rewrite <- E3, Ei. reflexivity. }
  rewrite Hg. exists before, s4. subst. repeat split; assumption.
Qed.

Lemma time_patterns_shape p :
  In p time_patterns ->
  exists body, p = RSeq (RGroup 1 body) REps
               /\ group_free body = true /\ needs_digit body = true.
Proof.
  intros H. unfold time_patterns in H. cbn [In] in H.
  repeat (destruct H as [<-|H];
          [eexists; split; [reflexivity|split; reflexivity]|]).
  destruct H.
Qed.

Lemma time_patterns_chars (Hsane : ascii_digits_only decimal) p c :
  In p time_patterns -> leaf_accepts decimal p c = true ->
  c <> ch "]" /\ c <> ch "\" /\ c <> ch "^".
Proof.
  intros Hp Hc.
  assert (H93 : decimal 93%N = None) by (apply Hsane; reflexivity).
  assert (H92 : decimal 92%N = None) by (apply Hsane; reflexivity).
  assert (H94 : decimal 94%N = None) by (apply Hsane; reflexivity).
  assert (Hbad : forall x, In x [93; 92; 94]%N ->
                           leaf_accepts decimal p x = false).
  { intros x Hx. unfold time_patterns in Hp. cbn [In] in Hp, Hx.
    repeat (destruct Hp as [<-|Hp];
            [repeat (destruct Hx as [<-|Hx];
                     [cbn; unfold is_digit; cbn;
                      rewrite ?H93, ?H92, ?H94; reflexivity|]);
             destruct Hx|]).
    destruct Hp. }
  repeat split; intros ->; rewrite Hbad in Hc; try discriminate;
    cbn; auto.
Qed.

Lemma for_each_invariant_in {A B} (P : B -> Prop) (f : B -> A -> result B) l :
  (forall acc x acc', In x l -> P acc -> f acc x = Ok acc' -> P acc') ->
  forall acc out, P acc -> for_each f l acc = Ok out -> P out.
Proof.
  induction l as [|x l IH]; intros Hf acc out Hacc Hrun; simpl in Hrun.
  - now inversion Hrun; subst.
  - destruct (f acc x) as [acc'| |] eqn:Hx; simpl in Hrun; try discriminate.
    eapply IH; [|exact (Hf acc x acc' (or_introl eq_refl) Hacc Hx)|exact Hrun].
    intros a y a' Hy. apply Hf. now right.
Qed.

Lemma time_match_located content p m :
  In p time_patterns -> In m (finditer decimal p content) ->
  exists before after,
    content = before ++ group1 content m ++ after
    /\ m_start m = List.length before
    /\ Exists (fun c => is_digit decimal c = true) (group1 content m)
    /\ Forall (fun c => leaf_accepts decimal p c = true) (group1 content m).
Proof.
  intros Hp Hm. destruct (time_patterns_shape p Hp) as (body & -> & Hgf & Hnd).
  destruct (group1_whole_match body content m Hgf Hnd Hm)
    as (before & after & Hc & Hs & Hd & Hl).
  exists before, after. repeat split; try assumption.
  eapply Forall_impl; [|exact Hl]. intros c Hc'. cbn [leaf_accepts].
  now rewrite Hc'.
Qed.

Lemma timeline_step_located content p acc m acc' :
  In p time_patterns -> In m (finditer decimal p content) ->
  Forall (located decimal content) acc ->
  timeline_step decimal content acc m = Ok acc' ->
  Forall (located decimal content) acc'.
Proof.
  intros Hp Hm Hacc. unfold timeline_step.
  destruct (re_compile _) as [r| |]; cbn [bind]; try discriminate.
  destruct (re_search decimal r _) as [em|]; intros H; inversion H; subst;
    [|exact Hacc].
  apply Forall_app; split; [exact Hacc|]. constructor; [|constructor].
  destruct (time_match_located content p m Hp Hm)
    as (before & after & Hc & Hs & Hd & _).
  exists before, after. auto.
Qed.

Lemma collect_events_located content events :
  collect_events decimal content = Ok events ->
  Forall (located decimal content) events.
Proof.
  unfold collect_events.
  apply (for_each_invariant_in (Forall (located decimal content))); [|constructor].
  intros acc p acc' Hp Hacc.
  apply (for_each_invariant_in (Forall (located decimal content))); [|exact Hacc].
  intros a m a' Hm Ha. now apply (timeline_step_located content p).
Qed.

Lemma timeline_step_safe (Hsane : ascii_digits_only decimal) content p acc m :
  has_char (ch "-") content = false ->
  In p time_patterns -> In m (finditer decimal p content) ->
  exists acc', timeline_step decimal content acc m = Ok acc'.
Proof.
  intros Hno Hp Hm.
  destruct (time_match_located content p m Hp Hm)
    as (before & after & Hc & Hs & Hd & Hl).
  unfold timeline_step. rewrite description_pattern_compiles.
  - cbn [bind]. destruct (re_search _ _ _); eauto.
  - intros E. rewrite E in Hd. inversion Hd.
  - apply Forall_forall. intros c Hin.
    rewrite Forall_forall in Hl.
    destruct (time_patterns_chars Hsane p c Hp (Hl c Hin)) as (H1 & H2 & _).
    assert (H3 : c <> ch "-").
    { intros ->. assert (has_char (ch "-") content = true); [|congruence].
      apply existsb_exists. exists (ch "-"). split; [|apply N.eqb_refl].
      rewrite Hc. apply in_or_app. right. apply in_or_app. now left. }
    unfold set_safe. apply N.eqb_neq in H1, H2, H3. now rewrite H1, H2, H3.
  - intros c t E. rewrite Forall_forall in Hl.
    destruct (time_patterns_chars Hsane p c Hp) as (_ & _ & H4).
    + apply Hl. rewrite E. now left.
    + now apply N.eqb_neq.
Qed.

End TimelineFacts.

(** X9. Every event [extract_timeline] returns reports a date token that
    stands in the text at the event's offset and holds a digit.  When
    the text holds no [-], the call does not raise (given that, as in
    every Unicode database, the decimal digits below U+0080 are the
    ASCII digits). *)
Theorem timeline_events_located :
  forall (decimal : char -> option N) (content source_url : str),
    (forall events,
        extract_timeline decimal content source_url = Ok events ->
        Forall (located decimal content) events)
    /\ (ascii_digits_only decimal ->
        has_char (ch "-") content = false ->
        exists events,
          extract_timeline decimal content source_url = Ok events).
Proof.
  intros decimal content source_url. split.
  - intros events. unfold extract_timeline.
    destruct (collect_events decimal content) as [raw| |] eqn:Hraw;
      cbn [bind]; try discriminate.
    intros H; inversion H; subst; clear H.
    apply collect_events_located in Hraw.
    apply Forall_forall. intros e He.
    apply unique_from_in in He as [He _].
    apply (proj1 (sort_events_in e raw)) in He.
    rewrite Forall_forall in Hraw. now apply Hraw.
  - intros Hsane Hno. unfold extract_timeline.
    assert (Hok : exists raw, collect_events decimal content = Ok raw).
    { unfold collect_events.
      destruct (for_each_ok (fun _ : list Event.t => True)
                  (fun events pattern =>
                     for_each (timeline_step decimal content)
                       (finditer decimal pattern content) events)
                  time_patterns) with (acc := @nil Event.t)
        as (out & Hout & _); [|exact I|eauto].
      intros acc p Hp _.
      destruct (for_each_ok (fun _ : list Event.t => True)
                  (timeline_step decimal content)
                  (finditer decimal p content)) with (acc := acc)
        as (out & Hout & _); [|exact I|eauto].
      intros a m Hm _.
      destruct (timeline_step_safe decimal Hsane content p a m Hno Hp Hm)
        as (a' & Ha). eauto. }
    destruct Hok as (raw & ->). cbn [bind]. eauto.
Qed.

Lemma timeline_events_located_witness :
  exists events,
    extract_timeline ascii_decimal (py "2024/03/15 发布，Q3 2024 量产") []
    = Ok events
    /\ Forall (located ascii_decimal (py "2024/03/15 发布，Q3 2024 量产"))
         events.
Proof.
  destruct (proj2 (timeline_events_located ascii_decimal
                     (py "2024/03/15 发布，Q3 2024 量产") []))
    as (events & Hrun).
  - intros c Hlt Hnd. unfold ascii_decimal. now rewrite Hnd.
  - reflexivity.
  - exists events. split; [exact Hrun|].
    exact (proj1 (timeline_events_located ascii_decimal
                    (py "2024/03/15 发布，Q3 2024 量产") []) events Hrun).
Defined.

(* ----------------------------------------------------------------- *)
(** ** The window in which the unit of a large number is looked up *)

Lemma skipn_firstn_swap {A} (c n : nat) (l : list A) :
  skipn c (firstn n l) = firstn (n - c) (skipn c l).
Proof.
  revert n l; induction c as [|c IH]; intros n l.
  - now rewrite Nat.sub_0_r.
  - destruct n as [|n]; [reflexivity|].
    destruct l as [|x l]; [cbn; now rewrite firstn_nil|].
    cbn [firstn skipn Nat.sub]. apply IH.
Qed.

Lemma slice_of_slice (s : str) (a b c d : nat) :
  slice (slice s a b) c d
  = firstn (Nat.min (d - c) (b - a - c)) (skipn (a + c) s).
Proof.
  unfold slice. rewrite skipn_firstn_swap, skipn_skipn, firstn_firstn.
  now rewrite (Nat.add_comm c a).
Qed.

Lemma finditer_bounds decimal r s m :
  In m (finditer decimal r s) -> m_start m <= m_end m.
Proof.
  intros H. apply finditer_sound in H as (before & s0 & Hc & Hs & Hm).
  apply rmatch_sound in Hm as (s' & e & cs' & Hden & Hacc).
  unfold accept in Hacc. inversion Hacc as [[E1 E2]].
  apply den_advances in Hden as (w & _ & Hw). cbn [fst snd] in Hw. lia.
Qed.

(** X10. The unit of a large number is looked up in the context window,
    but at the offset the match has in the whole text.  For a number
    that begins within the first 50 characters the window is the (up
    to) ten characters that follow the number in the text; for a number
    that begins at offset 100 or later the window is empty, so the
    record of such a number never has a unit. *)
Theorem large_number_unit_window :
  forall (decimal : char -> option N) (content : str) (m : Match),
    In m (finditer decimal NUMBER_PATTERN content) ->
    (m_start m <= 50 ->
     Forall (fun st =>
               Statistic.unit st
               = unit_of (slice content (m_end m) (m_end m + 10)))
       (number_step decimal content [] m))
    /\ (100 <= m_start m ->
        Forall (fun st => Statistic.unit st = [])
          (number_step decimal content [] m)).
Proof.
  intros decimal content m Hin.
  pose proof (finditer_bounds decimal _ _ _ Hin) as Hle.
  split; intros Hs.
  - assert (Hw : slice (context_of content m) (m_end m) (m_end m + 10)
                 = slice content (m_end m) (m_end m + 10)).
    { unfold context_of. rewrite slice_of_slice.
      replace (m_start m - 50) with 0 by lia. cbn [Nat.add].
      unfold slice.
      replace (m_end m + 10 - m_end m) with 10 by lia.
      rewrite Nat.sub_0_r.
      destruct (Nat.le_gt_cases (List.length content) (m_end m)) as [Hlen|Hlen].
      - rewrite skipn_all2 by exact Hlen. now rewrite !firstn_nil.
      - destruct (Nat.le_gt_cases 10 (List.length content - m_end m)) as [H|H].
        + f_equal. lia.
        + rewrite !firstn_all2; [reflexivity|rewrite length_skipn; lia
                                 |rewrite length_skipn; lia]. }
    destruct (number_step_cases decimal content m)
      as [->|(n & x & _ & _ & _ & ->)]; constructor; [|constructor].
    cbn [Statistic.unit]. now rewrite Hw.
  - assert (Hw : slice (context_of content m) (m_end m) (m_end m + 10) = []).
    { unfold context_of. rewrite slice_of_slice.
      replace (Nat.min (m_end m + 10 - m_end m)
                 (Nat.min (List.length content) (m_end m + 50)
                  - (m_start m - 50) - m_end m)) with 0 by lia.
      reflexivity. }
    destruct (number_step_cases decimal content m)
      as [->|(n & x & _ & _ & _ & ->)]; constructor; [|constructor].
    cbn [Statistic.unit]. now rewrite Hw.
Qed.
Lemma large_number_unit_window_witness :
  (In (mkMatch 5 11 [(1, (5, 11))])
      (finditer ascii_decimal NUMBER_PATTERN (py "总销量突破70,000万辆"))
   /\ Forall (fun st =>
                Statistic.unit st
                = unit_of (slice (py "总销量突破70,000万辆") 11 (11 + 10)))
        (number_step ascii_decimal (py "总销量突破70,000万辆") []
           (mkMatch 5 11 [(1, (5, 11))])))
  /\ (In (mkMatch 103 109 [(1, (103, 109))])
        (finditer ascii_decimal NUMBER_PATTERN
           (repeat (ch "。") 100 ++ py "销量为70,000亿元"))
      /\ Forall (fun st => Statistic.unit st = [])
           (number_step ascii_decimal
              (repeat (ch "。") 100 ++ py "销量为70,000亿元") []
              (mkMatch 103 109 [(1, (103, 109))]))).
Proof.
  assert (H1 : In (mkMatch 5 11 [(1, (5, 11))])
                 (finditer ascii_decimal NUMBER_PATTERN
                    (py "总销量突破70,000万辆")))
    by (vm_compute; left; reflexivity).
  assert (H2 : In (mkMatch 103 109 [(1, (103, 109))])
                 (finditer ascii_decimal NUMBER_PATTERN
                    (repeat (ch "。") 100 ++ py "销量为70,000亿元")))
    by (vm_compute; left; reflexivity).
  refine (conj (conj H1 _) (conj H2 _)).
  - refine (proj1 (large_number_unit_window ascii_decimal
                     (py "总销量突破70,000万辆")
                     (mkMatch 5 11 [(1, (5, 11))]) H1) _).
    cbn [m_start]. lia.
  - refine (proj2 (large_number_unit_window ascii_decimal
                     (repeat (ch "。") 100 ++ py "销量为70,000亿元")
                     (mkMatch 103 109 [(1, (103, 109))]) H2) _).
    cbn [m_start]. lia.
Defined.

(* ----------------------------------------------------------------- *)
(** ** Large numbers need a thousands separator *)

Section NumberTokens.

Variable decimal : char -> option N.

Lemma den_rep_set lo hi greedy negate items s i cs s' i' cs' :
  den decimal (RRep lo hi greedy (RSet negate items)) (s, i, cs) (s', i', cs') ->
  exists w, s = w ++ s' /\ lo <= List.length w /\ within hi (List.length w)
            /\ Forall (fun c => in_set decimal negate items c = true) w
            /\ i' = i + List.length w /\ cs' = cs.
Proof.
  intros (n & Hlo & Hhi & H). apply iter_step_char in H
    as (w & -> & Hlen & Hw & -> & ->).
  exists w. rewrite Hlen. repeat split; try assumption; lia.
Qed.

Lemma den_rep_lit lo hi greedy x s i cs s' i' cs' :
  den decimal (RRep lo hi greedy (RLit x)) (s, i, cs) (s', i', cs') ->
  exists w, s = w ++ s' /\ lo <= List.length w /\ within hi (List.length w)
            /\ Forall (fun c => c = x) w
            /\ i' = i + List.length w /\ cs' = cs.
Proof.
  intros (n & Hlo & Hhi & H). apply iter_step_char in H
    as (w & -> & Hlen & Hw & -> & ->).
  exists w. rewrite Hlen. repeat split; try assumption; try lia.
  eapply Forall_impl; [|exact Hw]. intros c Hc. apply N.eqb_eq in Hc. congruence.
Qed.

Lemma den_fraction s i cs s' i' cs' :
  den decimal
    (RRep 0 (Some 1) true
       (RSeq (RLit (ch ".")) (RSeq (RRep 1 None true digit_set) REps)))
    (s, i, cs) (s', i', cs') ->
  exists fs, s = fs ++ s' /\ i' = i + List.length fs /\ cs' = cs
    /\ (fs = [] \/ exists fd, fs = ch "." :: fd /\ fd <> []
                    /\ Forall (fun c => is_digit decimal c = true) fd).
Proof.
  intros (n & _ & Hn & Hiter). simpl in Hn.
  destruct n as [|[|n]]; [| |lia]; cbn [iter] in Hiter.
  - injection Hiter as <- <- <-. exists []. repeat split; [simpl; lia|now left].
  - destruct Hiter as ([[sx ix] csx] & Hone & Heq).
    injection Heq as <- <- <-.
    destruct Hone as ([[sy iy] csy] & (c & Esa & Hc & Eiy & Ecsy)
                      & [[sz iz] csz] & Hfd & Heq).
    injection Heq as <- <- <-.
    apply N.eqb_eq in Hc; subst c.
    apply (den_digits decimal 1) in Hfd
      as (fd & Esy & Hfl & Hfd & Eiz & Ecsz).
    exists (ch "." :: fd). simpl. subst. repeat split; [lia|].
    right. exists fd. repeat split; [|assumption].
    intros ->. simpl in Hfl. lia.
Qed.

Lemma den_comma_groups s i cs s' i' cs' :
  den decimal
    (RRep 0 None true
       (RSeq (RLit (ch ",")) (RSeq (RRep 3 (Some 3) true digit_set) REps)))
    (s, i, cs) (s', i', cs') ->
  exists cm, s = cm ++ s' /\ i' = i + List.length cm /\ cs' = cs
    /\ (cm = [] \/ exists t, cm = ch "," :: t).
Proof.
  intros H.
  pose proof (den_advances decimal _ _ _ H) as (w & Ew & Lw).
  assert (Hcs : snd (s', i', cs') = snd (s, i, cs))
    by (eapply den_group_free; [|exact H]; reflexivity).
  cbn [fst snd] in Ew, Lw, Hcs.
  exists w. repeat split; try assumption.
  destruct w as [|x t]; [now left|right].
  destruct H as (n & _ & _ & Hit).
  destruct n as [|n]; cbn [iter] in Hit.
  - injection Hit as -> -> ->. simpl in Lw. lia.
  - destruct Hit as ([[sx ix] csx] & Hone & _).
    destruct Hone as ([[sy iy] csy] & (c & Es & Hc & _) & _).
    apply N.eqb_eq in Hc. subst c. rewrite Es in Ew.
    injection Ew as <- _. now exists t.
Qed.

Lemma den_number s i s' e cs' :
  den decimal NUMBER_PATTERN (s, i, []) (s', e, cs') ->
  exists v rest,
    s = v ++ rest /\ number_token decimal v
    /\ cs' = [(1, (i, i + List.length v))].
Proof.
  intros ([[s1 i1] cs1] & Hgroup & Hend).
  cbn [den] in Hend. injection Hend as <- <- <-.
  destruct Hgroup as (s4 & i4 & cs4 & Hbody & Hb).
  injection Hb as -> -> ->. cbn [fst snd].
  destruct Hbody as ([[sa ia] csa] & Hsg & [[sb ib] csb] & Hds
                     & [[sc ic] csc] & Hcm & [[sd id] csd] & Hfs
                     & [[se ie] cse] & Hpct & [[sf jf] csf] & Hws & Hlast).
  cbn [den] in Hlast. injection Hlast as <- <- <-.
  apply den_rep_set in Hsg as (sg & Es & _ & Hsg1 & Hsg & Eia & Ecsa).
  apply den_rep_set in Hds as (ds & Esa & Hds1 & Hds3 & Hds & Eib & Ecsb).
  apply den_comma_groups in Hcm as (cm & Esb & Eic & Ecsc & Hcm).
  apply den_fraction in Hfs as (fs & Esc & Eid & Ecsd & Hfs).
  apply den_rep_lit in Hpct as (pct & Esd & _ & Hpct1 & Hpct & Eie & Ecse).
  apply den_rep_set in Hws as (ws & Ese & _ & _ & Hws & Ejf & Ecsf).
  cbn [within] in Hsg1, Hds3, Hpct1.
  exists (sg ++ ds ++ cm ++ fs ++ pct ++ ws), sf. subst. repeat split.
  - now rewrite <- !app_assoc.
  - exists sg, ds, cm, fs, pct, ws. repeat split; try assumption.
    + destruct sg as [|c [|c' sg]]; [now left| |simpl in Hsg1; lia].
      inversion Hsg as [|? ? Hc _]; subst.
      unfold in_set in Hc. cbn [existsb in_item xorb] in Hc.
      rewrite orb_false_r in Hc. apply orb_true_iff in Hc as [Hc|Hc];
        apply N.eqb_eq in Hc; subst c; [right; now left|right; now right].
    + eapply Forall_impl; [|exact Hds]. intros c Hc.
      rewrite <- (digit_set_spec decimal c). exact Hc.
    + destruct pct as [|c [|c' pct]]; [now left| |simpl in Hpct1; lia].
      inversion Hpct as [|? ? Hc _]; subst. now right.
    + eapply Forall_impl; [|exact Hws]. intros c Hc.
      unfold in_set in Hc. cbn [existsb in_item in_category xorb] in Hc.
      now rewrite orb_false_r in Hc.
  - rewrite !length_app. do 3 f_equal. lia.
Qed.

Lemma number_match_token content m :
  In m (finditer decimal NUMBER_PATTERN content) ->
  exists before after,
    content = before ++ group1 content m ++ after
    /\ number_token decimal (group1 content m).
Proof.
  intros H. apply finditer_sound in H as (before & s0 & Hc & Hs & Hm).
  apply rmatch_sound in Hm as (s' & e & cs' & Hden & Hacc).
  unfold accept in Hacc. inversion Hacc; subst e cs'; clear Hacc.
  apply den_number in Hden as (v & rest & Hs0 & Hv & Hcs).
  rewrite (group1_of_match content before s0 v rest m [] Hc Hs0 Hs Hcs).
  exists before, rest. split; [now subst|exact Hv].
Qed.

End NumberTokens.
Lemma round_half_even_bounds n d :
  (0 <= n)%Z -> (0 < d)%Z ->
  (n / d <= round_half_even n d <= n / d + 1)%Z.
Proof.
  intros Hn Hd. unfold round_half_even.
  destruct (2 * (n mod d) <? d)%Z; [lia|].
  destruct (d <? 2 * (n mod d))%Z; [lia|].
  destruct (Z.even (n / d)); lia.
Qed.

(** A decimal below 1000 is rounded to a double below 10000, and so
    is its negation. *)
Lemma nearest_double_small n d :
  (0 <= n)%Z -> (0 < d)%Z -> (n < 1000 * d)%Z ->
  float_geb (nearest_double n d) 10000%Q = false
  /\ float_geb (float_neg (nearest_double n d)) 10000%Q = false.
Proof.
  intros Hn Hd Hlt. unfold nearest_double.
  destruct (n =? 0)%Z eqn:En; [split; reflexivity|].
  apply Z.eqb_neq in En.
  set (e0 := (Z.log2 n - Z.log2 d - 52)%Z).
  assert (He0 : (e0 <= -42)%Z).
  { assert (H1 : (Z.log2 n <= Z.log2 (1000 * d))%Z)
      by (apply Z.log2_le_mono; lia).
    assert (H2 : (Z.log2 (1000 * d) <= Z.log2 1000 + Z.log2 d + 1)%Z)
      by (apply Z.log2_mul_above; lia).
    change (Z.log2 1000) with 9%Z in H2. subst e0. lia. }
  destruct (scale2 n d e0) as [n1 d1].
  set (e1 := if (n1 / d1 <? 2 ^ 52)%Z then (e0 - 1)%Z else e0).
  assert (He1 : (e1 <= e0)%Z) by (subst e1; destruct (_ <? _)%Z; lia).
  set (e := Z.max e1 (-1074)).
  assert (He : (-1074 <= e < 0)%Z) by (subst e; lia).
  unfold scale2.
  destruct (0 <=? e)%Z eqn:Ee; [apply Z.leb_le in Ee; lia|].
  set (P := (2 ^ (- e))%Z).
  assert (HP : (0 < P)%Z) by (subst P; apply Z.pow_pos_nonneg; lia).
  set (m := round_half_even (n * P) d).
  assert (Hm : (0 <= m <= 1000 * P)%Z).
  { pose proof (round_half_even_bounds (n * P) d ltac:(nia) Hd) as Hb.
    fold m in Hb.
    assert (0 <= n * P / d)%Z by (apply Z.div_pos; nia).
    assert (n * P / d < 1000 * P)%Z
      by (apply Z.div_lt_upper_bound; [exact Hd|nia]).
    lia. }
  unfold float_neg, float_geb. split.
  - destruct (Qle_bool _ _) eqn:E; [|reflexivity].
    apply Qle_bool_iff in E. rewrite Qred_correct in E.
    unfold Qle in E. cbn [Qnum Qden] in E.
    rewrite Z2Pos.id in E by exact HP. lia.
  - destruct (Qle_bool _ _) eqn:E; [|reflexivity].
    apply Qle_bool_iff in E. rewrite !Qred_correct in E.
    unfold Qle in E. cbn [Qnum Qden Qopp] in E.
    rewrite Z2Pos.id in E by exact HP. lia.
Qed.

Section SmallNumbers.

Variable decimal : char -> option N.
Hypothesis ascii_only : ascii_digits_only decimal.
Hypothesis values : digit_values decimal.

Lemma digits_value_bound s :
  forall acc n, (0 <= acc)%Z -> digits_value decimal s acc = Some n ->
    (acc * 10 ^ Z.of_nat (List.length s) <= n
     < (acc + 1) * 10 ^ Z.of_nat (List.length s))%Z.
Proof.
  induction s as [|c s IH]; intros acc n Hacc H; cbn [digits_value] in H.
  - injection H as <-. simpl. lia.
  - destruct (decimal c) as [d|] eqn:Ed; [|discriminate].
    apply values in Ed as [Hd _].
    apply IH in H; [|lia].
    cbn [List.length]. rewrite Nat2Z.inj_succ, Z.pow_succ_r by lia.
    assert (0 < 10 ^ Z.of_nat (List.length s))%Z
      by (apply Z.pow_pos_nonneg; lia).
    nia.
Qed.

Lemma digit_not_ascii_symbol c :
  is_digit decimal c = true -> (c <? 128)%N = true ->
  is_ascii_digit c = true.
Proof.
  unfold is_digit. intros H Hc.
  destruct (is_ascii_digit c) eqn:E; [reflexivity|].
  now rewrite (ascii_only c Hc E) in H.
Qed.

Lemma digits_lack x ds :
  (x <? 128)%N = true -> is_ascii_digit x = false ->
  Forall (fun c => is_digit decimal c = true) ds ->
  has_char x ds = false.
Proof.
  intros Hx Hnd Hds. induction Hds as [|c ds Hc _ IH]; [reflexivity|].
  cbn [has_char existsb]. fold (has_char x ds). rewrite IH, orb_false_r.
  apply N.eqb_neq. intros <-.
  apply digit_not_ascii_symbol in Hc; [congruence|exact Hx].
Qed.

Lemma py_float_inv s x :
  py_float decimal s = Some x ->
  exists negative body ip fp n,
    (s = ch "-" :: body /\ negative = true
     \/ s = ch "+" :: body /\ negative = false
     \/ s = body /\ negative = false
        /\ hd_error s <> Some (ch "-") /\ hd_error s <> Some (ch "+"))
    /\ (split (ch ".") body = [ip] /\ fp = []
        \/ split (ch ".") body = [ip; fp])
    /\ digits_value decimal (ip ++ fp) 0 = Some n
    /\ x = (if negative
            then float_neg (nearest_double n (10 ^ Z.of_nat (List.length fp)))
            else nearest_double n (10 ^ Z.of_nat (List.length fp))).
Proof.
  unfold py_float.
  assert (Hcore :
            forall (negative : bool) (body : str),
              match
                match split (ch ".") body with
                | [ip] => Some (ip, [])
                | [ip; fp] =>
                  if Nat.eqb (List.length fp) 0 then None else Some (ip, fp)
                | _ => None
                end
              with
              | Some (ip, fp) =>
                if Nat.eqb (List.length ip) 0 then None
                else
                  match digits_value decimal (ip ++ fp) 0 with
                  | Some n =>
                    let x := nearest_double n
                               (10 ^ Z.of_nat (List.length fp)) in
                    Some (if negative then float_neg x else x)
                  | None => None
                  end
              | None => None
              end = Some x ->
              exists ip fp n,
                (split (ch ".") body = [ip] /\ fp = []
                 \/ split (ch ".") body = [ip; fp])
                /\ digits_value decimal (ip ++ fp) 0 = Some n
                /\ x = (if negative
                        then float_neg
                               (nearest_double n
                                  (10 ^ Z.of_nat (List.length fp)))
                        else nearest_double n
                               (10 ^ Z.of_nat (List.length fp)))).
  { intros negative body.
    destruct (split (ch ".") body) as [|ip [|fp [|? ?]]]; try discriminate.
    - destruct (Nat.eqb (List.length ip) 0); [discriminate|].
      destruct (digits_value decimal (ip ++ []) 0) as [n|] eqn:En;
        [|discriminate].
      intros H; injection H as <-. exists ip, [], n. auto.
    - destruct (Nat.eqb (List.length fp) 0); [discriminate|].
      destruct (Nat.eqb (List.length ip) 0); [discriminate|].
      destruct (digits_value decimal (ip ++ fp) 0) as [n|] eqn:En;
        [|discriminate].
      intros H; injection H as <-. exists ip, fp, n. auto. }
  destruct s as [|c t].
  - intros H. apply (Hcore false []) in H as (ip & fp & n & H1 & H2 & H3).
    exists false, [], ip, fp, n. repeat split; try assumption.
    right; right. repeat split; discriminate.
  - destruct (c =? ch "-")%N eqn:E1; [|destruct (c =? ch "+")%N eqn:E2];
      intros H;
      [apply (Hcore true t) in H as (ip & fp & n & H1 & H2 & H3)
      |apply (Hcore false t) in H as (ip & fp & n & H1 & H2 & H3)
      |apply (Hcore false (c :: t)) in H as (ip & fp & n & H1 & H2 & H3)].
    + apply N.eqb_eq in E1; subst c.
      exists true, t, ip, fp, n. repeat split; try assumption. now left.
    + apply N.eqb_eq in E2; subst c.
      exists false, t, ip, fp, n. repeat split; try assumption.
      right; now left.
    + apply N.eqb_neq in E1, E2.
      exists false, (c :: t), ip, fp, n. repeat split; try assumption.
      right; right. repeat split; cbn [hd_error]; congruence.
Qed.

(** [float] of a sign, at most three digits and a fraction is below
    10000. *)
Lemma py_float_small sg ds fs x :
  (sg = [] \/ sg = [ch "-"] \/ sg = [ch "+"]) ->
  1 <= List.length ds <= 3 ->
  Forall (fun c => is_digit decimal c = true) ds ->
  (fs = [] \/ exists fd, fs = ch "." :: fd /\ fd <> []
                         /\ Forall (fun c => is_digit decimal c = true) fd) ->
  py_float decimal (sg ++ ds ++ fs) = Some x ->
  float_geb x 10000%Q = false.
Proof.
  intros Hsg Hlen Hds Hfs Hx.
  assert (Hdot : has_char (ch ".") ds = false)
    by (apply digits_lack; [reflexivity|reflexivity|exact Hds]).
  assert (Hsplit :
            exists fd, (split (ch ".") (ds ++ fs) = [ds] /\ fd = []
                        \/ split (ch ".") (ds ++ fs) = [ds; fd])).
  { destruct Hfs as [->|(fd & -> & Hne & Hfd)].
    - exists []. rewrite app_nil_r. left. split; [now apply split_no_sep|easy].
    - exists fd. right. rewrite (split_app_sep _ _ _ Hdot).
      now rewrite split_no_sep
        by (apply digits_lack; [reflexivity|reflexivity|exact Hfd]). }
  destruct Hsplit as (fd & Hsplit).
  apply py_float_inv in Hx
    as (negative & body & ip & fp & n & Hsign & Hparts & Hn & ->).
  assert (Hbody : body = ds ++ fs).
  { destruct ds as [|d0 ds']; [simpl in Hlen; lia|].
    assert (Hd0 : is_digit decimal d0 = true) by (inversion Hds; assumption).
    assert (Hminus : d0 <> ch "-").
    { intros ->.
      apply digit_not_ascii_symbol in Hd0; [discriminate|reflexivity]. }
    assert (Hplus : d0 <> ch "+").
    { intros ->.
      apply digit_not_ascii_symbol in Hd0; [discriminate|reflexivity]. }
    destruct Hsg as [-> | [-> | ->]]; cbn [app] in Hsign |- *;
      destruct Hsign as [[E _]|[[E _]|(E & _ & N1 & N2)]];
      cbn [hd_error] in *;
      try (injection E as E0 E; try (vm_compute in E0; discriminate);
           congruence);
      try (exfalso; now apply N1); try (exfalso; now apply N2);
      congruence. }
  subst body.
  assert (Hip : ip = ds /\ List.length fp = List.length fd).
  { destruct Hsplit as [[E ->]|E]; rewrite E in Hparts;
      destruct Hparts as [[E' ->]|E']; try discriminate;
      injection E' as <-; try subst fp; auto. }
  destruct Hip as [-> Hfp].
  apply digits_value_bound in Hn; [|lia].
  rewrite length_app, Nat2Z.inj_add, Z.pow_add_r in Hn by lia.
  assert (HT : (0 < 10 ^ Z.of_nat (List.length fp))%Z)
    by (apply Z.pow_pos_nonneg; lia).
  assert (H3 : (10 ^ Z.of_nat (List.length ds) <= 10 ^ 3)%Z)
    by (apply Z.pow_le_mono_r; lia).
  change (10 ^ 3)%Z with 1000%Z in H3.
  destruct (nearest_double_small n (10 ^ Z.of_nat (List.length fp)))
    as [G1 G2]; [lia|exact HT|nia|].
  destruct negative; assumption.
Qed.

End SmallNumbers.
Lemma strip_token body ws :
  Forall (fun c => is_space c = false) body ->
  Forall (fun c => is_space c = true) ws ->
  strip (body ++ ws) = body.
Proof.
  intros Hb Hw. unfold strip, rstrip.
  assert (Hl : lstrip (body ++ ws) = body ++ ws \/ body = []).
  { destruct Hb as [|c body Hc _]; [now right|left].
    simpl. now rewrite Hc. }
  assert (Hr : forall t, Forall (fun c => is_space c = true) t ->
                 lstrip (rev t ++ rev body) = rev body).
  { intros t Ht. rewrite <- (rev_involutive t) in Ht.
    apply Forall_rev in Ht. rewrite rev_involutive in Ht.
    induction Ht as [|c r Hc _ IH].
    - simpl. destruct (Forall_rev Hb) as [|c r Hc _]; [reflexivity|].
      simpl. now rewrite Hc.
    - simpl. now rewrite Hc. }
  destruct Hl as [->| ->].
  - rewrite rev_app_distr, (Hr ws Hw). apply rev_involutive.
  - simpl. assert (E : lstrip ws = []).
    { induction Hw as [|c r Hc _ IH]; [reflexivity|]. simpl. now rewrite Hc. }
    rewrite E. reflexivity.
Qed.

Lemma remove_char_absent c s :
  has_char c s = false -> remove_char c s = s.
Proof.
  induction s as [|x s IH]; [reflexivity|].
  cbn [has_char existsb remove_char filter]. intros H.
  apply orb_false_iff in H as [Hx Hs].
  rewrite N.eqb_sym, Hx. cbn [negb]. f_equal. now apply IH.
Qed.

Lemma flat_map_all_nil {A B} (f : A -> list B) l :
  (forall x, In x l -> f x = []) -> flat_map f l = [].
Proof.
  induction l as [|x l IH]; intros H; [reflexivity|].
  cbn [flat_map]. rewrite (H x (or_introl eq_refl)), IH; [reflexivity|].
  intros y Hy. apply H. now right.
Qed.

Lemma ascii_decimal_ascii_only : ascii_digits_only ascii_decimal.
Proof.
  intros c _ H. unfold ascii_decimal. now rewrite H.
Qed.

Lemma ascii_decimal_values : digit_values ascii_decimal.
Proof.
  intros c d. unfold ascii_decimal.
  destruct (is_ascii_digit c) eqn:E; [|discriminate].
  intros H; injection H as <-.
  unfold is_ascii_digit in E. apply andb_true_iff in E as [E1 E2].
  apply N.leb_le in E1, E2. split; [lia|].
  unfold is_space.
  repeat match goal with
         | |- context [(?a <=? ?b)%N] =>
           destruct (N.leb_spec a b); try lia
         | |- context [(?a =? ?b)%N] =>
           destruct (N.eqb_spec a b); try lia
         end; reflexivity.
Qed.

(** X11. A number written without a thousands separator never becomes a
    large-number record: a token of [NUMBER_PATTERN] without "," has at
    most three digits before the fraction, so its value is below
    10000.  A text without "," therefore yields the percentage records
    only. *)
Theorem large_numbers_need_separator :
  forall (decimal : char -> option N) (content source_url : str),
    ascii_digits_only decimal -> digit_values decimal ->
    (forall m, In m (finditer decimal NUMBER_PATTERN content) ->
        has_char (ch ",") (group1 content m) = false ->
        number_step decimal content [] m = [])
    /\ (has_char (ch ",") content = false ->
        extract_statistics decimal content source_url
        = percentage_pass decimal content).
Proof.
  intros decimal content source_url Hascii Hvalues.
  assert (Hstep : forall m, In m (finditer decimal NUMBER_PATTERN content) ->
            has_char (ch ",") (group1 content m) = false ->
            number_step decimal content [] m = []).
  { intros m Hin Hcomma.
    apply (number_match_token decimal) in Hin
      as (before & after & _ & sg & ds & cm & fs & pct & ws & Hv & Hsg
          & Hlen & Hds & Hcm & Hfs & Hpct & Hws).
    unfold number_step. cbv zeta. rewrite Hv in Hcomma |- *. clear Hv.
    destruct Hcm as [->|(t & ->)];
      [|rewrite !has_char_app in Hcomma; cbn [has_char existsb] in Hcomma;
        rewrite N.eqb_refl in Hcomma; cbn [orb] in Hcomma;
        rewrite !orb_true_r in Hcomma; discriminate].
    cbn [app] in Hcomma |- *.
    assert (Hnodigit : forall l,
              Forall (fun c => is_digit decimal c = true) l ->
              Forall (fun c => is_space c = false) l).
    { intros l Hl. eapply Forall_impl; [|exact Hl]. intros c Hc.
      unfold is_digit in Hc. destruct (decimal c) as [d|] eqn:Ed;
        [|discriminate]. now apply Hvalues in Ed. }
    assert (Hbody : Forall (fun c => is_space c = false)
                      (sg ++ ds ++ fs ++ pct)).
    { repeat (apply Forall_app; split).
      - destruct Hsg as [->|[->| ->]]; repeat constructor.
      - now apply Hnodigit.
      - destruct Hfs as [->|(fd & -> & _ & Hfd)]; [constructor|].
        constructor; [reflexivity|now apply Hnodigit].
      - destruct Hpct as [->| ->]; repeat constructor. }
    replace (sg ++ ds ++ fs ++ pct ++ ws)
      with ((sg ++ ds ++ fs ++ pct) ++ ws) in *
      by now rewrite <- !app_assoc.
    rewrite (strip_token _ _ Hbody Hws).
    destruct (has_char (ch "%") (sg ++ ds ++ fs ++ pct)) eqn:Hp;
      [reflexivity|].
    destruct Hpct as [->| ->];
      [|rewrite !has_char_app in Hp; cbn [has_char existsb] in Hp;
        rewrite N.eqb_refl in Hp; cbn [orb] in Hp;
        rewrite !orb_true_r in Hp; discriminate].
    rewrite app_nil_r in *.
    rewrite has_char_app in Hcomma. apply orb_false_iff in Hcomma as [Hcomma _].
    rewrite (remove_char_absent _ _ Hcomma).
    destruct (py_float decimal (sg ++ ds ++ fs)) as [x|] eqn:Hx;
      [|reflexivity].
    now rewrite (py_float_small decimal Hascii Hvalues sg ds fs x
                   Hsg Hlen Hds Hfs Hx). }
  split; [exact Hstep|].
  intros Hcomma. rewrite extract_statistics_passes.
  unfold large_number_pass. rewrite flat_map_all_nil; [apply app_nil_r|].
  intros m Hin. apply Hstep; [exact Hin|].
  apply (number_match_token decimal) in Hin as (before & after & Hc & _).
  rewrite Hc, !has_char_app in Hcomma.
  apply orb_false_iff in Hcomma as [_ Hcomma].
  now apply orb_false_iff in Hcomma as [Hcomma _].
Qed.

Lemma large_numbers_need_separator_witness :
  extract_statistics ascii_decimal (py "全年营收70000元，增长12.5%") []
  = percentage_pass ascii_decimal (py "全年营收70000元，增长12.5%").
Proof.
  exact (proj2 (large_numbers_need_separator ascii_decimal
                  (py "全年营收70000元，增长12.5%") []
                  ascii_decimal_ascii_only ascii_decimal_values)
           eq_refl).
Defined.

(* ----------------------------------------------------------------- *)
(** ** The description of an event *)

Section DescriptionFacts.

Variable decimal : char -> option N.

Lemma in_set_chars date c :
  in_set decimal false (map SChar date) c = has_char c date.
Proof.
  unfold in_set, has_char. cbn [xorb].
  induction date as [|x date IH]; [reflexivity|].
  cbn [map existsb in_item]. now rewrite IH.
Qed.

Lemma gap_set_spec c :
  in_set decimal true [SChar 10%N; SChar (ch "。")] c = gap_char c.
Proof.
  unfold in_set, gap_char. cbn [existsb in_item].
  destruct (c =? 10)%N, (c =? ch "。")%N; reflexivity.
Qed.

(** The greedy loop over the gap takes all it can get. *)
Lemma rloop_gap (K : cont) :
  (forall s i cs, K s i cs = Some (i, cs)) ->
  forall h t f i,
    List.length t < f ->
    rloop (rmatch decimal gap_chars) f 0 (Some h) true t i [] K
    = Some (i + List.length (firstn h (take_while gap_char t)), []).
Proof.
  intros HK. induction h as [|h IH]; intros t f i Hf;
    (destruct f as [|f]; [lia|]); rewrite rloop_unfold; cbv zeta;
    change (Nat.ltb 0 0) with false; cbv iota.
  - rewrite HK. cbn [firstn List.length]. now rewrite Nat.add_0_r.
  - unfold gap_chars at 1. cbn [rmatch].
    destruct t as [|c t].
    + cbn [match_one]. rewrite HK. cbn. now rewrite Nat.add_0_r.
    + cbn [match_one take_while]. rewrite gap_set_spec.
      destruct (gap_char c).
      * change (Nat.eqb 0 0) with true. cbn [andb].
        replace (Nat.eqb (S i) i) with false
          by (symmetry; apply Nat.eqb_neq; lia).
        cbn [pred option_map]. rewrite IH by (simpl in Hf; lia).
        cbn [firstn List.length]. do 2 f_equal. lia.
      * rewrite HK. cbn [firstn List.length]. now rewrite Nat.add_0_r.
Qed.

Lemma firstn_take_while_prefix ok h :
  forall t, exists rest, t = firstn h (take_while ok t) ++ rest.
Proof.
  induction h as [|h IH]; intros t; [now exists t|].
  destruct t as [|c t]; [now exists []|]. cbn [take_while].
  destruct (ok c); [|now exists (c :: t)].
  destruct (IH t) as (rest & E). exists rest. cbn [firstn app]. congruence.
Qed.

(** [re.search] with the pattern of a description finds what
    [description_from] describes. *)
Lemma search_at_description date :
  forall s pre,
    match search_at decimal (description_regex date) s (List.length pre) with
    | Some m => description_from date s = Some (group0 (pre ++ s) m)
    | None => description_from date s = None
    end.
Proof.
  induction s as [|c t IH]; intros pre.
  - reflexivity.
  - cbn [search_at description_from]. unfold description_regex at 1.
    cbn [rmatch match_one]. rewrite in_set_chars.
    destruct (has_char c date).
    + rewrite (rloop_gap _ (fun _ _ _ => eq_refl)) by lia.
      unfold group0. cbn [m_start m_end].
      destruct (firstn_take_while_prefix gap_char 60 t) as (rest & E).
      set (g := firstn 60 (take_while gap_char t)) in *.
      rewrite E at 1.
      change (pre ++ c :: g ++ rest) with (pre ++ (c :: g) ++ rest).
      replace (S (List.length pre) + List.length g)
        with (List.length pre + List.length (c :: g)) by (simpl; lia).
      now rewrite slice_middle.
    + specialize (IH (pre ++ [c])).
      rewrite length_app, <- app_assoc in IH. cbn [List.length app] in IH.
      replace (List.length pre + 1) with (S (List.length pre)) in IH by lia.
      exact IH.
Qed.

Lemma description_from_none date s :
  description_from date s = None ->
  forall c, In c s -> has_char c date = false.
Proof.
  induction s as [|x s IH]; intros H c Hc; [destruct Hc|].
  cbn [description_from] in H. destruct (has_char x date) eqn:Hx;
    [discriminate|].
  destruct Hc as [<-|Hc]; [exact Hx|now apply IH].
Qed.

Lemma in_slice (before rest : str) (x : char) (a b : nat) :
  a <= List.length before -> List.length before < b ->
  In x (slice (before ++ x :: rest) a b).
Proof.
  intros Ha Hb. unfold slice. rewrite skipn_app.
  replace (a - List.length before) with 0 by lia. cbn [skipn].
  rewrite firstn_app, length_skipn. apply in_or_app. right.
  replace (b - a - (List.length before - a))
    with (S (b - a - (List.length before - a) - 1)) by lia.
  now left.
Qed.

Lemma time_match_end content p m :
  In p time_patterns -> In m (finditer decimal p content) ->
  m_end m = m_start m + List.length (group1 content m).
Proof.
  intros Hp H. destruct (time_patterns_shape p Hp) as (body & -> & Hgf & _).
  apply finditer_sound in H as (before & s0 & Hc & Hs & Hm).
  apply rmatch_sound in Hm as (s' & e & cs' & Hden & Hacc).
  unfold accept in Hacc. inversion Hacc; subst e cs'; clear Hacc.
  destruct Hden as ([[s1 i1] cs1] & (s4 & i4 & cs4 & Hbody & Hb) & Hend).
  injection Hb as -> -> ->. injection Hend as E1 E2 E3.
  pose proof (den_group_free decimal body Hgf _ _ Hbody) as Hcs.
  cbn [snd] in Hcs. subst cs4.
  destruct (den_advances decimal body _ _ Hbody) as (w & Ew & Ei).
  cbn [fst snd] in Ew, Ei.
  assert (Hg : group1 content m = w).
  { apply (group1_of_match content before s0 w s4 m []); try assumption.
    rewrite <- E3, Ei. reflexivity. }
  rewrite Hg. lia.
Qed.

Lemma time_match_compiles (Hsane : ascii_digits_only decimal) content p m :
  has_char (ch "-") content = false ->
  In p time_patterns -> In m (finditer decimal p content) ->
  re_compile (description_pattern (group1 content m))
  = Ok (description_regex (group1 content m)).
Proof.
  intros Hno Hp Hm.
  destruct (time_match_located decimal content p m Hp Hm)
    as (before & after & Hc & Hs & Hd & Hl).
  apply description_pattern_compiles.
  - intros E. rewrite E in Hd. inversion Hd.
  - apply Forall_forall. intros c Hin.
    rewrite Forall_forall in Hl.
    destruct (time_patterns_chars decimal Hsane p c Hp (Hl c Hin))
      as (H1 & H2 & _).
    assert (H3 : c <> ch "-").
    { intros ->. assert (has_char (ch "-") content = true); [|congruence].
      apply existsb_exists. exists (ch "-"). split; [|apply N.eqb_refl].
      rewrite Hc. apply in_or_app. right. apply in_or_app. now left. }
    unfold set_safe. apply N.eqb_neq in H1, H2, H3.
    now rewrite H1, H2, H3.
  - intros c t E. rewrite Forall_forall in Hl.
    destruct (time_patterns_chars decimal Hsane p c Hp) as (_ & _ & H4).
    + apply Hl. rewrite E. now left.
    + now apply N.eqb_neq.
Qed.

(** Every match of a time pattern adds one event, with the description
    read off its window. *)
Lemma timeline_step_event (Hsane : ascii_digits_only decimal) content p acc m :
  has_char (ch "-") content = false ->
  In p time_patterns -> In m (finditer decimal p content) ->
  exists e,
    timeline_step decimal content acc m = Ok (acc ++ [e])
    /\ Event.date e = group1 content m
    /\ Event.position e = m_start m
    /\ described content e.
Proof.
  intros Hno Hp Hm. unfold timeline_step.
  rewrite (time_match_compiles Hsane content p m Hno Hp Hm). cbn [bind].
  pose proof (time_match_end content p m Hp Hm) as Hend.
  destruct (time_match_located decimal content p m Hp Hm)
    as (before & after & Hc & Hs & Hd & _).
  set (date := group1 content m) in *.
  set (context := slice content (m_start m - 30)
                    (Nat.min (List.length content) (m_end m + 70))).
  pose proof (search_at_description date context []) as Hsearch.
  cbn [List.length app] in Hsearch. fold (re_search decimal (description_regex date) context) in Hsearch.
  destruct (re_search decimal (description_regex date) context) as [em|].
  - eexists. split; [reflexivity|]. cbn [Event.date Event.position].
    repeat split. exists (group0 context em).
    unfold event_window. cbn [Event.date Event.position Event.description].
    fold date. rewrite <- Hend. fold context. split; [exact Hsearch|reflexivity].
  - exfalso. destruct date as [|d0 date'] eqn:Edate; [inversion Hd|].
    assert (Hin : In d0 context).
    { unfold context. rewrite Hc. cbn [app].
      apply in_slice; [lia|].
      rewrite length_app. cbn [List.length]. rewrite Hend. simpl. lia. }
    pose proof (description_from_none _ _ Hsearch d0 Hin) as Hd0.
    cbn [has_char existsb] in Hd0. now rewrite N.eqb_refl in Hd0.
Qed.

Lemma for_each_covers {A B} (Cov : A -> list B -> Prop)
    (f : list B -> A -> result (list B)) l :
  (forall x a a', Cov x a -> incl a a' -> Cov x a') ->
  (forall acc x acc', In x l -> f acc x = Ok acc' ->
     incl acc acc' /\ Cov x acc') ->
  forall acc out, for_each f l acc = Ok out ->
    incl acc out /\ forall x, In x l -> Cov x out.
Proof.
  intros Hmono. induction l as [|x l IH]; intros Hf acc out Hrun;
    cbn [for_each] in Hrun.
  - inversion Hrun; subst. split; [apply incl_refl|intros x []].
  - destruct (f acc x) as [acc'| |] eqn:Hx; cbn [bind] in Hrun;
      try discriminate.
    destruct (Hf acc x acc' (or_introl eq_refl) Hx) as [Hinc Hcov].
    destruct (IH (fun a y a' Hy => Hf a y a' (or_intror Hy)) acc' out Hrun)
      as [Hinc' Hall].
    split; [eapply incl_tran; eassumption|].
    intros y [<-|Hy]; [eapply Hmono; eassumption|now apply Hall].
Qed.

Lemma unique_from_covers e :
  forall l seen,
    In e l -> ~ In (Event.date e) seen ->
    exists e', In e' (unique_from seen l) /\ Event.date e' = Event.date e.
Proof.
  induction l as [|x l IH]; intros seen Hin Hseen; [destruct Hin|].
  cbn [unique_from].
  destruct (existsb (str_eqb (Event.date x)) seen) eqn:Hx.
  - destruct Hin as [->|Hin].
    + exfalso. apply Hseen. now apply seen_spec.
    + now apply IH.
  - destruct (list_eq_dec N.eq_dec (Event.date e) (Event.date x)) as [E|E].
    + exists x. split; [now left|now symmetry].
    + destruct Hin as [->|Hin]; [congruence|].
      destruct (IH (Event.date x :: seen) Hin) as (e' & He' & Hd).
      * intros [H|H]; [congruence|now apply Hseen].
      * exists e'. split; [now right|exact Hd].
Qed.

End DescriptionFacts.
(** X12. When the text holds no [-] (and, as in every Unicode database,
    the decimal digits below U+0080 are the ASCII digits),
    [extract_timeline] returns; the description of every event is what
    the window around its date gives: the text from the first character
    of the window that occurs in the date token, for up to 61
    characters and stopping before a line break or "。", stripped; and
    every date token a time pattern finds is the date of an event. *)
Theorem timeline_descriptions :
  forall (decimal : char -> option N) (content source_url : str),
    ascii_digits_only decimal ->
    has_char (ch "-") content = false ->
    exists events,
      extract_timeline decimal content source_url = Ok events
      /\ Forall (described content) events
      /\ forall p m,
           In p time_patterns -> In m (finditer decimal p content) ->
           exists e, In e events /\ Event.date e = group1 content m.
Proof.
  intros decimal content source_url Hsane Hno.
  assert (Hstep : forall p acc m acc',
            In p time_patterns -> In m (finditer decimal p content) ->
            timeline_step decimal content acc m = Ok acc' ->
            exists e, acc' = acc ++ [e]
                      /\ Event.date e = group1 content m
                      /\ described content e).
  { intros p acc m acc' Hp Hm Hrun.
    destruct (timeline_step_event decimal Hsane content p acc m Hno Hp Hm)
      as (e & He & Hd & _ & Hdesc).
    rewrite He in Hrun. injection Hrun as <-. eauto. }
  assert (Hraw : exists raw,
            collect_events decimal content = Ok raw
            /\ Forall (described content) raw).
  { unfold collect_events.
    apply (for_each_ok (Forall (described content))); [|constructor].
    intros acc p Hp Hacc.
    apply (for_each_ok (Forall (described content))); [|exact Hacc].
    intros a m Hm Ha.
    destruct (timeline_step_event decimal Hsane content p a m Hno Hp Hm)
      as (e & He & _ & _ & Hdesc).
    exists (a ++ [e]). split; [exact He|].
    apply Forall_app. split; [exact Ha|now constructor]. }
  destruct Hraw as (raw & Hraw & Hdesc).
  assert (Hcov : forall p m,
            In p time_patterns -> In m (finditer decimal p content) ->
            exists e, In e raw /\ Event.date e = group1 content m).
  { unfold collect_events in Hraw.
    apply (for_each_covers
             (fun p acc => forall m, In m (finditer decimal p content) ->
                exists e, In e acc /\ Event.date e = group1 content m))
      in Hraw as [_ Hall].
    - intros p m Hp Hm. exact (Hall p Hp m Hm).
    - intros p a a' Hcov Hinc m Hm.
      destruct (Hcov m Hm) as (e & He & Hd). exists e. auto.
    - intros acc p acc' Hp Hrun.
      apply (for_each_covers
               (fun m acc => exists e, In e acc
                                       /\ Event.date e = group1 content m))
        in Hrun as [Hinc Hall]; [split; assumption| |].
      + intros m a a' (e & He & Hd) Hinc. exists e. auto.
      + intros a m a' Hm Hrun'.
        destruct (Hstep p a m a' Hp Hm Hrun') as (e & -> & Hd & _).
        split; [apply incl_appl, incl_refl|].
        exists e. split; [apply in_or_app; right; now left|exact Hd]. }
  exists (unique_from [] (sort_events raw)).
  unfold extract_timeline. rewrite Hraw. cbn [bind].
  split; [reflexivity|split].
  - apply Forall_forall. intros e He.
    apply unique_from_in in He as [He _].
    apply (proj1 (sort_events_in e raw)) in He.
    rewrite Forall_forall in Hdesc. now apply Hdesc.
  - intros p m Hp Hm. destruct (Hcov p m Hp Hm) as (e & He & Hd).
    apply (proj2 (sort_events_in e raw)) in He.
    destruct (unique_from_covers e (sort_events raw) [] He) as (e' & He' & Hd');
      [intros []|].
    exists e'. split; [exact He'|congruence].
Qed.

Lemma timeline_descriptions_witness :
  exists events,
    extract_timeline ascii_decimal (py "12，2024/03/15 发布。Q3 2024 量产") []
    = Ok events
    /\ Forall (described (py "12，2024/03/15 发布。Q3 2024 量产")) events.
Proof.
  destruct (timeline_descriptions ascii_decimal
              (py "12，2024/03/15 发布。Q3 2024 量产") [])
    as (events & Hrun & Hdesc & _).
  - intros c Hlt Hnd. unfold ascii_decimal. now rewrite Hnd.
  - reflexivity.
  - exists events. split; [exact Hrun|exact Hdesc].
Defined.

(* ----------------------------------------------------------------- *)
(** ** The table of the key metrics *)

Lemma metric_dict_row (to_str : pyobj -> str) k :
  (forall s, to_str (PStr s) = s) ->
  render_row to_str [py "metric"; py "value"; py "confidence"] (metric_dict k)
  = metric_row to_str k.
Proof.
  intros Hstr.
  assert (N1 : str_eqb (py "value") (py "metric") = false)
    by (apply str_eqb_neq; intros H; vm_compute in H; discriminate).
  assert (N2 : str_eqb (py "confidence") (py "metric") = false)
    by (apply str_eqb_neq; intros H; vm_compute in H; discriminate).
  assert (N3 : str_eqb (py "confidence") (py "value") = false)
    by (apply str_eqb_neq; intros H; vm_compute in H; discriminate).
  assert (N4 : str_eqb (py "confidence") (py "position") = false)
    by (apply str_eqb_neq; intros H; vm_compute in H; discriminate).
  unfold render_row, metric_row, metric_dict, cell.
  cbn [map dict_get join].
  rewrite !str_eqb_refl, N1, N2, N3, N4.
  rewrite Hstr. destruct (KeyMetric.value k) as [v|]; rewrite ?Hstr;
    now rewrite <- !app_assoc.
Qed.

(** X13. [extract_metrics_for_table] passes on what [extract_key_metrics]
    raises; without a record it returns the placeholder text; otherwise
    the lines of its table are the header [| metric | value |
    confidence |], the separator and one row per record, in the order of
    the records, with the name, the value and the confidence: the
    offsets do not appear. *)
Theorem metrics_table_layout :
  forall (decimal : char -> option N) (to_str : pyobj -> str)
         (content : str) (metrics : list str) (source_url : str),
    (forall s, to_str (PStr s) = s) ->
    (forall e,
        extract_key_metrics decimal content metrics source_url = Raise e ->
        extract_metrics_for_table decimal to_str content metrics source_url
        = Raise e)
    /\ (forall results,
          extract_key_metrics decimal content metrics source_url = Ok results ->
          extract_metrics_for_table decimal to_str content metrics source_url
          = Ok (match results with
                | [] => py "未找到相关指标"
                | _ =>
                  join [10%N]
                    (py "| metric | value | confidence |"
                     :: py "| --- | --- | --- |"
                     :: map (metric_row to_str) results)
                end)).
Proof.
  intros decimal to_str content metrics source_url Hstr.
  unfold extract_metrics_for_table. split.
  - intros e ->. reflexivity.
  - intros results ->. cbn [bind].
    destruct results as [|k rs]; [reflexivity|]. f_equal.
    cbn [map]. rewrite generate_data_table_lines. cbv zeta.
    f_equal. f_equal. f_equal. cbn [map]. f_equal.
    + now apply metric_dict_row.
    + rewrite map_map. apply map_ext. intros x. now apply metric_dict_row.
Qed.

Lemma metrics_table_layout_witness :
  extract_metrics_for_table ascii_decimal
    (fun o => match o with
              | PStr s => s
              | PNone => py "None"
              | PInt n => []
              | PFloat q => if Qeq_bool q (85 # 100) then py "0.85" else py "0.8"
              end)
    (py "销量达到700万辆") [py "销量"] []
  = Ok (py "| metric | value | confidence |
| --- | --- | --- |
| 销量 | 700 | 0.85 |").
Proof.
  exact (proj2 (metrics_table_layout ascii_decimal
                  (fun o => match o with
                            | PStr s => s
                            | PNone => py "None"
                            | PInt n => []
                            | PFloat q =>
                              if Qeq_bool q (85 # 100) then py "0.85"
                              else py "0.8"
                            end)
                  (py "销量达到700万辆") [py "销量"] []
                  (fun s => eq_refl))
           [KeyMetric.make (py "销量") (Some (py "700")) 0 (85 # 100)%Q]
           eq_refl).
Defined.
